(** * marshmallow: field collection, schema instances and marshalling

  A shallow embedding of [marshmallow/core.py]:

  - [Py]: the fragment of Python the module relies on (exceptions, the
    values handed to [marshal], [hasattr] on the two names the module
    probes, iteration, insertion-ordered dictionaries);
  - [Core]: [is_instance_or_subclass], [_get_declared_fields],
    [SerializerMeta.__new__], [_is_iterable_but_not_string], [marshal];
  - [Instances]: [BaseSerializer.__init__], [get_fields] and [data] over an
    explicit object store, with [copy.deepcopy] and its memo table and with
    the lookup of the attribute [parent] in an object and its classes;
  - [Validate]: the contract of [validate.email]. *)

From Stdlib Require Import String List ZArith Lia Bool Ascii.
From stdpp Require Import base list strings.
Import ListNotations.
Local Open Scope string_scope.
Local Open Scope list_scope.
Set Warnings "-register-all".

(** ** The Python fragment *)

Module Py.

(** Exceptions that the modelled code can raise. [FieldError] stands for
    whatever a field's [output] raises. *)
Inductive exn :=
| TypeError
| AttributeError
| KeyError
| RecursionError
| ValidationError (msg : string)
| FieldError (msg : string).

Inductive result (A : Type) :=
| Ok (a : A)
| Raise (e : exn).
Arguments Ok {A} a.
Arguments Raise {A} e.

Definition bind {A B} (m : result A) (k : A -> result B) : result B :=
  match m with
  | Ok a => k a
  | Raise e => Raise e
  end.

Definition rmap {A B} (f : A -> B) (m : result A) : result B :=
  bind m (fun a => Ok (f a)).

(** A comprehension [[f x for x in l]]: left to right, the first
    exception ends it. *)
Definition for_each {A B} (f : A -> result B) : list A -> result (list B) :=
  fix go (l : list A) : result (list B) :=
    match l with
    | [] => Ok []
    | x :: l' => bind (f x) (fun y => bind (go l') (fun ys => Ok (y :: ys)))
    end.

(** The same with a state threaded through the calls. *)
Definition for_each_st {A B S} (f : A -> S -> result (B * S))
  : list A -> S -> result (list B * S) :=
  fix go (l : list A) (st : S) : result (list B * S) :=
    match l with
    | [] => Ok ([], st)
    | x :: l' =>
        bind (f x st) (fun r =>
        bind (go l' (snd r)) (fun rs => Ok (fst r :: fst rs, snd rs)))
    end.

(** Source objects given to [marshal]. [VObj attrs it] is an instance of a
    user class: [attrs] are the attribute names [hasattr] can see with
    their values, [it] is what iterating the object yields when its type
    supports iteration. *)
Inductive value :=
| VNone
| VInt (n : Z)
| VStr (s : string)
| VList (items : list value)
| VDict (items : list (value * value))
| VObj (attrs : list (string * value)) (it : option (list value)).

(** [hasattr obj name], exact on the two names the module probes,
    ["__iter__"] and ["strip"]. (A Python 2 string has no ["__iter__"];
    having ["strip"], it fails the test of [marshal] all the same.) *)
Definition hasattr (obj : value) (name : string) : bool :=
  match obj with
  | VNone | VInt _ => false
  | VStr _ => String.eqb name "__iter__" || String.eqb name "strip"
  | VList _ | VDict _ => String.eqb name "__iter__"
  | VObj attrs _ => existsb (fun kv => String.eqb (fst kv) name) attrs
  end.

(** [list(obj)]: the elements a [for] loop over [obj] visits. A mapping
    yields its keys. *)
Definition elements (obj : value) : result (list value) :=
  match obj with
  | VList items => Ok items
  | VDict items => Ok (map fst items)
  | VObj _ (Some items) => Ok items
  | _ => Raise TypeError
  end.

(** *** Insertion-ordered dictionaries

    A [dict]/[OrderedDict] with string keys is the list of its items in
    iteration order. Python keeps the keys unique; [d[k] = v] on a present
    key replaces the value where it stands, on an absent key appends. The
    body of a class reaches the metaclass as such a dictionary, its items
    in the order of the statements of the body. *)
Section Dict.
Context {V : Type}.

Definition dict := list (string * V).

Definition keys (d : dict) : list string := map fst d.

Fixpoint dict_get (d : dict) (k : string) : option V :=
  match d with
  | [] => None
  | (k', v) :: d' => if String.eqb k' k then Some v else dict_get d' k
  end.

Fixpoint dict_set (d : dict) (k : string) (v : V) : dict :=
  match d with
  | [] => [(k, v)]
  | (k', v') :: d' =>
      if String.eqb k' k then (k', v) :: d'
      else (k', v') :: dict_set d' k v
  end.

(** [d.pop(k)]: the value and the dictionary without the key. *)
Fixpoint dict_pop (d : dict) (k : string) : result (V * dict) :=
  match d with
  | [] => Raise KeyError
  | (k', v) :: d' =>
      if String.eqb k' k then Ok (v, d')
      else bind (dict_pop d' k) (fun r => Ok (fst r, (k', v) :: snd r))
  end.

(** [k in ks]. *)
Definition mem (k : string) (ks : list string) : bool :=
  existsb (String.eqb k) ks.

(** [OrderedDict(pairs)]: the pairs are inserted one after the other. *)
Definition OrderedDict (pairs : list (string * V)) : dict :=
  fold_left (fun d kv => dict_set d (fst kv) (snd kv)) pairs [].

(** The last pair of [pairs] whose key is [k]. *)
Definition last_binding (pairs : list (string * V)) (k : string) : option V :=
  dict_get (rev pairs) k.

(** The keys of [ks], each at its first occurrence. *)
Fixpoint first_occurrences (ks : list string) : list string :=
  match ks with
  | [] => []
  | k :: ks' =>
      k :: List.filter (fun k' => negb (String.eqb k k')) (first_occurrences ks')
  end.
End Dict.
Arguments dict V : clear implicits.

End Py.

(** ** core.py *)

Module Core.
Import Py.

(** *** Marshalling *)

Section Marshal.

(** [F] is the type of field objects; [output f k data] is the call
    [f.output(k, data)] of the field contract (marshmallow.base.Field). *)
Variable F : Type.
Variable output : F -> string -> value -> result value.

(** The values of a [fields] mapping: a field, or a nested mapping. *)
Inductive fentry :=
| FField (f : F)
| FDict (m : list (string * fentry)).

(** What [marshal] returns: a list of results, or an [OrderedDict] from
    names to field outputs and nested results. *)
Inductive marshalled :=
| MVal (v : value)
| MList (rs : list marshalled)
| MDict (d : list (string * marshalled)).

Definition _is_iterable_but_not_string (obj : value) : bool :=
  hasattr obj "__iter__" && negb (hasattr obj "strip").

(** One item of the generator of lines 121-123, for a [data] that the test
    of line 119 has let through: the recursive call [marshal(data, v)]
    passes the same [data], fails that test again and builds the
    [OrderedDict] of [v]'s items. *)
Fixpoint marshal_value (data : value) (k : string) (v : fentry)
  : result marshalled :=
  match v with
  | FDict m =>
      rmap (fun d => MDict (OrderedDict d))
        (for_each (fun kv => rmap (pair (fst kv))
                               (marshal_value data (fst kv) (snd kv))) m)
  | FField f => rmap MVal (output f k data)
  end.

Definition marshal_items (data : value) (fields : list (string * fentry))
  : result (list (string * marshalled)) :=
  for_each (fun kv => rmap (pair (fst kv)) (marshal_value data (fst kv) (snd kv)))
    fields.

Fixpoint marshal (data : value) (fields : list (string * fentry))
  : result marshalled :=
  if _is_iterable_but_not_string data then
    match data with
    | VList items =>
        rmap MList (for_each (fun d => marshal d fields) items)
    | VDict items =>
        rmap MList (for_each (fun kv => marshal (fst kv) fields) items)
    | VObj _ (Some items) =>
        rmap MList (for_each (fun d => marshal d fields) items)
    | _ => Raise TypeError
    end
  else rmap (fun d => MDict (OrderedDict d)) (marshal_items data fields).

(** [has_keys ks r]: every mapping [marshal] has built in [r] has exactly
    the keys [ks], in that order; [r] is such a mapping or, for a sequence,
    a list of results that are. *)
Inductive has_keys (ks : list string) : marshalled -> Prop :=
| has_keys_dict d : keys d = ks -> has_keys ks (MDict d)
| has_keys_list rs : Forall (has_keys ks) rs -> has_keys ks (MList rs).

(** [iterates data]: wherever [marshal] goes through [data] as a sequence,
    the object does support iteration. *)
Inductive iterates : value -> Prop :=
| iterates_scalar data :
    _is_iterable_but_not_string data = false -> iterates data
| iterates_seq data items :
    _is_iterable_but_not_string data = true ->
    elements data = Ok items ->
    Forall iterates items ->
    iterates data.

(** [shaped ks data r]: [r] has the shape that [marshal] gives to the
    input [data]: one mapping with the keys [ks], in that order, when
    [data] is not gone through as a sequence; otherwise a list with one
    such result for each element of [data], in order. *)
Inductive shaped (ks : list string) : value -> marshalled -> Prop :=
| shaped_record data d :
    _is_iterable_but_not_string data = false ->
    keys d = ks ->
    shaped ks data (MDict d)
| shaped_seq data items rs :
    _is_iterable_but_not_string data = true ->
    elements data = Ok items ->
    Forall2 (shaped ks) items rs ->
    shaped ks data (MList rs).

(** [leaf data src]: [src] is one of the source objects that [marshal]
    hands to the fields when given [data]: [data] itself, or what is
    reached through the sequences. *)
Inductive leaf : value -> value -> Prop :=
| leaf_here data :
    _is_iterable_but_not_string data = false -> leaf data data
| leaf_in data items x src :
    _is_iterable_but_not_string data = true ->
    elements data = Ok items ->
    x ∈ items -> leaf x src ->
    leaf data src.

End Marshal.
Arguments FField {F} f.
Arguments FDict {F} m.

(** *** Field collection *)

Section Declared.

(** [F] is what identifies a field object: its state in the pure reading,
    its address in the object store of [Instances]. *)
Variable F : Type.

(** The objects found as class attributes, by what [issubclass] and
    [isinstance] against [base.Field] answer on them. *)
Inductive pyobj :=
| FieldInstance (f : F)
| FieldClass (f : F)
| OtherClass (name : string)
| Plain (v : value).

(** [issubclass(val, base.Field)] raises [TypeError] when [val] is not a
    class. *)
Definition issubclass_Field (val : pyobj) : result bool :=
  match val with
  | FieldClass _ => Ok true
  | OtherClass _ => Ok false
  | FieldInstance _ | Plain _ => Raise TypeError
  end.

Definition isinstance_Field (val : pyobj) : bool :=
  match val with
  | FieldInstance _ => true
  | _ => false
  end.

(** [is_instance_or_subclass(val, class_)], at its only call, where
    [class_] is [base.Field]. *)
Definition is_instance_or_subclass (val : pyobj) : result bool :=
  match issubclass_Field val with
  | Raise TypeError => Ok (isinstance_Field val)
  | r => r
  end.

(** A class object: its name, the attributes of its body and
    [_base_fields] as attribute access on the class finds it ([None] when
    [hasattr(cls, '_base_fields')] is false). *)
Record pyclass := PyClass {
  c_name : string;
  c_dict : dict pyobj;
  _base_fields : option (dict pyobj)
}.

(** The comprehension of lines 20-22 over the snapshot
    [list(iteritems(attrs))]; [attrs.pop] changes [attrs] as it goes. *)
Fixpoint collect_declared (snapshot : list (string * pyobj)) (attrs : dict pyobj)
  : result (list (string * pyobj) * dict pyobj) :=
  match snapshot with
  | [] => Ok ([], attrs)
  | (field_name, val) :: rest =>
      bind (is_instance_or_subclass val) (fun b =>
      if b : bool then
        bind (dict_pop attrs field_name) (fun popped =>
        bind (collect_declared rest (snd popped)) (fun more =>
        Ok ((field_name, fst popped) :: fst more, snd more)))
      else collect_declared rest attrs)
  end.

(** The loop of lines 25-27 over [bases[::-1]]. *)
Definition inherit_fields (bases : list pyclass) (declared : list (string * pyobj))
  : list (string * pyobj) :=
  fold_left (fun declared base_class =>
               match _base_fields base_class with
               | Some base_fields => base_fields ++ declared
               | None => declared
               end) (rev bases) declared.

(** Returns the mapping together with [attrs] as the pops have left it. *)
Definition _get_declared_fields (bases : list pyclass) (attrs : dict pyobj)
  : result (dict pyobj * dict pyobj) :=
  bind (collect_declared attrs attrs) (fun r =>
  Ok (OrderedDict (inherit_fields bases (fst r)), snd r)).

(** [SerializerMeta.__new__(cls, name, bases, attrs)]. The assignment
    [attrs['_base_fields'] = ...] replaces whatever the body had under that
    name. *)
Definition SerializerMeta_new (name : string) (bases : list pyclass)
    (attrs : dict pyobj) : result pyclass :=
  bind (_get_declared_fields bases attrs) (fun r =>
  Ok {| c_name := name;
        c_dict := List.filter (fun kv => negb (String.eqb (fst kv) "_base_fields")) (snd r);
        _base_fields := Some (fst r) |}).

(** [BaseSerializer] is an ordinary class; [Serializer] is made from it by
    the metaclass and declares no field. *)
Definition BaseSerializer : pyclass :=
  {| c_name := "BaseSerializer"; c_dict := []; _base_fields := None |}.

Definition Serializer : pyclass :=
  {| c_name := "Serializer"; c_dict := []; _base_fields := Some [] |}.

(** The attributes that pass the test of line 22, and the fields, in
    order, that the declaration of a class then consists of. *)
Definition is_field (val : pyobj) : bool :=
  match is_instance_or_subclass val with
  | Ok b => b
  | Raise _ => false
  end.

Definition declared_of (attrs : dict pyobj) : list (string * pyobj) :=
  List.filter (fun kv => is_field (snd kv)) attrs.

(** The items of the bases' mappings, first base first. *)
Definition inherited_of (bases : list pyclass) : list (string * pyobj) :=
  flat_map (fun base_class => default [] (_base_fields base_class)) bases.

(** [k] stands later than [k'] in [ks]. *)
Definition comes_after (ks : list string) (k k' : string) : Prop :=
  exists i j, ks !! i = Some k' /\ ks !! j = Some k /\ i < j.

(** In the mapping of [B], made from the base [A] and the body [attrsB], a
    name that [B] declares and [A] already has stands after every other
    name. *)
Definition override_goes_last (A : pyclass) (attrsB : dict pyobj)
    (B : pyclass) : Prop :=
  forall fieldsA fieldsB k,
    _base_fields A = Some fieldsA ->
    _base_fields B = Some fieldsB ->
    k ∈ keys fieldsA ->
    k ∈ keys (declared_of attrsB) ->
    forall k', k' ∈ keys fieldsB -> k' <> k -> comes_after (keys fieldsB) k k'.

End Declared.
Arguments FieldInstance {F} f.
Arguments FieldClass {F} f.
Arguments OtherClass {F} name.
Arguments Plain {F} v.
Arguments c_name {F} p.
Arguments c_dict {F} p.
Arguments _base_fields {F} p.
Arguments BaseSerializer {F}.
Arguments Serializer {F}.

End Core.

(** ** Schema instances over an object store *)

Module Instances.
Import Py Core.

(** Addresses of objects in the store. *)
Abbreviation loc := nat.

Section Store.

(** What a field object holds besides its [parent]: its options, formats
    and the like, plain data that [copy.deepcopy] reproduces as it is. *)
Variable body : Type.

(** A field object, an instance of a field class or a field class itself
    ([marshmallow/base.py] and the field classes are not among the
    sources, so nothing is taken for granted about where [parent] is
    defined). [f_parent] is the entry ["parent"] of the object's own
    [__dict__]: [None] when there is no entry, [Some None] for [parent =
    None], [Some (Some p)] for a reference. [f_mro] are the class objects
    in which attribute lookup goes on after the object's own [__dict__],
    in that order: [type(obj).__mro__] for an instance, the rest of
    [cls.__mro__] for a class. *)
Record field := Field {
  f_parent : option (option loc);
  f_mro : list loc;
  f_body : body
}.

(** The attributes of a [BaseSerializer] instance; both are unset until
    [__init__] assigns them. *)
Record serializer := SerializerObj {
  s_class : pyclass loc;
  s_data : option value;
  s_fields : option (dict (pyobj loc))
}.

Inductive obj :=
| OField (f : field)
| OSerializer (s : serializer).

(** The store: the object at address [l] is [h !! l]; a new object takes
    the address [length h]. *)
Local Abbreviation heap := (list obj).

Definition alloc (o : obj) (h : heap) : loc * heap := (length h, h ++ [o]).

(** *** Attribute access *)

(** The lookup of ["parent"] in the [__dict__] of the classes, in order:
    the first entry found is the value; [AttributeError] when no class has
    one. An address that holds no class stops the lookup. *)
Fixpoint lookup_parent (h : heap) (classes : list loc) : result (option loc) :=
  match classes with
  | [] => Raise AttributeError
  | c :: rest =>
      match h !! c with
      | Some (OField f) =>
          match f_parent f with
          | Some v => Ok v
          | None => lookup_parent h rest
          end
      | _ => Raise TypeError
      end
  end.

(** [obj.parent]: the object's own entry, else what its classes give. *)
Definition getattr_parent (h : heap) (l : loc) : result (option loc) :=
  match h !! l with
  | Some (OField f) =>
      match f_parent f with
      | Some v => Ok v
      | None => lookup_parent h (f_mro f)
      end
  | _ => Raise AttributeError
  end.

(** [obj.parent = v]: the entry of the object's own [__dict__], also when
    [obj] is a class. *)
Definition setattr_parent (h : heap) (l : loc) (v : option loc) : result heap :=
  match h !! l with
  | Some (OField f) => Ok (<[l := OField (Field (Some v) (f_mro f) (f_body f))]> h)
  | _ => Raise AttributeError
  end.

(** *** copy.deepcopy *)

(** The memo table of one [deepcopy] call, from an object to its copy, and
    the store. *)
Definition copy_state := (list (loc * loc) * heap)%type.

Fixpoint memo_get (memo : list (loc * loc)) (x : loc) : option loc :=
  match memo with
  | [] => None
  | (x', y) :: memo' => if Nat.eqb x' x then Some y else memo_get memo' x
  end.

(** A class is its own deep copy, and so is a plain value, immutable
    here. *)
Definition deepcopy_value (deep : loc -> copy_state -> result (loc * copy_state))
    (v : pyobj loc) (st : copy_state) : result (pyobj loc * copy_state) :=
  match v with
  | FieldInstance l => bind (deep l st) (fun r => Ok (FieldInstance (fst r), snd r))
  | FieldClass _ | OtherClass _ | Plain _ => Ok (v, st)
  end.

(** The items are copied in order; the keys are strings. *)
Definition deepcopy_dict (deep : loc -> copy_state -> result (loc * copy_state))
    (d : dict (pyobj loc)) (st : copy_state)
  : result (dict (pyobj loc) * copy_state) :=
  for_each_st (fun kv st =>
                 bind (deepcopy_value deep (snd kv) st) (fun r =>
                 Ok ((fst kv, fst r), snd r))) d st.

(** [deepcopy(x, memo)] of the instance at [x]: an object already in the
    memo table is not copied again; otherwise an empty instance of the
    same class is made and entered in the table, then the [__dict__] of
    [x] is copied and filled in. The class is not copied, so the copy
    looks attributes up in the same classes. [fuel] bounds the depth of
    the recursion; an address outside the store, which a closed store
    never holds, ends the call with [TypeError]. *)
Fixpoint deepcopy (fuel : nat) (x : loc) (st : copy_state)
  : result (loc * copy_state) :=
  match fuel with
  | O => Raise RecursionError
  | S fuel' =>
      match memo_get (fst st) x with
      | Some y => Ok (y, st)
      | None =>
          match snd st !! x with
          | None => Raise TypeError
          | Some (OField f) =>
              let (y, h1) :=
                alloc (OField (Field None (f_mro f) (f_body f))) (snd st) in
              let st1 := ((x, y) :: fst st, h1) in
              match f_parent f with
              | None => Ok (y, st1)
              | Some None =>
                  Ok (y, (fst st1,
                          <[y := OField (Field (Some None) (f_mro f) (f_body f))]>
                            h1))
              | Some (Some p) =>
                  bind (deepcopy fuel' p st1) (fun r =>
                  Ok (y, (fst (snd r),
                          <[y := OField (Field (Some (Some (fst r))) (f_mro f)
                                           (f_body f))]>
                            (snd (snd r)))))
              end
          | Some (OSerializer s) =>
              let (y, h1) :=
                alloc (OSerializer (SerializerObj (s_class s) (s_data s) None))
                  (snd st) in
              let st1 := ((x, y) :: fst st, h1) in
              match s_fields s with
              | None => Ok (y, st1)
              | Some fields =>
                  bind (deepcopy_dict (deepcopy fuel') fields st1) (fun r =>
                  Ok (y, (fst (snd r),
                          <[y := OSerializer
                                   (SerializerObj (s_class s) (s_data s)
                                      (Some (fst r)))]>
                            (snd (snd r)))))
              end
          end
      end
  end.

(** *** BaseSerializer *)

(** The loop of lines 55-57. [field_obj.parent] is read as Python reads an
    attribute, from the object or from its classes; [not] holds of [None]
    and of no schema instance (neither [BaseSerializer] nor [Serializer]
    defines [__bool__] or [__len__]); the assignment writes the object's
    own entry. *)
Fixpoint set_parents (self : loc) (base_fields : dict (pyobj loc)) (h : heap)
  : result heap :=
  match base_fields with
  | [] => Ok h
  | (field_name, field_obj) :: rest =>
      match field_obj with
      | FieldInstance l | FieldClass l =>
          match getattr_parent h l with
          | Ok None =>
              match setattr_parent h l (Some self) with
              | Ok h' => set_parents self rest h'
              | Raise e => Raise e
              end
          | Ok (Some _) => set_parents self rest h
          | Raise e => Raise e
          end
      | OtherClass _ | Plain _ => Raise AttributeError
      end
  end.

(** [self.get_fields()]. No object graph is deeper than the store is
    long, so the recursion of [deepcopy] is not cut short
    ([deepcopy_total] below). *)
Definition get_fields (self : loc) (h : heap)
  : result (dict (pyobj loc) * heap) :=
  match h !! self with
  | Some (OSerializer s) =>
      match _base_fields (s_class s) with
      | None => Raise AttributeError
      | Some template =>
          bind (deepcopy_dict (deepcopy (S (length h))) template ([], h))
            (fun r =>
          let base_fields := fst r in
          bind (set_parents self base_fields (snd (snd r))) (fun h' =>
          Ok (base_fields, h')))
      end
  | _ => Raise TypeError
  end.

Definition set_data (self : loc) (data : value) (h : heap) : result heap :=
  match h !! self with
  | Some (OSerializer s) =>
      Ok (<[self := OSerializer (SerializerObj (s_class s) (Some data) (s_fields s))]> h)
  | _ => Raise TypeError
  end.

Definition set_fields (self : loc) (fields : dict (pyobj loc)) (h : heap)
  : result heap :=
  match h !! self with
  | Some (OSerializer s) =>
      Ok (<[self := OSerializer (SerializerObj (s_class s) (s_data s) (Some fields))]> h)
  | _ => Raise TypeError
  end.

(** [BaseSerializer.__init__(self, data)]. *)
Definition __init__ (self : loc) (data : value) (h : heap) : result heap :=
  bind (set_data self data h) (fun h1 =>
  bind (get_fields self h1) (fun r =>
  set_fields self (fst r) (snd r))).

(** The call [cls(data)]: a new instance of [cls], then [__init__]. *)
Definition new (cls : pyclass loc) (data : value) (h : heap)
  : result (loc * heap) :=
  let (self, h0) := alloc (OSerializer (SerializerObj cls None None)) h in
  bind (__init__ self data h0) (fun h' => Ok (self, h')).

(** [v.output(k, data)] on a value of [self.fields], which may read the
    store (the field's state, its parent). *)
Variable output : heap -> pyobj loc -> string -> value -> result value.

(** [self.to_data()], and with it the property [data]: none of the values
    of [self.fields] is a [dict]. *)
Definition to_data (self : loc) (h : heap) : result (marshalled) :=
  match h !! self with
  | Some (OSerializer s) =>
      match s_data s, s_fields s with
      | Some _data, Some fields =>
          marshal (pyobj loc) (output h) _data
            (map (fun kv => (fst kv, FField (snd kv))) fields)
      | _, _ => Raise AttributeError
      end
  | _ => Raise TypeError
  end.

Definition data (self : loc) (h : heap) : result marshalled := to_data self h.

(** *** Reading a store *)

(** The state of the field object a value of a field mapping refers to. *)
Definition field_at (h : heap) (v : pyobj loc) : option field :=
  match v with
  | FieldInstance l | FieldClass l =>
      match h !! l with
      | Some (OField f) => Some f
      | _ => None
      end
  | OtherClass _ | Plain _ => None
  end.

(** [v.parent] for a value of a field mapping. *)
Definition parent_of (h : heap) (v : pyobj loc) : result (option loc) :=
  match v with
  | FieldInstance l | FieldClass l => getattr_parent h l
  | OtherClass _ | Plain _ => Raise AttributeError
  end.

(** The addresses of the field objects of a mapping. *)
Definition field_locs (d : dict (pyobj loc)) : list loc :=
  flat_map (fun kv => match snd kv with
                      | FieldInstance l | FieldClass l => [l]
                      | OtherClass _ | Plain _ => []
                      end) d.

Definition fields_of (h : heap) (self : loc) : option (dict (pyobj loc)) :=
  match h !! self with
  | Some (OSerializer s) => s_fields s
  | _ => None
  end.

(** [copy] holds, name for name, a field whose contents are those of the
    field of [template]. *)
Definition same_contents (h_template : heap) (template : dict (pyobj loc))
    (h_copy : heap) (copy : dict (pyobj loc)) : Prop :=
  Forall2 (fun t c =>
             fst t = fst c /\
             exists ft fc, field_at h_template (snd t) = Some ft /\
                           field_at h_copy (snd c) = Some fc /\
                           f_body ft = f_body fc) template copy.

(** Two instances of [cls] made one after the other from the store [h]:
    both constructions succeed; each mapping has the names, the order and
    the field contents of the template; no field object is shared between
    the two instances or with the template; [.parent] of every field of an
    instance is that instance; the field objects of the template are as
    they were, and so is what [.parent] gives on them. *)
Definition independent_instances (h : heap) (cls : pyclass loc)
    (data1 data2 : value) : Prop :=
  exists template s1 h1 s2 h2 fs1 fs2,
    _base_fields cls = Some template /\
    new cls data1 h = Ok (s1, h1) /\
    new cls data2 h1 = Ok (s2, h2) /\
    s1 <> s2 /\
    fields_of h2 s1 = Some fs1 /\
    fields_of h2 s2 = Some fs2 /\
    same_contents h template h2 fs1 /\
    same_contents h template h2 fs2 /\
    (forall l, l ∈ field_locs fs1 -> l ∉ field_locs fs2) /\
    (forall l, l ∈ field_locs fs1 ++ field_locs fs2 ->
               l ∉ field_locs template) /\
    Forall (fun kv => parent_of h2 (snd kv) = Ok (Some s1)) fs1 /\
    Forall (fun kv => parent_of h2 (snd kv) = Ok (Some s2)) fs2 /\
    Forall (fun kv => field_at h2 (snd kv) = field_at h (snd kv) /\
                      parent_of h2 (snd kv) = parent_of h (snd kv)) template.

(** [h'] has every object of [h], unchanged, at its address. *)
Definition extends (h h' : heap) : Prop :=
  length h <= length h' /\ forall l, l < length h -> h' !! l = h !! l.

(** The item [c] is the copy of the item [t]: same name; [t] refers to a
    field instance of the store [h_t] on which [.parent] gives [None], [c]
    to a field instance of [h_c] at an address not below [lo], of the same
    class and contents, in the state of the original when [p] is [None]
    and with the own parent [s] when [p] is [Some s]. *)
Definition copy_of (h_t h_c : heap) (lo : loc) (p : option loc)
    (t c : string * pyobj loc) : Prop :=
  fst t = fst c /\
  exists l y f,
    snd t = FieldInstance l /\ snd c = FieldInstance y /\
    h_t !! l = Some (OField f) /\
    getattr_parent h_t l = Ok None /\
    h_c !! y = Some (OField (match p with
                             | None => f
                             | Some s => Field (Some (Some s)) (f_mro f) (f_body f)
                             end)) /\
    lo <= y.

(** The state of a [deepcopy] call that started from the store [h0] and
    has met only field instances on which [.parent] gives [None]: the
    store has grown, and the memo table sends objects of [h0] to their
    copies. *)
Definition memo_ok (h0 : heap) (st : copy_state) : Prop :=
  extends h0 (snd st) /\
  forall l y, memo_get (fst st) l = Some y ->
    exists f, h0 !! l = Some (OField f) /\
              getattr_parent h0 l = Ok None /\
              snd st !! y = Some (OField f) /\
              length h0 <= y.

(** *** Well-formed stores *)

(** The references an object holds are addresses below [n]. *)
Definition refs_below (n : loc) (o : obj) : Prop :=
  match o with
  | OField f =>
      (forall p, f_parent f = Some (Some p) -> p < n) /\
      (forall c, c ∈ f_mro f -> c < n)
  | OSerializer s =>
      forall d, s_fields s = Some d -> forall l, l ∈ field_locs d -> l < n
  end.

(** No object of the store refers outside of it. *)
Definition closed (h : heap) : Prop :=
  forall l o, h !! l = Some o -> refs_below (length h) o.

Definition is_field_at (h : heap) (l : loc) : Prop :=
  exists f, h !! l = Some (OField f).

(** Every value of the mapping is a field object of the store, an
    instance or a class, on which [.parent] can be read: the object or one
    of its classes has the attribute. *)
Definition fields_in (h : heap) (d : dict (pyobj loc)) : Prop :=
  Forall (fun kv => exists l, (snd kv = FieldInstance l \/ snd kv = FieldClass l) /\
                              exists v, getattr_parent h l = Ok v) d.

(** How many of the addresses below [n] the memo table does not have. *)
Definition unvisited (n : nat) (memo : list (loc * loc)) : nat :=
  length (List.filter (fun l => match memo_get memo l with
                                | None => true
                                | Some _ => false
                                end) (seq 0 n)).

Definition memo_le (memo memo' : list (loc * loc)) : Prop :=
  forall l y, memo_get memo l = Some y -> memo_get memo' l = Some y.

(** The copies in the memo table are in the store, and the copy of a field
    of [h0] is a field. *)
Definition memo_inv (h0 : heap) (st : copy_state) : Prop :=
  forall l y, memo_get (fst st) l = Some y ->
    y < length (snd st) /\ (is_field_at h0 l -> is_field_at (snd st) y).

(** What a call [deep x st] on an object [x] of [h0] achieves when the
    addresses not yet in the memo table are fewer than [k]: it returns a
    copy, entered in the table. *)
Definition returns (h0 : heap) (k : nat)
    (deep : loc -> copy_state -> result (loc * copy_state)) : Prop :=
  forall x memo h,
    extends h0 h -> memo_inv h0 (memo, h) -> x < length h0 ->
    unvisited (length h0) memo < k ->
    exists y memo' h',
      deep x (memo, h) = Ok (y, (memo', h')) /\
      extends h h' /\ memo_inv h0 (memo', h') /\
      memo_le memo memo' /\ memo_get memo' x = Some y.

(** The copies entered in the memo table since the store had [n0] objects
    are objects added since, one per original. *)
Definition memo_fresh (n0 : loc) (st : copy_state) : Prop :=
  (forall l y, memo_get (fst st) l = Some y -> n0 <= y < length (snd st)) /\
  (forall l1 l2 y, memo_get (fst st) l1 = Some y ->
                   memo_get (fst st) l2 = Some y -> l1 = l2).

(** The item [c] is what [deepcopy] with the table [memo] makes of the
    item [t]: a field instance gives way to its copy, any other value
    stays. *)
Definition copies_by (memo : list (loc * loc)) (t c : string * pyobj loc)
  : Prop :=
  fst t = fst c /\
  match snd t with
  | FieldInstance l => exists y, snd c = FieldInstance y /\ memo_get memo l = Some y
  | v => snd c = v
  end.

(** [fc] is the state that [deepcopy] with the table [memo] gives to the
    copy of a field instance in the state [f]: the same classes and
    contents, and an own [parent] entry exactly when [f] has one, holding
    the copy of what that holds. *)
Definition field_copy (memo : list (loc * loc)) (f fc : field) : Prop :=
  f_mro fc = f_mro f /\ f_body fc = f_body f /\
  match f_parent f with
  | None => f_parent fc = None
  | Some None => f_parent fc = Some None
  | Some (Some p) =>
      exists p', f_parent fc = Some (Some p') /\ memo_get memo p = Some p'
  end.

(** What a [deepcopy] call has entered in the memo table is, when the call
    returns, a finished copy. *)
Definition completes (deep : loc -> copy_state -> result (loc * copy_state))
  : Prop :=
  forall x memo h y memo' h',
    deep x (memo, h) = Ok (y, (memo', h')) ->
    memo_fresh 0 (memo, h) ->
    forall l y0, memo_get memo' l = Some y0 -> memo_get memo l = None ->
      length h <= y0 /\
      forall f, h !! l = Some (OField f) ->
        exists fc, h' !! y0 = Some (OField fc) /\ field_copy memo' f fc.

(** The template holds field instances only, on each of which [.parent]
    gives [None]: neither the instance nor any class it looks attributes
    up in has a parent set. *)
Definition fresh_instances (h : heap) (template : dict (pyobj loc)) : Prop :=
  Forall (fun kv => exists l, snd kv = FieldInstance l /\
                              getattr_parent h l = Ok None) template.

End Store.
Arguments Field {body} f_parent f_mro f_body.
Arguments f_parent {body} f.
Arguments f_mro {body} f.
Arguments f_body {body} f.
Arguments OField {body} f.
Arguments OSerializer {body} s.
End Instances.

(** ** validate.py *)

Module Validate.
Import Py.

Fixpoint split_on (sep : ascii) (s : string) : list string :=
  match s with
  | EmptyString => [EmptyString]
  | String c s' =>
      if Ascii.eqb c sep then EmptyString :: split_on sep s'
      else match split_on sep s' with
           | [] => [String c EmptyString]
           | part :: parts => String c part :: parts
           end
  end.

Fixpoint contains (c : ascii) (s : string) : bool :=
  match s with
  | EmptyString => false
  | String c' s' => Ascii.eqb c' c || contains c s'
  end.

(** Modelled from the spec: [marshmallow/validate.py] is not among the
    sources. The accepted shape is "exactly the expected local-part/domain
    structure, including a non-empty domain containing a separator": one
    ["@"] between a local part and a domain, neither empty, the domain
    with a ["."] in it. *)
Definition email_shape (value : string) : bool :=
  match split_on "@"%char value with
  | [local_part; domain] =>
      negb (String.eqb local_part "") && negb (String.eqb domain "")
      && contains "."%char domain
  | _ => false
  end.

(** Modelled from the spec: [validate_email(value) -> value], "fails with
    ValidationError when value does not match the accepted email shape" and
    "returns the input unchanged" otherwise. *)
Definition email (value : string) : result string :=
  if email_shape value then Ok value
  else Raise (ValidationError "Invalid email address.").

End Validate.

(** ** Concrete schemas and inputs *)

Module Examples.
Import Py Core Instances.

(** Field objects told apart by a label, for the pure reading. *)
Definition attrsA : dict (pyobj string) :=
  [("a1", FieldInstance "A.a1"); ("a2", FieldInstance "A.a2")].

Definition attrsB : dict (pyobj string) :=
  [("b1", FieldInstance "B.b1")].

Definition A_class : pyclass string :=
  {| c_name := "A"; c_dict := []; _base_fields := Some attrsA |}.

(** A body that declares [a1] again, next to a method-like attribute. *)
Definition attrsB_again : dict (pyobj string) :=
  [("helper", Plain VNone); ("a1", FieldInstance "B.a1")].

(** [getattr(data, k)] on an object, [data[k]] on a mapping: what a
    pass-through field returns. *)
Definition get_value (k : string) (data : value) : result value :=
  match data with
  | VObj attrs _ =>
      match dict_get attrs k with
      | Some x => Ok x
      | None => Raise AttributeError
      end
  | VDict items =>
      match List.find (fun kv => match fst kv with
                                 | VStr k' => String.eqb k' k
                                 | _ => false
                                 end) items with
      | Some kv => Ok (snd kv)
      | None => Raise KeyError
      end
  | _ => Raise AttributeError
  end.

Definition raw_output (f : string) (k : string) (data : value) : result value :=
  get_value k data.

(** A source object with the city next to the name, and a field mapping
    that nests the city under ["address"]. *)
Definition resident : value :=
  VObj [("name", VStr "Ada"); ("city", VStr "London")] None.

Definition address_fields : list (string * fentry string) :=
  [("city", FField "String")].

Definition resident_fields : list (string * fentry string) :=
  [("name", FField "String"); ("address", FDict address_fields)].

(** The store before any schema instance exists: the field instances
    [String()] and [Integer()], whose [__dict__] has no [parent], then the
    class objects [String], [Field] and [Integer]; [Field] is the one that
    defines [parent = None]. *)
Definition store0 : list (obj string) :=
  [OField (Field None [2; 3] "String()");
   OField (Field None [4; 3] "Integer()");
   OField (Field None [3] "class String");
   OField (Field (Some None) [] "class Field");
   OField (Field None [3] "class Integer")].

(** [class Person(Serializer): name = fields.String(); age =
    fields.Integer()], with a method besides. *)
Definition person_attrs : dict (pyobj loc) :=
  [("name", FieldInstance 0); ("greet", Plain VNone); ("age", FieldInstance 1)].

Definition Person : pyclass loc :=
  {| c_name := "Person";
     c_dict := [("greet", Plain VNone)];
     _base_fields := Some [("name", FieldInstance 0); ("age", FieldInstance 1)] |}.

Definition ada : value := VObj [("name", VStr "Ada"); ("age", VInt 36)] None.

Definition bob : value := VObj [("name", VStr "Bob"); ("age", VInt 41)] None.

Definition store_output (h : list (obj string)) (f : pyobj loc) (k : string)
    (data : value) : result value :=
  get_value k data.

(** A store in which a [Person] instance (address 1) already owns the
    field instance at address 0, and a schema that declares that very
    field: [class Badge(Serializer): name = person.fields['name']]. *)
Definition store_owned : list (obj string) :=
  [OField (Field (Some (Some 1)) [2; 3] "String()");
   OSerializer (SerializerObj Person (Some ada) (Some [("name", FieldInstance 0)]));
   OField (Field None [3] "class String");
   OField (Field (Some None) [] "class Field")].

Definition Badge : pyclass loc :=
  {| c_name := "Badge"; c_dict := [];
     _base_fields := Some [("name", FieldInstance 0)] |}.

(** [class Label(Serializer): name = fields.String], the field given as
    a class. *)
Definition label_attrs : dict (pyobj loc) := [("name", FieldClass 2)].

Definition Label : pyclass loc :=
  {| c_name := "Label"; c_dict := [];
     _base_fields := Some [("name", FieldClass 2)] |}.

(** The store that [Label("x")] leaves from [store0]: the class
    [fields.String] has the instance (address 5) as its parent. *)
Definition store_labelled : list (obj string) :=
  [OField (Field None [2; 3] "String()");
   OField (Field None [4; 3] "Integer()");
   OField (Field (Some (Some 5)) [3] "class String");
   OField (Field (Some None) [] "class Field");
   OField (Field None [3] "class Integer");
   OSerializer (SerializerObj Label (Some (VStr "x")) (Some [("name", FieldClass 2)]))].

(** A second base with a name of its own and one that [A] has too, a base
    with names of its own only, and a mixin that is no schema. *)
Definition B_class : pyclass string :=
  {| c_name := "B"; c_dict := [];
     _base_fields := Some [("a2", FieldInstance "B.a2"); ("b1", FieldInstance "B.b1")] |}.

Definition C_class : pyclass string :=
  {| c_name := "C"; c_dict := [];
     _base_fields := Some [("c1", FieldInstance "C.c1")] |}.

Definition Mixin : pyclass string :=
  {| c_name := "Mixin"; c_dict := [("helper", Plain VNone)]; _base_fields := None |}.

(** A body with one field, and one with none. *)
Definition attrsD : dict (pyobj string) :=
  [("d1", FieldInstance "D.d1"); ("helper", Plain VNone)].

Definition attrs_plain : dict (pyobj string) :=
  [("helper", Plain VNone); ("Meta", OtherClass "Meta")].

(** [class Twin(Serializer): a = b = fields.String(); c =
    fields.Integer()]: two names for one field instance. *)
Definition Twin : pyclass loc :=
  {| c_name := "Twin"; c_dict := [];
     _base_fields :=
       Some [("a", FieldInstance 0); ("b", FieldInstance 0); ("c", FieldInstance 1)] |}.

(** A field mapping whose second field is not an attribute of the
    resident. *)
Definition failing_fields : list (string * fentry string) :=
  [("name", FField "String"); ("age", FField "Integer"); ("city", FField "String")].

End Examples.

(** * Properties *)

Import Py Core Instances Validate.

(** ** Dictionaries *)

Section DictFacts.
Context {V : Type}.
Implicit Types (d : dict V) (k : string) (v : V).

Lemma mem_spec k ks : mem k ks = true <-> k ∈ ks.
Proof.
  unfold mem. rewrite existsb_exists. split.
  - intros (x & Hx & Heq). apply String.eqb_eq in Heq. subst.
    by apply list_elem_of_In.
  - intros Hk. exists k. split; [by apply list_elem_of_In|apply String.eqb_refl].
Qed.

Lemma mem_false k ks : mem k ks = false <-> k ∉ ks.
Proof.
  rewrite <- mem_spec. by destruct (mem k ks).
Qed.

Lemma keys_dict_set d k v :
  keys (dict_set d k v) = if mem k (keys d) then keys d else keys d ++ [k].
Proof.
  induction d as [|[k' v'] d IH]; simpl; [done|].
  rewrite (String.eqb_sym k k').
  destruct (String.eqb_spec k' k) as [->|Hne]; simpl; [done|].
  rewrite IH. by destruct (mem k (keys d)).
Qed.

Lemma dict_get_dict_set d k v k' :
  dict_get (dict_set d k v) k' = if String.eqb k k' then Some v else dict_get d k'.
Proof.
  induction d as [|[k0 v0] d IH]; simpl; [done|].
  destruct (String.eqb_spec k0 k) as [->|Hne]; simpl.
  - by destruct (String.eqb k k').
  - rewrite IH. destruct (String.eqb_spec k k') as [->|Hne'].
    + by apply String.eqb_neq in Hne as ->.
    + done.
Qed.

Lemma dict_get_app d1 d2 k :
  dict_get (d1 ++ d2) k =
  match dict_get d1 k with Some v => Some v | None => dict_get d2 k end.
Proof.
  induction d1 as [|[k0 v0] d1 IH]; simpl; [done|].
  by destruct (String.eqb k0 k).
Qed.

Lemma dict_get_None d k : dict_get d k = None <-> k ∉ keys d.
Proof.
  induction d as [|[k0 v0] d IH]; simpl.
  - split; [intros _; apply not_elem_of_nil|done].
  - rewrite not_elem_of_cons. destruct (String.eqb_spec k0 k) as [->|Hne].
    + split; [done|]. by intros [].
    + rewrite IH. split; [by split|by intros []].
Qed.

Lemma dict_get_Some_elem d k v : dict_get d k = Some v -> (k, v) ∈ d.
Proof.
  induction d as [|[k0 v0] d IH]; simpl; [done|].
  destruct (String.eqb_spec k0 k) as [->|Hne].
  - intros [= ->]. apply list_elem_of_here.
  - intros H. apply list_elem_of_further. by apply IH.
Qed.

Lemma dict_get_NoDup d k v : NoDup (keys d) -> (k, v) ∈ d -> dict_get d k = Some v.
Proof.
  induction d as [|[k0 v0] d IH]; simpl.
  - intros _ H. by apply elem_of_nil in H.
  - rewrite NoDup_cons. intros [Hk0 Hnd]. rewrite elem_of_cons.
    intros [[= -> ->]|Hin].
    + by rewrite String.eqb_refl.
    + destruct (String.eqb_spec k0 k) as [->|Hne]; [|by apply IH].
      exfalso. apply Hk0. apply list_elem_of_fmap. by exists (k, v).
Qed.

Lemma filter_mem_absent (ks acc : list string) k :
  k ∈ acc ->
  List.filter (fun k' => negb (mem k' acc)) (List.filter (fun k' => negb (String.eqb k k')) ks)
  = List.filter (fun k' => negb (mem k' acc)) ks.
Proof.
  intros Hk. induction ks as [|k0 ks IH]; simpl; [done|].
  destruct (String.eqb_spec k k0) as [<-|Hne]; simpl.
  - apply mem_spec in Hk. by rewrite Hk.
  - by rewrite IH.
Qed.

Lemma filter_mem_snoc (ks acc : list string) k :
  List.filter (fun k' => negb (mem k' (acc ++ [k]))) ks
  = List.filter (fun k' => negb (mem k' acc)) (List.filter (fun k' => negb (String.eqb k k')) ks).
Proof.
  induction ks as [|k0 ks IH]; simpl; [done|].
  assert (mem k0 (acc ++ [k]) = mem k0 acc || String.eqb k k0) as ->.
  { unfold mem. rewrite existsb_app. simpl. by rewrite orb_false_r, (String.eqb_sym k0 k). }
  destruct (String.eqb k k0); simpl.
  - by rewrite orb_true_r.
  - rewrite orb_false_r. destruct (mem k0 acc); simpl; by rewrite IH.
Qed.

Lemma keys_fold_dict_set (pairs : list (string * V)) d :
  keys (fold_left (fun d kv => dict_set d (fst kv) (snd kv)) pairs d)
  = keys d ++ List.filter (fun k => negb (mem k (keys d))) (first_occurrences (keys pairs)).
Proof.
  revert d. induction pairs as [|[k v] pairs IH]; intros d; simpl.
  - by rewrite app_nil_r.
  - rewrite IH, keys_dict_set. destruct (mem k (keys d)) eqn:Hk; simpl.
    + apply mem_spec in Hk. by rewrite filter_mem_absent.
    + by rewrite <- app_assoc, filter_mem_snoc.
Qed.

(** The keys of [OrderedDict(pairs)] are the keys of the pairs, each where
    it first occurs. *)
Lemma keys_OrderedDict (pairs : list (string * V)) :
  keys (OrderedDict pairs) = first_occurrences (keys pairs).
Proof.
  unfold OrderedDict. rewrite keys_fold_dict_set. simpl.
  induction (first_occurrences (keys pairs)) as [|k ks IH]; simpl; [done|].
  by rewrite IH.
Qed.

Lemma dict_get_fold_dict_set (pairs : list (string * V)) d k :
  dict_get (fold_left (fun d kv => dict_set d (fst kv) (snd kv)) pairs d) k
  = match last_binding pairs k with Some v => Some v | None => dict_get d k end.
Proof.
  revert d. induction pairs as [|[k0 v0] pairs IH]; intros d; simpl; [done|].
  rewrite IH. unfold last_binding. simpl. rewrite dict_get_app.
  destruct (dict_get (rev pairs) k); [done|]. simpl.
  rewrite dict_get_dict_set. by destruct (String.eqb k0 k).
Qed.

(** [OrderedDict(pairs)] binds a key to the value of its last pair. *)
Lemma dict_get_OrderedDict (pairs : list (string * V)) k :
  dict_get (OrderedDict pairs) k = last_binding pairs k.
Proof.
  unfold OrderedDict. rewrite dict_get_fold_dict_set.
  by destruct (last_binding pairs k).
Qed.

Lemma dict_set_absent d k v : k ∉ keys d -> dict_set d k v = d ++ [(k, v)].
Proof.
  induction d as [|[k0 v0] d IH]; simpl; [done|].
  rewrite not_elem_of_cons. intros [Hne Hk].
  apply not_eq_sym in Hne. apply String.eqb_neq in Hne as ->.
  by rewrite IH.
Qed.

Lemma fold_dict_set_NoDup (pairs : list (string * V)) d :
  NoDup (keys (d ++ pairs)) ->
  fold_left (fun d kv => dict_set d (fst kv) (snd kv)) pairs d = d ++ pairs.
Proof.
  revert d. induction pairs as [|[k v] pairs IH]; intros d Hnd; simpl.
  - by rewrite app_nil_r.
  - unfold keys in Hnd. rewrite map_app in Hnd. simpl in Hnd.
    rewrite dict_set_absent.
    + rewrite IH; [by rewrite <- app_assoc|].
      unfold keys. by rewrite <- app_assoc, map_app.
    + apply NoDup_app in Hnd as (_ & Hd & _). intros Hk.
      apply (Hd k Hk). apply list_elem_of_here.
Qed.

(** On pairs with distinct keys [OrderedDict] changes nothing. *)
Lemma OrderedDict_NoDup (pairs : list (string * V)) :
  NoDup (keys pairs) -> OrderedDict pairs = pairs.
Proof. intros Hnd. unfold OrderedDict. by rewrite fold_dict_set_NoDup. Qed.

Lemma elem_of_List_filter {A} (f : A -> bool) (l : list A) x :
  x ∈ List.filter f l <-> f x = true /\ x ∈ l.
Proof. rewrite !list_elem_of_In, filter_In. tauto. Qed.

Lemma NoDup_List_filter {A} (f : A -> bool) (l : list A) :
  NoDup l -> NoDup (List.filter f l).
Proof.
  induction l as [|x l IH]; simpl; [done|].
  rewrite NoDup_cons. intros [Hx Hnd]. destruct (f x); [|by apply IH].
  apply NoDup_cons. split; [|by apply IH].
  rewrite elem_of_List_filter. by intros [_ ?].
Qed.

Lemma elem_of_first_occurrences k ks : k ∈ first_occurrences ks <-> k ∈ ks.
Proof.
  induction ks as [|k0 ks IH]; simpl; [done|].
  rewrite !elem_of_cons, elem_of_List_filter, IH.
  destruct (String.eqb_spec k0 k) as [->|Hne]; simpl.
  - split; [by left|by left].
  - split; [intros [->|[_ H]]; [done|by right]|].
    intros [->|H]; [done|right; by split].
Qed.

Lemma NoDup_first_occurrences ks : NoDup (first_occurrences ks).
Proof.
  induction ks as [|k ks IH]; simpl; [apply NoDup_nil_2|].
  apply NoDup_cons. split.
  - rewrite elem_of_List_filter. intros [H _]. by rewrite String.eqb_refl in H.
  - by apply NoDup_List_filter.
Qed.

Lemma first_occurrences_NoDup ks : NoDup ks -> first_occurrences ks = ks.
Proof.
  induction ks as [|k ks IH]; simpl; [done|].
  rewrite NoDup_cons. intros [Hk Hnd]. rewrite IH by done. f_equal.
  clear IH Hnd. induction ks as [|k0 ks IH]; simpl; [done|].
  apply not_elem_of_cons in Hk as [Hne Hk].
  apply String.eqb_neq in Hne as ->. simpl. by rewrite IH.
Qed.

Lemma NoDup_keys_OrderedDict (pairs : list (string * V)) :
  NoDup (keys (OrderedDict pairs)).
Proof. rewrite keys_OrderedDict. apply NoDup_first_occurrences. Qed.

End DictFacts.

(** ** Lists *)

Lemma Forall2_and_Forall_l {A B} (R : A -> B -> Prop) (P : A -> Prop) l k :
  Forall2 R l k -> Forall P l -> Forall2 (fun x y => R x y /\ P x) l k.
Proof.
  induction 1 as [|x y l k HR _ IH]; [constructor|].
  intros HP. apply Forall_cons in HP as [Hx HP]. constructor; [done|by apply IH].
Qed.

Lemma Forall2_elem_of_r {A B} (R : A -> B -> Prop) l k y :
  Forall2 R l k -> y ∈ k -> exists x, x ∈ l /\ R x y.
Proof.
  induction 1 as [|x y' l k HR _ IH]; [by intros ?%elem_of_nil|].
  rewrite elem_of_cons. intros [->|Hy].
  - exists x. split; [apply list_elem_of_here|done].
  - destruct (IH Hy) as (x' & Hx' & HR'). exists x'.
    split; [by apply list_elem_of_further|done].
Qed.

Lemma Forall2_Forall_r_impl {A B} (R : A -> B -> Prop) (Q : B -> Prop) l k :
  Forall2 R l k -> (forall x y, R x y -> Q y) -> Forall Q k.
Proof.
  intros HR HQ. induction HR as [|x y l k Hxy _ IH]; constructor; eauto.
Qed.

(** ** Comprehensions *)

Section ForEachFacts.
Context {A B : Type}.
Implicit Types (f : A -> result B) (l : list A).

Lemma for_each_Ok f l rs :
  for_each f l = Ok rs <-> Forall2 (fun x y => f x = Ok y) l rs.
Proof.
  revert rs. induction l as [|x l IH]; intros rs; simpl.
  - split; [intros [= <-]; constructor|by inversion 1].
  - destruct (f x) as [y|e] eqn:Hx; simpl.
    + destruct (for_each f l) as [ys|e] eqn:Hl; simpl.
      * split.
        -- intros [= <-]. constructor; [done|by apply IH].
        -- inversion 1 as [|? y' ? ys' Hy Hys]; subst.
           apply IH in Hys. congruence.
      * split; [done|]. inversion 1 as [|? y' ? ys' Hy Hys]; subst.
        apply IH in Hys. done.
    + split; [done|]. inversion 1; subst. congruence.
Qed.

Lemma for_each_Raise f l e :
  for_each f l = Raise e <->
  exists i x, l !! i = Some x /\ f x = Raise e /\
              forall j x', j < i -> l !! j = Some x' -> exists y, f x' = Ok y.
Proof.
  induction l as [|x l IH]; simpl.
  - split; [done|]. by intros (i & x & Hi & _).
  - destruct (f x) as [y|e'] eqn:Hx; simpl.
    + destruct (for_each f l) as [ys|e'] eqn:Hl; simpl.
      * split; [done|]. intros (i & x' & Hi & He & Hbefore).
        destruct i as [|i]; simpl in Hi; [congruence|].
        assert (Ok ys = Raise (A:=list B) e) as Habs; [|done].
        apply IH. exists i, x'. repeat split; [done..|].
        intros j x'' Hj Hx''. apply (Hbefore (S j)); [lia|done].
      * split.
        -- intros [= ->]. destruct IH as [IH _].
           destruct (IH eq_refl) as (i & x' & Hi & He & Hbefore).
           exists (S i), x'. repeat split; [done..|].
           intros [|j] x'' Hj Hx''; simpl in Hx''.
           ++ injection Hx'' as <-. by exists y.
           ++ apply (Hbefore j); [lia|done].
        -- intros (i & x' & Hi & He & Hbefore). f_equal.
           destruct i as [|i]; simpl in Hi; [congruence|].
           assert (Raise (A:=list B) e' = Raise e) as [= ->]; [|done].
           apply IH. exists i, x'. repeat split; [done..|].
           intros j x'' Hj Hx''. apply (Hbefore (S j)); [lia|done].
    + split.
      * intros [= ->]. exists 0, x. repeat split; [done..|]. intros; lia.
      * intros ([|i] & x' & Hi & He & Hbefore); simpl in Hi.
        -- congruence.
        -- destruct (Hbefore 0 x) as [y Hy]; [lia|done|congruence].
Qed.

Lemma for_each_map {C} (g : C -> A) f (l : list C) :
  for_each f (map g l) = for_each (fun x => f (g x)) l.
Proof. induction l as [|x l IH]; simpl; [done|]. by rewrite IH. Qed.

Lemma for_each_ext f f' l :
  (forall x, x ∈ l -> f x = f' x) -> for_each f l = for_each f' l.
Proof.
  induction l as [|x l IH]; intros Hext; simpl; [done|].
  rewrite Hext by apply list_elem_of_here.
  rewrite IH; [done|]. intros y Hy. apply Hext. by apply list_elem_of_further.
Qed.

Lemma for_each_total f l :
  (forall x, x ∈ l -> exists y, f x = Ok y) -> exists ys, for_each f l = Ok ys.
Proof.
  induction l as [|x l IH]; intros Hall; simpl; [by eexists|].
  destruct (Hall x) as [y ->]; [apply list_elem_of_here|].
  destruct IH as [ys ->]; [|by eexists].
  intros z Hz. apply Hall. by apply list_elem_of_further.
Qed.

End ForEachFacts.

(** ** marshal *)

Lemma value_nested_ind (P : value -> Prop) :
  P VNone ->
  (forall n, P (VInt n)) ->
  (forall s, P (VStr s)) ->
  (forall items, Forall P items -> P (VList items)) ->
  (forall items, Forall (fun kv => P (fst kv) /\ P (snd kv)) items ->
                 P (VDict items)) ->
  (forall attrs it, Forall (fun kv => P (snd kv)) attrs ->
                    (forall items, it = Some items -> Forall P items) ->
                    P (VObj attrs it)) ->
  forall v, P v.
Proof.
  intros HNone HInt HStr HList HDict HObj.
  fix IH 1. intros [| n | s | items | items | attrs it].
  - exact HNone.
  - apply HInt.
  - apply HStr.
  - apply HList. induction items as [|x xs IHxs]; constructor; [apply IH|exact IHxs].
  - apply HDict. induction items as [|[k x] xs IHxs]; constructor;
      [split; apply IH|exact IHxs].
  - apply HObj.
    + induction attrs as [|[k x] xs IHxs]; constructor; [apply IH|exact IHxs].
    + destruct it as [its|]; [|by intros].
      assert (Forall P its) as Hits.
      { induction its as [|x xs IHxs]; constructor; [apply IH|exact IHxs]. }
      intros items [= <-]. exact Hits.
Qed.

Section MarshalFacts.
Context {F : Type}.
Variable output : F -> string -> value -> result value.
Implicit Types (data : value) (fields : list (string * fentry F)).

Lemma marshal_scalar data fields :
  _is_iterable_but_not_string data = false ->
  marshal F output data fields
  = rmap (fun d => MDict (OrderedDict d)) (marshal_items F output data fields).
Proof. intros H. destruct data; simpl in *; by rewrite ?H. Qed.

Lemma marshal_seq data fields :
  _is_iterable_but_not_string data = true ->
  marshal F output data fields
  = bind (elements data) (fun items =>
      rmap MList (for_each (fun d => marshal F output d fields) items)).
Proof.
  intros H. destruct data as [| | | |items|attrs [items|]]; simpl in *;
    rewrite ?H; try done.
  by rewrite for_each_map.
Qed.

Lemma marshal_value_FDict data k m :
  marshal_value F output data k (FDict m)
  = rmap (fun d => MDict (OrderedDict d)) (marshal_items F output data m).
Proof. done. Qed.

(** [marshal] satisfies the equation that lines 119-124 write down. *)
Lemma marshal_unfold data fields :
  marshal F output data fields =
  if _is_iterable_but_not_string data then
    bind (elements data) (fun items =>
      rmap MList (for_each (fun d => marshal F output d fields) items))
  else
    rmap (fun d => MDict (OrderedDict d))
      (for_each (fun kv =>
         rmap (pair (fst kv))
           (match snd kv with
            | FDict m => marshal F output data m
            | FField f => rmap MVal (output f (fst kv) data)
            end)) fields).
Proof.
  destruct (_is_iterable_but_not_string data) eqn:H.
  - by apply marshal_seq.
  - rewrite marshal_scalar by done. f_equal. unfold marshal_items.
    apply for_each_ext. intros [k [f|m]] _; simpl; [done|].
    by rewrite (marshal_scalar data m).
Qed.

Lemma keys_marshal_items data fields rs :
  marshal_items F output data fields = Ok rs -> keys rs = keys fields.
Proof.
  unfold marshal_items. rewrite for_each_Ok. induction 1 as [|kv r ? ? Hr _ IH]; simpl; [done|].
  f_equal; [|done]. destruct (marshal_value _ _ _ _ _); simpl in Hr; [|done].
  by injection Hr as <-.
Qed.

(** Every mapping in a result has the keys of [fields], in their order. *)
Lemma marshal_has_keys data fields r :
  marshal F output data fields = Ok r ->
  has_keys (first_occurrences (keys fields)) r.
Proof.
  revert r. induction data as [| | |items IH|items IH|attrs it _ IH]
    using value_nested_ind; intros r; rewrite marshal_unfold;
    destruct (_is_iterable_but_not_string _) eqn:Hit; try done; simpl.
  all: try (unfold rmap, bind;
            destruct (for_each _ fields) as [rs|] eqn:Hrs; [|done];
            intros [= <-]; constructor; rewrite keys_OrderedDict; f_equal;
            apply for_each_Ok in Hrs; clear -Hrs;
            induction Hrs as [|kv r' ? ? Hr _ IH']; simpl; [done|];
            f_equal; [|done];
            destruct (match snd kv with FDict _ => _ | FField _ => _ end);
            simpl in Hr; [by injection Hr as <-|done]).
  - unfold rmap, bind. destruct (for_each _ items) as [rs|] eqn:Hrs; [|done].
    intros [= <-]. constructor. apply for_each_Ok in Hrs.
    induction Hrs as [|d r' ? ? Hr _ IH']; [constructor|].
    apply Forall_cons in IH as [IHd IH]. constructor; [by apply IHd|by apply IH'].
  - unfold rmap, bind. destruct (for_each _ (map fst items)) as [rs|] eqn:Hrs; [|done].
    intros [= <-]. constructor. apply for_each_Ok in Hrs.
    revert rs Hrs. induction items as [|[k x] items IHi]; intros rs Hrs;
      inversion Hrs; subst; [constructor|].
    apply Forall_cons in IH as [[IHk _] IH].
    constructor; [by apply IHk|by apply IHi].
  - destruct it as [items|]; simpl; [|done].
    unfold rmap, bind. destruct (for_each _ items) as [rs|] eqn:Hrs; [|done].
    intros [= <-]. constructor. apply for_each_Ok in Hrs.
    specialize (IH items eq_refl).
    induction Hrs as [|d r' ? ? Hr _ IH']; [constructor|].
    apply Forall_cons in IH as [IHd IH]. constructor; [by apply IHd|by apply IH'].
Qed.

Lemma marshal_value_scalar data k v :
  _is_iterable_but_not_string data = false ->
  marshal_value F output data k v =
  match v with
  | FDict m => marshal F output data m
  | FField f => rmap MVal (output f k data)
  end.
Proof. intros H. destruct v as [f|m]; [done|]. by rewrite (marshal_scalar data m). Qed.

Lemma fentry_nested_ind (P : fentry F -> Prop) :
  (forall f, P (FField f)) ->
  (forall m, Forall (fun kv => P (snd kv)) m -> P (FDict m)) ->
  forall v, P v.
Proof.
  intros HField HDict. fix IH 1. intros [f|m]; [apply HField|].
  apply HDict. induction m as [|[k v] m IHm]; constructor; [apply IH|exact IHm].
Qed.

Lemma marshal_value_total data k v :
  (forall f k' d, exists x, output f k' d = Ok x) ->
  exists r, marshal_value F output data k v = Ok r.
Proof.
  intros Hout. revert k. induction v as [f|m IH] using fentry_nested_ind; intros k.
  - simpl. destruct (Hout f k data) as [x ->]. by eexists.
  - rewrite marshal_value_FDict. unfold marshal_items.
    destruct (for_each_total
                (fun kv => rmap (pair (fst kv))
                             (marshal_value F output data (fst kv) (snd kv))) m)
      as [rs ->]; [|by eexists].
    intros [k' v'] Hin. rewrite Forall_forall in IH.
    destruct (IH _ Hin k') as [r Hr]. simpl in *. rewrite Hr. by eexists.
Qed.

Lemma marshal_scalar_total data fields :
  (forall f k d, exists x, output f k d = Ok x) ->
  _is_iterable_but_not_string data = false ->
  exists r, marshal F output data fields = Ok r.
Proof.
  intros Hout Hsc. rewrite marshal_scalar by done. unfold marshal_items.
  destruct (for_each_total
              (fun kv => rmap (pair (fst kv))
                           (marshal_value F output data (fst kv) (snd kv))) fields)
    as [rs ->]; [|by eexists].
  intros [k v] _. simpl.
  destruct (marshal_value_total data k v Hout) as [r ->]. by eexists.
Qed.

(** [marshal] returns when the outputs of the fields do and [data] can be
    iterated wherever it is taken for a sequence. *)
Lemma marshal_total data fields :
  (forall f k d, exists x, output f k d = Ok x) ->
  iterates data ->
  exists r, marshal F output data fields = Ok r.
Proof.
  intros Hout. induction data as [| | |items IH|items IH|attrs it _ IH]
    using value_nested_ind; intros Hit.
  all: match goal with |- context [marshal _ _ ?d _] =>
         destruct (_is_iterable_but_not_string d) eqn:Hseq;
           [|by apply marshal_scalar_total] end.
  all: try done.
  all: rewrite marshal_seq by done;
    inversion Hit as [? Hsc|? its Hsq Hel Hall]; subst; [congruence|];
    rewrite Hel; cbn [bind];
    destruct (for_each_total (fun d => marshal F output d fields) its)
      as [rs Hrs]; [|rewrite Hrs; by eexists];
    intros x Hx; rewrite Forall_forall in Hall.
  - injection Hel as <-. rewrite Forall_forall in IH. apply IH; [done|by apply Hall].
  - injection Hel as <-. rewrite Forall_forall in IH.
    apply list_elem_of_fmap in Hx as Hx'. destruct Hx' as ([k' v'] & -> & Hkv).
    apply (IH _ Hkv). by apply Hall.
  - destruct it as [its'|]; [|done]. injection Hel as <-.
    specialize (IH _ eq_refl). rewrite Forall_forall in IH.
    apply IH; [done|by apply Hall].
Qed.

(** The result of [marshal] has the shape of its input. *)
Lemma marshal_shaped data fields r :
  marshal F output data fields = Ok r ->
  shaped (first_occurrences (keys fields)) data r.
Proof.
  revert r.
  assert (forall data : value,
            (forall items, elements data = Ok items ->
               Forall (fun x => forall r, marshal F output x fields = Ok r ->
                         shaped (first_occurrences (keys fields)) x r) items) ->
            forall r, marshal F output data fields = Ok r ->
                      shaped (first_occurrences (keys fields)) data r) as Hstep.
  { intros d Hitems r.
    destruct (_is_iterable_but_not_string d) eqn:Hit.
    - rewrite marshal_seq by done.
      destruct (elements d) as [items|] eqn:Hel; [|done]. cbn [bind].
      unfold rmap, bind. destruct (for_each _ items) as [rs|] eqn:Hrs; [|done].
      intros [= <-]. apply (shaped_seq _ d items); [done..|].
      apply for_each_Ok in Hrs. specialize (Hitems items eq_refl). clear Hel.
      induction Hrs as [|x y xs ys Hxy _ IH]; [constructor|].
      apply Forall_cons in Hitems as [Hx Hxs].
      constructor; [by apply Hx|by apply IH].
    - rewrite marshal_scalar by done. unfold rmap, bind.
      destruct (marshal_items _ _ _ _) as [rs|] eqn:Hrs; [|done].
      intros [= <-]. apply shaped_record; [done|].
      rewrite keys_OrderedDict. f_equal. by eapply keys_marshal_items. }
  induction data as [| | |items IH|items IH|attrs it _ IH]
    using value_nested_ind; apply Hstep; simpl; try done.
  - by intros ? [= <-].
  - intros ? [= <-]. apply Forall_fmap.
    eapply Forall_impl; [exact IH|]. by intros [k x] [? _].
  - destruct it as [its|]; [|done]. intros ? [= <-]. by apply IH.
Qed.

(** [marshal] returns when [data] can be iterated wherever it is taken
    for a sequence and the call returns on every source object reached. *)
Lemma marshal_returns data fields :
  iterates data ->
  (forall src, leaf data src -> exists r, marshal F output src fields = Ok r) ->
  exists r, marshal F output data fields = Ok r.
Proof.
  assert (forall data : value,
            (forall items, elements data = Ok items ->
               Forall (fun x => iterates x ->
                         (forall src, leaf x src ->
                            exists r, marshal F output src fields = Ok r) ->
                         exists r, marshal F output x fields = Ok r) items) ->
            iterates data ->
            (forall src, leaf data src ->
               exists r, marshal F output src fields = Ok r) ->
            exists r, marshal F output data fields = Ok r) as Hstep.
  { intros d Hitems Hit Hleaf.
    destruct (_is_iterable_but_not_string d) eqn:Hseq;
      [|by apply Hleaf, leaf_here].
    rewrite marshal_seq by done.
    inversion Hit as [? Hsc|? its Hsq Hel Hall]; subst; [congruence|].
    rewrite Hel. cbn [bind]. specialize (Hitems its Hel).
    destruct (for_each_total (fun x => marshal F output x fields) its)
      as [rs Hrs]; [|rewrite Hrs; by eexists].
    intros x Hx. rewrite Forall_forall in Hitems, Hall.
    apply Hitems; [done|by apply Hall|].
    intros src Hsrc. apply Hleaf. by apply (leaf_in d its x). }
  induction data as [| | |items IH|items IH|attrs it _ IH]
    using value_nested_ind; apply Hstep; simpl; try done.
  - by intros ? [= <-].
  - intros ? [= <-]. apply Forall_fmap.
    eapply Forall_impl; [exact IH|]. by intros [k x] [? _].
  - destruct it as [its|]; [|done]. intros ? [= <-]. by apply IH.
Qed.

(** On a mapping whose values are fields, none a nested mapping, and
    whose names are distinct, [marshal] of one source object is the
    mapping of the field outputs, item by item. *)
Lemma marshal_flat data (fs : list (string * F)) :
  _is_iterable_but_not_string data = false ->
  NoDup (keys fs) ->
  marshal F output data (map (fun kv => (fst kv, FField (snd kv))) fs)
  = rmap MDict
      (for_each (fun kv => rmap (fun x => (fst kv, MVal x))
                             (output (snd kv) (fst kv) data)) fs).
Proof.
  intros Hsc Hnd. rewrite marshal_scalar by done. unfold marshal_items.
  rewrite for_each_map. cbn [fst snd marshal_value].
  rewrite (for_each_ext _
             (fun kv => rmap (fun x => (fst kv, MVal x))
                          (output (snd kv) (fst kv) data))).
  2:{ intros kv _. unfold rmap, bind. by destruct (output _ _ _). }
  unfold rmap, bind. destruct (for_each _ fs) as [rs|] eqn:Hrs; [|done].
  rewrite OrderedDict_NoDup; [done|].
  assert (keys rs = keys fs) as ->; [|done].
  apply for_each_Ok in Hrs. clear Hnd.
  induction Hrs as [|kv r ? ? Hr _ IH]; simpl; [done|]. f_equal; [|done].
  unfold rmap, bind in Hr. destruct (output _ _ _); [|done]. by injection Hr as <-.
Qed.

Lemma for_each_app {A B} (f : A -> result B) (l1 l2 : list A) :
  for_each f (l1 ++ l2)
  = bind (for_each f l1) (fun ys1 =>
    bind (for_each f l2) (fun ys2 => Ok (ys1 ++ ys2))).
Proof.
  induction l1 as [|x l1 IH]; simpl.
  - by destruct (for_each f l2).
  - destruct (f x) as [y|]; simpl; [|done]. rewrite IH.
    destruct (for_each f l1) as [ys1|]; simpl; [|done].
    by destruct (for_each f l2).
Qed.

(** C2: for every list of input values, the empty one included, and every
    field mapping, [marshal(list_of_values, fields)] is the list of the
    [marshal(v, fields)], element by element and in the same order; an
    exception of an element, the first in order, is the exception of the
    whole call. *)
Theorem marshal_list_distributes (vs : list value) fields :
  marshal F output (VList vs) fields
  = rmap MList (for_each (fun v => marshal F output v fields) vs)
  /\ (forall r, marshal F output (VList vs) fields = Ok r <->
                exists rs, r = MList rs /\
                  Forall2 (fun v r' => marshal F output v fields = Ok r') vs rs)
  /\ (forall e, marshal F output (VList vs) fields = Raise e <->
                exists i v, vs !! i = Some v /\
                  marshal F output v fields = Raise e /\
                  forall j v', j < i -> vs !! j = Some v' ->
                    exists r', marshal F output v' fields = Ok r')
  /\ marshal F output (VList []) fields = Ok (MList []).
Proof.
  assert (marshal F output (VList vs) fields
          = rmap MList (for_each (fun v => marshal F output v fields) vs)) as Heq.
  { by rewrite marshal_seq. }
  split; [done|]. rewrite Heq. unfold rmap, bind. split.
  { intros r. destruct (for_each _ vs) as [rs|e] eqn:Hrs.
    + apply for_each_Ok in Hrs. split.
      * intros [= <-]. by exists rs.
      * intros (rs' & -> & Hrs'). apply for_each_Ok in Hrs'.
        apply for_each_Ok in Hrs. congruence.
    + split; [done|]. intros (rs' & _ & Hrs'). apply for_each_Ok in Hrs'. congruence. }
  split; [|by rewrite marshal_seq].
  intros e. rewrite <- for_each_Raise.
  destruct (for_each _ vs) as [rs|e']; [done|]. split; congruence.
Qed.

(** C9: a mapping passed as [data] is gone through as the sequence of its
    keys: the result is the list of the [marshal(key, fields)] in iteration
    order, never one ordered mapping for the mapping itself. *)
Theorem marshal_mapping_iterates_keys (items : list (value * value)) fields :
  marshal F output (VDict items) fields
  = rmap MList (for_each (fun key => marshal F output key fields) (map fst items))
  /\ (forall r, marshal F output (VDict items) fields = Ok r <->
                exists rs, r = MList rs /\
                  Forall2 (fun key r' => marshal F output key fields = Ok r')
                    (map fst items) rs)
  /\ (forall d, marshal F output (VDict items) fields <> Ok (MDict d)).
Proof.
  assert (marshal F output (VDict items) fields
          = rmap MList (for_each (fun key => marshal F output key fields)
                          (map fst items))) as Heq.
  { by rewrite marshal_seq. }
  split; [done|]. rewrite Heq. unfold rmap, bind.
  destruct (for_each _ (map fst items)) as [rs|e] eqn:Hrs.
  - apply for_each_Ok in Hrs. split; [|done]. intros r. split.
    + intros [= <-]. by exists rs.
    + intros (rs' & -> & Hrs'). apply for_each_Ok in Hrs'.
      apply for_each_Ok in Hrs. congruence.
  - split; [|done]. intros r. split; [done|].
    intros (rs' & _ & Hrs'). apply for_each_Ok in Hrs'. congruence.
Qed.

(** C4: a string is a scalar source object: [marshal] returns one ordered
    mapping, each value of which is the field's output on the whole string
    (or the nested mapping marshalled against the whole string); the result
    is never a list over the characters. *)
Theorem marshal_string_is_scalar (s : string) fields :
  marshal F output (VStr s) fields
  = rmap (fun d => MDict (OrderedDict d))
      (for_each (fun kv =>
         rmap (pair (fst kv))
           (match snd kv with
            | FDict m => marshal F output (VStr s) m
            | FField f => rmap MVal (output f (fst kv) (VStr s))
            end)) fields)
  /\ (forall rs, marshal F output (VStr s) fields <> Ok (MList rs))
  /\ (forall r, marshal F output (VStr s) fields = Ok r ->
                exists d, r = MDict d /\
                          keys d = first_occurrences (keys fields)).
Proof.
  split; [by rewrite marshal_unfold|]. split.
  - intros rs. rewrite marshal_scalar by done. unfold rmap, bind.
    by destruct (marshal_items _ _ _ _).
  - intros r Hr. apply marshal_has_keys in Hr as Hk.
    rewrite marshal_scalar in Hr by done. unfold rmap, bind in Hr.
    destruct (marshal_items _ _ _ _); [|done]. injection Hr as <-.
    eexists. split; [done|]. by inversion Hk.
Qed.

(** C5: for a [data] that is not gone through as a sequence and a field
    mapping that binds [name] to a nested mapping [m], [marshal] computes
    the items before [name], then [marshal(data, m)] on the same [data],
    then the items after, and returns the mapping that binds [name] to the
    result of [marshal(data, m)]. So the call returns with that result at
    [name] when [marshal(data, m)] and the other items return; whatever it
    returns has the result of [marshal(data, m)] at [name]; and if
    [marshal(data, m)] raises, so does the whole call. *)
Theorem marshal_nested_same_data data fields name m :
  _is_iterable_but_not_string data = false ->
  NoDup (keys fields) ->
  (name, FDict m) ∈ fields ->
  (exists before after,
     fields = before ++ (name, FDict m) :: after /\
     marshal F output data fields
     = bind (marshal_items F output data before) (fun rs1 =>
       bind (marshal F output data m) (fun r_name =>
       bind (marshal_items F output data after) (fun rs2 =>
       Ok (MDict (rs1 ++ (name, r_name) :: rs2))))))
  /\ (forall r_name,
        marshal F output data m = Ok r_name ->
        (forall k v, (k, v) ∈ fields -> k <> name ->
           match v with
           | FDict m' => exists r', marshal F output data m' = Ok r'
           | FField f => exists x, output f k data = Ok x
           end) ->
        exists d, marshal F output data fields = Ok (MDict d) /\
                  dict_get d name = Some r_name /\
                  keys d = keys fields)
  /\ (forall r, marshal F output data fields = Ok r ->
        exists d r_name, r = MDict d /\ dict_get d name = Some r_name /\
                         marshal F output data m = Ok r_name)
  /\ (forall e, marshal F output data m = Raise e ->
        exists e', marshal F output data fields = Raise e').
Proof.
  intros Hscalar Hnd Hin.
  destruct (list_elem_of_split _ _ Hin) as (before & after & Hfields).
  assert (marshal F output data fields
          = bind (marshal_items F output data before) (fun rs1 =>
            bind (marshal F output data m) (fun r_name =>
            bind (marshal_items F output data after) (fun rs2 =>
            Ok (MDict (rs1 ++ (name, r_name) :: rs2)))))) as Heq.
  { assert (marshal_items F output data fields
            = bind (marshal_items F output data before) (fun rs1 =>
              bind (marshal F output data m) (fun r_name =>
              bind (marshal_items F output data after) (fun rs2 =>
              Ok (rs1 ++ (name, r_name) :: rs2))))) as Hitems.
    { unfold marshal_items. rewrite Hfields, for_each_app.
      cbn [for_each fst snd]. rewrite marshal_value_scalar by done.
      destruct (for_each _ before) as [rs1|]; cbn [bind rmap]; [|done].
      destruct (marshal F output data m) as [r_name|]; cbn [bind]; [|done].
      by destruct (for_each _ after) as [rs2|]. }
    rewrite marshal_scalar by done.
    destruct (marshal_items F output data fields) as [rs|e0] eqn:Hrs.
    - apply keys_marshal_items in Hrs as Hkeys. cbn [rmap bind].
      rewrite OrderedDict_NoDup by by rewrite Hkeys.
      destruct (marshal_items F output data before) as [rs1|]; cbn [bind] in *;
        [|done].
      destruct (marshal F output data m) as [r_name|]; cbn [bind] in *; [|done].
      destruct (marshal_items F output data after) as [rs2|]; cbn [bind] in *;
        [|done].
      by injection Hitems as ->.
    - cbn [rmap bind].
      destruct (marshal_items F output data before) as [rs1|]; cbn [bind] in *;
        [|by injection Hitems as ->].
      destruct (marshal F output data m) as [r_name|]; cbn [bind] in *;
        [|by injection Hitems as ->].
      destruct (marshal_items F output data after) as [rs2|]; cbn [bind] in *;
        [done|by injection Hitems as ->]. }
  split; [by exists before, after|].
  split.
  { intros r_name Hm Hothers. rewrite Heq, Hm.
    assert (forall part, (forall kv, kv ∈ part -> kv ∈ fields /\ fst kv <> name) ->
              exists rs, marshal_items F output data part = Ok rs /\
                         keys rs = keys part) as Hpart.
    { intros part Hsub.
      destruct (for_each_total
                  (fun kv => rmap (pair (fst kv))
                               (marshal_value F output data (fst kv) (snd kv))) part)
        as [rs Hrs].
      - intros [k v] Hkv. destruct (Hsub _ Hkv) as [Hf Hne].
        cbn [fst snd] in *. rewrite marshal_value_scalar by done.
        specialize (Hothers k v Hf Hne). unfold rmap, bind.
        destruct v as [f|m'].
        + destruct Hothers as [x ->]. by eexists.
        + destruct Hothers as [r' ->]. by eexists.
      - exists rs. split; [done|]. by eapply keys_marshal_items. }
    assert (NoDup (keys before ++ name :: keys after)) as Hnd'.
    { rewrite Hfields in Hnd. unfold keys in *.
      by rewrite map_app in Hnd. }
    apply NoDup_app in Hnd' as (_ & Hdisj & Hnd2).
    apply NoDup_cons in Hnd2 as [Hname _].
    destruct (Hpart before) as (rs1 & -> & Hk1).
    { intros [k v] Hkv. split.
      - rewrite Hfields. apply elem_of_app. by left.
      - cbn [fst]. intros ->. apply (Hdisj name); [|apply list_elem_of_here].
        apply list_elem_of_fmap. by exists (name, v). }
    destruct (Hpart after) as (rs2 & -> & Hk2).
    { intros [k v] Hkv. split.
      - rewrite Hfields. apply elem_of_app. right. by apply list_elem_of_further.
      - cbn [fst]. intros ->. apply Hname.
        apply list_elem_of_fmap. by exists (name, v). }
    cbn [bind]. eexists. split; [reflexivity|].
    assert (keys (rs1 ++ (name, r_name) :: rs2) = keys fields) as Hkeys.
    { rewrite Hfields. unfold keys in *. rewrite !map_app. simpl.
      by rewrite Hk1, Hk2. }
    split; [|done]. apply dict_get_NoDup; [by rewrite Hkeys|].
    apply elem_of_app. right. apply list_elem_of_here. }
  clear Heq Hfields. rewrite marshal_scalar by done.
  apply list_elem_of_lookup in Hin as [i Hi].
  unfold rmap, bind.
  destruct (marshal_items F output data fields) as [rs|e0] eqn:Hrs.
  - apply keys_marshal_items in Hrs as Hkeys.
    unfold marshal_items in Hrs. apply for_each_Ok in Hrs.
    destruct (Forall2_lookup_l _ _ _ _ _ Hrs Hi) as ([k r'] & Hr' & Hval).
    cbn [fst snd] in Hval. rewrite marshal_value_scalar in Hval by done.
    unfold rmap, bind in Hval.
    destruct (marshal F output data m) as [rm|] eqn:Hm; [|done].
    injection Hval as <- <-. split; [|by intros e [=]].
    intros r [= <-]. exists (OrderedDict rs), rm. split; [done|]. split; [|done].
    rewrite OrderedDict_NoDup by by rewrite Hkeys.
    apply dict_get_NoDup; [by rewrite Hkeys|].
    apply list_elem_of_lookup. by exists i.
  - split; [done|]. intros e _. by exists e0.
Qed.

End MarshalFacts.

(** ** Field collection *)

Section DeclaredFacts.
Context {F : Type}.
Implicit Types (attrs : dict (pyobj F)) (bases : list (pyclass F)).

Lemma is_instance_or_subclass_is_field (val : pyobj F) :
  is_instance_or_subclass F val = Ok (is_field F val).
Proof. by destruct val. Qed.

Lemma NoDup_keys_filter {V} (f : string * V -> bool) (d : dict V) :
  NoDup (keys d) -> NoDup (keys (List.filter f d)).
Proof.
  induction d as [|[k v] d IH]; simpl; [done|].
  rewrite NoDup_cons. intros [Hk Hnd]. destruct (f (k, v)); [|by apply IH].
  simpl. apply NoDup_cons. split; [|by apply IH].
  intros Hin. apply Hk. apply list_elem_of_fmap in Hin as (kv & -> & Hkv).
  apply elem_of_List_filter in Hkv as [_ Hkv].
  apply list_elem_of_fmap. by exists kv.
Qed.

Lemma dict_pop_NoDup {V} (d : dict V) k v :
  NoDup (keys d) -> (k, v) ∈ d ->
  dict_pop d k = Ok (v, List.filter (fun kv => negb (String.eqb (fst kv) k)) d).
Proof.
  induction d as [|[k0 v0] d IH]; simpl.
  - intros _ H. by apply elem_of_nil in H.
  - rewrite NoDup_cons. intros [Hk0 Hnd]. rewrite elem_of_cons.
    destruct (String.eqb_spec k0 k) as [->|Hne]; simpl.
    + intros [[= ->]|Hin].
      * do 2 f_equal. clear IH Hnd. induction d as [|[k1 v1] d IH]; simpl; [done|].
        apply not_elem_of_cons in Hk0 as [Hne Hk0]. simpl in Hne.
        apply not_eq_sym in Hne.
        apply String.eqb_neq in Hne as ->. simpl. f_equal. by apply IH.
      * exfalso. apply Hk0. apply list_elem_of_fmap. by exists (k, v).
    + intros [[= -> ->]|Hin]; [done|]. by rewrite IH.
Qed.

Lemma collect_declared_NoDup (snapshot : list (string * pyobj F)) attrs :
  NoDup (keys attrs) ->
  NoDup (keys snapshot) ->
  (forall kv, kv ∈ snapshot -> is_field F (snd kv) = true -> kv ∈ attrs) ->
  collect_declared F snapshot attrs
  = Ok (declared_of F snapshot,
        List.filter (fun kv => negb (mem (fst kv) (keys (declared_of F snapshot))))
          attrs).
Proof.
  revert attrs. induction snapshot as [|[k v] rest IH]; intros attrs Hnd Hsnap Hin; simpl.
  - do 2 f_equal. clear. induction attrs as [|kv attrs IHa]; simpl; [done|].
    by f_equal.
  - rewrite is_instance_or_subclass_is_field. simpl.
    apply NoDup_cons in Hsnap as [Hk Hsnap].
    unfold declared_of. simpl. fold (declared_of F rest).
    destruct (is_field F v) eqn:Hv.
    + rewrite (dict_pop_NoDup attrs k v); [|done|].
      2:{ apply (Hin (k, v)); [apply list_elem_of_here|done]. }
      simpl. rewrite IH; [| by apply NoDup_keys_filter | done |].
      * simpl. do 2 f_equal. clear. induction attrs as [|[k0 v0] attrs IHa]; simpl; [done|].
        rewrite (String.eqb_sym k0 k).
        destruct (String.eqb k k0); simpl; [done|].
        destruct (mem k0 _); simpl; by rewrite IHa.
      * intros [k' v'] Hkv Hf. apply elem_of_List_filter. split.
        -- simpl. apply negb_true_iff, String.eqb_neq. intros ->.
           apply Hk. apply list_elem_of_fmap. by exists (k, v').
        -- apply Hin; [by apply list_elem_of_further|done].
    + apply IH; [done..|]. intros kv Hkv. apply Hin. by apply list_elem_of_further.
Qed.

Lemma filter_not_declared attrs :
  NoDup (keys attrs) ->
  List.filter (fun kv => negb (mem (fst kv) (keys (declared_of F attrs)))) attrs
  = List.filter (fun kv => negb (is_field F (snd kv))) attrs.
Proof.
  intros Hnd. apply List.filter_ext_in. intros [k v] Hkv. simpl. f_equal.
  apply list_elem_of_In in Hkv.
  destruct (is_field F v) eqn:Hv.
  - apply mem_spec, list_elem_of_fmap. exists (k, v). split; [done|].
    apply elem_of_List_filter. by split.
  - apply mem_false. intros Hin. apply list_elem_of_fmap in Hin as ([k' v'] & Hk & Hin).
    simpl in Hk. subst k'. apply elem_of_List_filter in Hin as [Hf Hin]. simpl in Hf.
    assert (Some v = Some v') as [= ->]; [|congruence].
    rewrite <- (dict_get_NoDup attrs k v), <- (dict_get_NoDup attrs k v'); done.
Qed.

Lemma inherit_fields_merged bases (declared : list (string * pyobj F)) :
  inherit_fields F bases declared = inherited_of F bases ++ declared.
Proof.
  unfold inherit_fields. induction bases as [|b bases IH]; simpl; [done|].
  rewrite fold_left_app. simpl. rewrite IH.
  destruct (_base_fields b); simpl; [by rewrite app_assoc|done].
Qed.

(** On the body of a class, a dictionary, [_get_declared_fields] returns
    the [OrderedDict] of the inherited items followed by the declared
    ones, and leaves the other attributes in [attrs]. *)
Lemma _get_declared_fields_merged bases attrs :
  NoDup (keys attrs) ->
  _get_declared_fields F bases attrs
  = Ok (OrderedDict (inherited_of F bases ++ declared_of F attrs),
        List.filter (fun kv => negb (is_field F (snd kv))) attrs).
Proof.
  intros Hnd. unfold _get_declared_fields.
  rewrite collect_declared_NoDup by done. simpl.
  by rewrite inherit_fields_merged, filter_not_declared.
Qed.

Lemma first_occurrences_app (ks1 ks2 : list string) :
  first_occurrences (ks1 ++ ks2)
  = first_occurrences ks1
    ++ List.filter (fun k => negb (mem k (first_occurrences ks1)))
         (first_occurrences ks2).
Proof.
  pose proof (keys_OrderedDict (V:=unit) (map (fun k => (k, tt)) (ks1 ++ ks2))) as H.
  assert (forall ks, keys (map (fun k : string => (k, tt)) ks) = ks) as Hkeys.
  { intros ks. unfold keys. rewrite map_map. simpl. apply map_id. }
  rewrite Hkeys in H. rewrite <- H. unfold OrderedDict.
  rewrite map_app, fold_left_app, keys_fold_dict_set.
  fold (OrderedDict (map (fun k : string => (k, tt)) ks1)).
  by rewrite keys_OrderedDict, !Hkeys.
Qed.

(** [Serializer] is what the metaclass makes of a body without fields on
    top of [BaseSerializer]. *)
Lemma Serializer_made_by_metaclass :
  SerializerMeta_new F "Serializer" [BaseSerializer] [] = Ok Serializer.
Proof. done. Qed.

Lemma keys_app {V} (d1 d2 : dict V) : keys (d1 ++ d2) = keys d1 ++ keys d2.
Proof. apply map_app. Qed.

Lemma last_binding_app_r {V} (l1 l2 : list (string * V)) k v :
  NoDup (keys l2) -> (k, v) ∈ l2 -> last_binding (l1 ++ l2) k = Some v.
Proof.
  intros Hnd Hin. unfold last_binding. rewrite rev_app_distr, dict_get_app.
  rewrite (dict_get_NoDup (rev l2) k v); [done| |].
  - unfold keys. rewrite map_rev. apply NoDup_ListNoDup, List.NoDup_rev.
    by apply NoDup_ListNoDup.
  - apply list_elem_of_In. rewrite <- in_rev. by apply list_elem_of_In.
Qed.

(** A class made on the single base [A] under names that [A]'s mapping
    does not have: [A]'s items, then the declared ones. *)
Lemma SerializerMeta_new_appends (A : pyclass F) fieldsA (nameB : string) attrsB :
  _base_fields A = Some fieldsA ->
  NoDup (keys attrsB) ->
  NoDup (keys fieldsA ++ keys (declared_of F attrsB)) ->
  exists B,
    SerializerMeta_new F nameB [A] attrsB = Ok B /\
    _base_fields B = Some (fieldsA ++ declared_of F attrsB).
Proof.
  intros HA HB Hnd. unfold SerializerMeta_new.
  rewrite _get_declared_fields_merged by done. simpl. rewrite HA. simpl.
  rewrite app_nil_r. eexists. split; [reflexivity|]. simpl.
  rewrite OrderedDict_NoDup; [done|]. by rewrite keys_app.
Qed.

(** C3: when [B] extends [A], [A] declares its fields on top of
    [Serializer] and [B] declares fields of its own under names that are
    all distinct, the compiled mapping of [B] is [A]'s fields in [A]'s
    declared order followed by [B]'s newly declared fields in theirs; with
    [[a1, a2]] and [[b1]] it is [[a1, a2, b1]]. *)
Theorem inherited_then_declared (nameA nameB : string) attrsA attrsB :
  NoDup (keys attrsA) ->
  NoDup (keys attrsB) ->
  NoDup (keys (declared_of F attrsA) ++ keys (declared_of F attrsB)) ->
  exists A B,
    SerializerMeta_new F nameA [Serializer] attrsA = Ok A /\
    SerializerMeta_new F nameB [A] attrsB = Ok B /\
    _base_fields A = Some (declared_of F attrsA) /\
    _base_fields B = Some (declared_of F attrsA ++ declared_of F attrsB).
Proof.
  intros HA HB Hnd.
  destruct (SerializerMeta_new_appends Serializer [] nameA attrsA eq_refl HA)
    as (A & HmkA & HfA).
  { simpl. by apply NoDup_app in Hnd as (? & _ & _). }
  simpl in HfA.
  destruct (SerializerMeta_new_appends A _ nameB attrsB HfA HB Hnd)
    as (B & HmkB & HfB).
  by exists A, B.
Qed.

(** C6, as the code has it: when [B] extends [A] and declares a field
    under a name that [A]'s mapping already has, the compiled mapping of
    [B] keeps the name at the position it has in [A]'s mapping, bound to
    the field that [B] declares; the names new in [B] follow the inherited
    ones. *)
Theorem override_keeps_inherited_position (A : pyclass F) fieldsA
    (nameB : string) attrsB :
  _base_fields A = Some fieldsA ->
  NoDup (keys fieldsA) ->
  NoDup (keys attrsB) ->
  exists B fieldsB,
    SerializerMeta_new F nameB [A] attrsB = Ok B /\
    _base_fields B = Some fieldsB /\
    keys fieldsB
    = keys fieldsA
      ++ List.filter (fun k => negb (mem k (keys fieldsA)))
           (keys (declared_of F attrsB)) /\
    forall k v, (k, v) ∈ declared_of F attrsB ->
      dict_get fieldsB k = Some v /\
      forall i, keys fieldsA !! i = Some k -> keys fieldsB !! i = Some k.
Proof.
  intros HA HndA HndB. unfold SerializerMeta_new.
  rewrite _get_declared_fields_merged by done. simpl. rewrite HA. simpl.
  rewrite app_nil_r. eexists. eexists. split; [reflexivity|]. simpl.
  split; [reflexivity|].
  assert (NoDup (keys (declared_of F attrsB))) as HndD by by apply NoDup_keys_filter.
  assert (keys (OrderedDict (fieldsA ++ declared_of F attrsB))
          = keys fieldsA
            ++ List.filter (fun k => negb (mem k (keys fieldsA)))
                 (keys (declared_of F attrsB))) as Hkeys.
  { rewrite keys_OrderedDict, keys_app, first_occurrences_app.
    by rewrite !first_occurrences_NoDup. }
  split; [done|]. intros k v Hkv. split.
  - rewrite dict_get_OrderedDict. by apply last_binding_app_r.
  - intros i Hi. rewrite Hkeys. by apply lookup_app_l_Some.
Qed.

(** C7: the mapping is the [OrderedDict] of the merged pair list, the
    inherited pairs then the declared ones; its keys are the names of the
    list, each at its first occurrence, and a name is bound to the value of
    its last occurrence. A name that occurs twice stands where its first
    occurrence put it, after the distinct names before it, with the value
    of the second. *)
Theorem duplicate_name_later_value_first_position bases attrs :
  NoDup (keys attrs) ->
  let merged := inherited_of F bases ++ declared_of F attrs in
  exists fields attrs',
    _get_declared_fields F bases attrs = Ok (fields, attrs') /\
    fields = OrderedDict merged /\
    keys fields = first_occurrences (keys merged) /\
    (forall k, dict_get fields k = last_binding merged k) /\
    (forall k v1 v2 l1 l2 l3,
       merged = l1 ++ (k, v1) :: l2 ++ (k, v2) :: l3 ->
       k ∉ keys l1 -> k ∉ keys l3 ->
       dict_get fields k = Some v2 /\
       keys fields !! length (first_occurrences (keys l1)) = Some k).
Proof.
  intros Hnd merged. rewrite _get_declared_fields_merged by done.
  eexists. eexists. split; [reflexivity|]. split; [done|].
  split; [apply keys_OrderedDict|]. split; [apply dict_get_OrderedDict|].
  intros k v1 v2 l1 l2 l3 Hm Hl1 Hl3. fold merged. rewrite Hm. split.
  - rewrite dict_get_OrderedDict. unfold last_binding.
    rewrite rev_app_distr. simpl. rewrite rev_app_distr. simpl.
    rewrite <- !app_assoc. rewrite dict_get_app.
    assert (dict_get (rev l3) k = None) as ->.
    { apply dict_get_None. unfold keys. rewrite map_rev.
      intros Hin. apply Hl3. apply list_elem_of_In. rewrite in_rev.
      by apply list_elem_of_In. }
    simpl. by rewrite String.eqb_refl.
  - rewrite keys_OrderedDict, keys_app, first_occurrences_app. simpl.
    assert (mem k (first_occurrences (keys l1)) = false) as ->.
    { apply mem_false. by rewrite elem_of_first_occurrences. }
    simpl. by rewrite list_lookup_middle.
Qed.

End DeclaredFacts.

(** ** Schema instances *)

Section StoreFacts.
Context {body : Type}.
Implicit Types (h : list (obj body)) (st : copy_state body) (d : dict (pyobj loc)).

Lemma extends_refl h : extends body h h.
Proof. by split. Qed.

Lemma extends_trans h1 h2 h3 :
  extends body h1 h2 -> extends body h2 h3 -> extends body h1 h3.
Proof.
  intros [Hl1 H1] [Hl2 H2]. split; [lia|].
  intros l Hl. rewrite H2 by lia. by apply H1.
Qed.

Lemma extends_app h news : extends body h (h ++ news).
Proof.
  split; [rewrite length_app; lia|]. intros l Hl. by apply lookup_app_l.
Qed.

Lemma extends_insert_new h h' y o :
  extends body h h' -> length h <= y -> extends body h (<[y := o]> h').
Proof.
  intros [Hlen Hold] Hy. split; [by rewrite length_insert|].
  intros l Hl. rewrite list_lookup_insert_ne by lia. by apply Hold.
Qed.

Lemma insert_last {A} (l : list A) (x y : A) :
  <[length l := x]> (l ++ [y]) = l ++ [x].
Proof.
  rewrite <- (Nat.add_0_r (length l)). by rewrite insert_app_r.
Qed.

(** *** Reading and writing [parent] *)

Lemma getattr_parent_is_field h l v :
  getattr_parent body h l = Ok v -> is_field_at body h l.
Proof.
  unfold getattr_parent. destruct (h !! l) as [[f|s]|] eqn:Hl; [|done..].
  intros _. by exists f.
Qed.

Lemma getattr_parent_own h l f v :
  h !! l = Some (OField f) -> f_parent f = Some v ->
  getattr_parent body h l = Ok v.
Proof. intros Hl Hp. unfold getattr_parent. by rewrite Hl, Hp. Qed.

(** A lookup that succeeds has met objects of the store only, so it gives
    the same in every store that has these objects. *)
Lemma lookup_parent_extends h h' classes v :
  (forall l, l < length h -> h' !! l = h !! l) ->
  lookup_parent body h classes = Ok v ->
  lookup_parent body h' classes = Ok v.
Proof.
  intros Hold. induction classes as [|c classes IH]; simpl; [done|].
  destruct (h !! c) as [[f|s]|] eqn:Hc; [|done..].
  rewrite Hold by by apply lookup_lt_Some in Hc. rewrite Hc.
  destruct (f_parent f); [done|apply IH].
Qed.

Lemma getattr_parent_extends h h' l v :
  (forall l, l < length h -> h' !! l = h !! l) ->
  getattr_parent body h l = Ok v ->
  getattr_parent body h' l = Ok v.
Proof.
  intros Hold. unfold getattr_parent.
  destruct (h !! l) as [[f|s]|] eqn:Hl; [|done..].
  rewrite Hold by by apply lookup_lt_Some in Hl. rewrite Hl.
  destruct (f_parent f); [done|]. by apply lookup_parent_extends.
Qed.

(** What a read depends on: the object and its classes. *)
Lemma lookup_parent_agree h h' classes :
  (forall c, c ∈ classes -> h' !! c = h !! c) ->
  lookup_parent body h' classes = lookup_parent body h classes.
Proof.
  induction classes as [|c classes IH]; intros Hsame; simpl; [done|].
  rewrite Hsame by apply list_elem_of_here.
  destruct (h !! c) as [[f|s]|]; [|done..].
  destruct (f_parent f); [done|]. apply IH.
  intros c' Hc'. apply Hsame. by apply list_elem_of_further.
Qed.

Lemma getattr_parent_agree h h' l f :
  h !! l = Some (OField f) ->
  (forall c, c ∈ l :: f_mro f -> h' !! c = h !! c) ->
  getattr_parent body h' l = getattr_parent body h l.
Proof.
  intros Hl Hsame. unfold getattr_parent.
  rewrite Hsame by apply list_elem_of_here. rewrite Hl.
  destruct (f_parent f); [done|]. apply lookup_parent_agree.
  intros c Hc. apply Hsame. by apply list_elem_of_further.
Qed.

(** After [y.parent = w], a lookup gives what it gave, or [w]. *)
Lemma lookup_parent_insert h y f w classes v :
  h !! y = Some (OField f) ->
  lookup_parent body h classes = Ok v ->
  exists v',
    lookup_parent body (<[y := OField (Field (Some w) (f_mro f) (f_body f))]> h)
      classes = Ok v' /\ (v' = v \/ v' = w).
Proof.
  intros Hy. induction classes as [|c classes IH]; simpl; [done|].
  destruct (decide (c = y)) as [->|Hne].
  - rewrite Hy, list_lookup_insert_eq by by apply lookup_lt_Some in Hy.
    cbn [f_parent]. destruct (f_parent f) as [v0|].
    + intros [= <-]. exists w. split; [done|by right].
    + intros _. exists w. split; [done|by right].
  - rewrite list_lookup_insert_ne by done.
    destruct (h !! c) as [[fc|s]|]; [|done..].
    destruct (f_parent fc) as [v0|]; [|apply IH].
    intros [= <-]. exists v0. split; [done|by left].
Qed.

Lemma getattr_parent_insert h y f w l v :
  h !! y = Some (OField f) ->
  getattr_parent body h l = Ok v ->
  exists v',
    getattr_parent body (<[y := OField (Field (Some w) (f_mro f) (f_body f))]> h) l
    = Ok v' /\ (v' = v \/ v' = w).
Proof.
  intros Hy. unfold getattr_parent. destruct (decide (l = y)) as [->|Hne].
  - rewrite Hy, list_lookup_insert_eq by by apply lookup_lt_Some in Hy.
    cbn [f_parent]. intros _. exists w. split; [done|by right].
  - rewrite list_lookup_insert_ne by done.
    destruct (h !! l) as [[fl|s]|]; [|done..].
    destruct (f_parent fl) as [v0|]; [|by apply lookup_parent_insert].
    intros [= <-]. exists v0. split; [done|by left].
Qed.

(** *** deepcopy *)

Lemma deepcopy_dict_keys deep d st d' st' :
  deepcopy_dict body deep d st = Ok (d', st') -> keys d' = keys d.
Proof.
  unfold deepcopy_dict. revert st d' st'.
  induction d as [|[k v] d IH]; intros st d' st'; simpl.
  - by intros [= <- _].
  - destruct (deepcopy_value _ _ _ _) as [[v' st1]|]; simpl; [|done].
    destruct (for_each_st _ d st1) as [[d1 st2]|] eqn:Hd; simpl; [|done].
    intros [= <- _]. simpl. f_equal. by apply (IH st1 d1 st2).
Qed.

Lemma deepcopy_dict_extends deep d st d' st' :
  (forall x st0 y st1, deep x st0 = Ok (y, st1) ->
                       extends body (snd st0) (snd st1)) ->
  deepcopy_dict body deep d st = Ok (d', st') ->
  extends body (snd st) (snd st').
Proof.
  intros Hdeep. unfold deepcopy_dict. revert st d' st'.
  induction d as [|[k v] d IH]; intros st d' st'; simpl.
  - intros [= _ <-]. apply extends_refl.
  - destruct (deepcopy_value _ _ _ _) as [[v' st1]|] eqn:Hv; simpl; [|done].
    destruct (for_each_st _ d st1) as [[d1 st2]|] eqn:Hd; simpl; [|done].
    intros [= _ <-]. apply (extends_trans _ (snd st1)); [|by apply (IH st1 d1)].
    destruct v as [l|l|n|x]; simpl in Hv; try (injection Hv as _ <-; apply extends_refl).
    destruct (deep l st) as [[y st1']|] eqn:Hl; simpl in Hv; [|done].
    injection Hv as _ <-. by apply (Hdeep l st y).
Qed.

(** [deepcopy] only adds objects to the store. *)
Lemma deepcopy_extends fuel x st y st' :
  deepcopy body fuel x st = Ok (y, st') -> extends body (snd st) (snd st').
Proof.
  revert x st y st'. induction fuel as [|fuel IH]; intros x [memo h] y st'; simpl; [done|].
  destruct (memo_get memo x) as [y0|].
  { intros [= _ <-]. apply extends_refl. }
  destruct (h !! x) as [[f|s]|]; [| |done].
  - destruct (f_parent f) as [[p|]|].
    + destruct (deepcopy body fuel p _) as [[p' [memo2 h2]]|] eqn:Hp; simpl; [|done].
      intros [= _ <-]. simpl. apply IH in Hp. simpl in Hp.
      apply extends_insert_new; [|done].
      eapply extends_trans; [apply extends_app|done].
    + intros [= _ <-]. simpl. apply extends_insert_new; [apply extends_app|done].
    + intros [= _ <-]. apply extends_app.
  - destruct (s_fields s) as [fields|].
    + destruct (deepcopy_dict body _ fields _) as [[d' [memo2 h2]]|] eqn:Hd; simpl; [|done].
      intros [= _ <-]. simpl. apply deepcopy_dict_extends in Hd; [|exact IH].
      simpl in Hd. apply extends_insert_new; [|done].
      eapply extends_trans; [apply extends_app|exact Hd].
    + intros [= _ <-]. apply extends_app.
Qed.

Lemma memo_le_cons memo x y :
  memo_get memo x = None -> memo_le memo ((x, y) :: memo).
Proof.
  intros Hx l y' Hl. simpl. destruct (Nat.eqb_spec x l) as [->|]; [congruence|done].
Qed.

Lemma memo_fresh_cons n0 memo h x (o : obj body) :
  memo_fresh body n0 (memo, h) -> n0 <= length h -> memo_get memo x = None ->
  memo_fresh body n0 ((x, length h) :: memo, h ++ [o]).
Proof.
  intros [Hb Hinj] Hn Hx. split; simpl.
  - intros l y. rewrite length_app. simpl.
    destruct (Nat.eqb_spec x l) as [<-|Hne]; [intros [= <-]; lia|].
    intros Hl. specialize (Hb l y Hl). simpl in Hb. lia.
  - intros l1 l2 y.
    destruct (Nat.eqb_spec x l1) as [<-|Hne1];
      destruct (Nat.eqb_spec x l2) as [<-|Hne2]; try done.
    + intros [= <-] H2. specialize (Hb l2 _ H2). simpl in Hb. lia.
    + intros H1 [= <-]. specialize (Hb l1 _ H1). simpl in Hb. lia.
    + apply Hinj.
Qed.

Lemma memo_fresh_insert n0 memo h y (o : obj body) :
  memo_fresh body n0 (memo, h) -> memo_fresh body n0 (memo, <[y := o]> h).
Proof. intros [Hb Hinj]. split; simpl in *; [|done]. by rewrite length_insert. Qed.

Lemma deepcopy_dict_memo n0 deep d memo h d' memo' h' :
  (forall x memo0 h0 y memo1 h1,
     deep x (memo0, h0) = Ok (y, (memo1, h1)) ->
     n0 <= length h0 -> memo_fresh body n0 (memo0, h0) ->
     memo_fresh body n0 (memo1, h1) /\ memo_le memo0 memo1 /\
     memo_get memo1 x = Some y /\ length h0 <= length h1) ->
  deepcopy_dict body deep d (memo, h) = Ok (d', (memo', h')) ->
  n0 <= length h -> memo_fresh body n0 (memo, h) ->
  memo_fresh body n0 (memo', h') /\ memo_le memo memo' /\
  length h <= length h' /\ Forall2 (copies_by memo') d d'.
Proof.
  intros Hdeep. unfold deepcopy_dict. revert memo h d' memo' h'.
  induction d as [|[k v] d IH]; intros memo h d' memo' h'; simpl.
  - intros [= <- <- <-] Hn Hf. split_and!; [done|by intros ??|done|constructor].
  - destruct (deepcopy_value body deep v (memo, h)) as [[v' st1]|] eqn:Hv;
      simpl; [|done].
    destruct (for_each_st _ d st1) as [[d1 [memo2 h2]]|] eqn:Hd;
      simpl; [|done].
    destruct st1 as [memo1 h1]. intros [= <- <- <-] Hn Hf.
    assert (memo_fresh body n0 (memo1, h1) /\ memo_le memo memo1 /\
            length h <= length h1 /\
            match v with
            | FieldInstance l =>
                exists y, v' = FieldInstance y /\ memo_get memo1 l = Some y
            | _ => v' = v
            end) as (Hf1 & Hle1 & Hlen1 & Hv').
    { destruct v as [l|l|n|x]; simpl in Hv;
        try (injection Hv as <- <- <-; split_and!; [done|by intros ??|done|done]).
      destruct (deep l (memo, h)) as [[y [m1 hh1]]|] eqn:Hl; simpl in Hv; [|done].
      injection Hv as <- <- <-.
      destruct (Hdeep _ _ _ _ _ _ Hl Hn Hf) as (? & ? & ? & ?).
      split_and!; [done..|]. by exists y. }
    destruct (IH _ _ _ _ _ Hd) as (Hf2 & Hle2 & Hlen2 & Hall); [lia|done|].
    split_and!; [done| |lia|].
    + intros l y Hl. by apply Hle2, Hle1.
    + constructor; [|done]. split; [done|]. simpl.
      destruct v as [l|l|n|x]; try done.
      destruct Hv' as (y & -> & Hy). exists y. split; [done|by apply Hle2].
Qed.

(** The copies that [deepcopy] enters in its memo table are new objects,
    a different one for each original. *)
Lemma deepcopy_memo n0 fuel x memo h y memo' h' :
  deepcopy body fuel x (memo, h) = Ok (y, (memo', h')) ->
  n0 <= length h -> memo_fresh body n0 (memo, h) ->
  memo_fresh body n0 (memo', h') /\ memo_le memo memo' /\
  memo_get memo' x = Some y /\ length h <= length h'.
Proof.
  revert x memo h y memo' h'.
  induction fuel as [|fuel IH]; intros x memo h y memo' h' Hcopy Hn Hf; [done|].
  pose proof (deepcopy_extends _ _ _ _ _ Hcopy) as [Hlen _]. simpl in Hlen.
  simpl in Hcopy. destruct (memo_get memo x) as [y0|] eqn:Hm.
  { injection Hcopy as <- <- <-. split_and!; [done|by intros ??|done|done]. }
  assert (memo_get ((x, length h) :: memo) x = Some (length h)) as Hx.
  { simpl. by rewrite Nat.eqb_refl. }
  destruct (h !! x) as [[f|s]|]; [| |done]; unfold alloc in Hcopy.
  - pose proof (memo_fresh_cons n0 memo h x
                  (OField (Field None (f_mro f) (f_body f))) Hf Hn Hm) as Hf1.
    destruct (f_parent f) as [[p|]|].
    + destruct (deepcopy body fuel p _) as [[p' [memo2 h2]]|] eqn:Hp;
        simpl in Hcopy; [|done].
      injection Hcopy as <- <- <-.
      destruct (IH _ _ _ _ _ _ Hp) as (Hf2 & Hle2 & _ & _);
        [rewrite length_app; lia|done|].
      split_and!; [by apply memo_fresh_insert| |by apply Hle2|done].
      intros l y Hl. apply Hle2. by apply memo_le_cons.
    + injection Hcopy as <- <- <-.
      split_and!; [by apply memo_fresh_insert|by apply memo_le_cons|done|done].
    + injection Hcopy as <- <- <-.
      split_and!; [done|by apply memo_le_cons|done|done].
  - pose proof (memo_fresh_cons n0 memo h x
                  (OSerializer (SerializerObj (s_class s) (s_data s) None))
                  Hf Hn Hm) as Hf1.
    destruct (s_fields s) as [fields|].
    + destruct (deepcopy_dict body _ fields _) as [[d' [memo2 h2]]|] eqn:Hd;
        simpl in Hcopy; [|done].
      injection Hcopy as <- <- <-.
      destruct (deepcopy_dict_memo n0 _ _ _ _ _ _ _ IH Hd) as (Hf2 & Hle2 & _ & _);
        [rewrite length_app; lia|done|].
      split_and!; [by apply memo_fresh_insert| |by apply Hle2|done].
      intros l y Hl. apply Hle2. by apply memo_le_cons.
    + injection Hcopy as <- <- <-.
      split_and!; [done|by apply memo_le_cons|done|done].
Qed.

Lemma field_copy_memo_le memo memo' (f fc : field body) :
  memo_le memo memo' -> field_copy body memo f fc -> field_copy body memo' f fc.
Proof.
  intros Hle (Hmro & Hbody & Hp). split_and!; [done..|].
  destruct (f_parent f) as [[p|]|]; [|done..].
  destruct Hp as (p' & ? & ?). exists p'. split; [done|by apply Hle].
Qed.

Lemma deepcopy_dict_completes fuel d memo h d' memo' h' :
  completes body (deepcopy body fuel) ->
  deepcopy_dict body (deepcopy body fuel) d (memo, h) = Ok (d', (memo', h')) ->
  memo_fresh body 0 (memo, h) ->
  forall l y0, memo_get memo' l = Some y0 -> memo_get memo l = None ->
    length h <= y0 /\
    forall f, h !! l = Some (OField f) ->
      exists fc, h' !! y0 = Some (OField fc) /\ field_copy body memo' f fc.
Proof.
  intros Hdeep. unfold deepcopy_dict. revert memo h d' memo' h'.
  induction d as [|[k v] d IH]; intros memo h d' memo' h'; simpl.
  - intros [= <- <- <-] _ l y0 Hl Hn. congruence.
  - destruct (deepcopy_value body _ v (memo, h)) as [[v' st1]|] eqn:Hv;
      simpl; [|done].
    destruct (for_each_st _ d st1) as [[d1 [memo2 h2]]|] eqn:Hd;
      simpl; [|done].
    destruct st1 as [memo1 h1]. intros [= <- <- <-] Hf l y0 Hl Hn.
    pose proof (deepcopy_dict_memo 0 _ _ _ _ _ _ _
                  (fun x m0 h0 y m1 h1 => deepcopy_memo 0 fuel x m0 h0 y m1 h1) Hd)
      as Hrest.
    pose proof (deepcopy_dict_extends _ _ _ _ _
                  (fun x st0 y st1 => deepcopy_extends fuel x st0 y st1) Hd)
      as [_ Hold2]. cbn [snd] in Hold2.
    destruct v as [x|x|n|x]; simpl in Hv;
      try (injection Hv as <- <- <-; by apply (IH _ _ _ _ _ Hd)).
    destruct (deepcopy body fuel x (memo, h)) as [[y [m1 hh1]]|] eqn:Hx;
      simpl in Hv; [|done].
    injection Hv as <- -> ->.
    destruct (deepcopy_memo 0 _ _ _ _ _ _ _ Hx ltac:(lia) Hf)
      as (Hf1 & Hle1 & _ & Hlen1).
    destruct (Hrest ltac:(lia) Hf1) as (Hf2 & Hle2 & Hlen2 & _).
    pose proof (deepcopy_extends _ _ _ _ _ Hx) as [_ Hold1]. cbn [snd] in Hold1.
    destruct (memo_get memo1 l) as [y1|] eqn:Hl1.
    + assert (y1 = y0) as -> by (apply Hle2 in Hl1; congruence).
      destruct (Hdeep _ _ _ _ _ _ Hx Hf l y0 Hl1 Hn) as [Hlo Hcopy].
      split; [done|]. intros f Hlf. destruct (Hcopy f Hlf) as (fc & Hfc & Hrel).
      exists fc. split; [|by eapply field_copy_memo_le].
      rewrite Hold2; [done|]. by apply lookup_lt_Some in Hfc.
    + destruct (IH _ _ _ _ _ Hd Hf1 l y0 Hl Hl1) as [Hlo Hcopy].
      split; [lia|]. intros f Hlf. apply Hcopy.
      rewrite Hold1; [done|]. by apply lookup_lt_Some in Hlf.
Qed.

Lemma deepcopy_completes fuel : completes body (deepcopy body fuel).
Proof.
  induction fuel as [|fuel IH]; intros x memo h y memo' h' Hcopy Hf l y0 Hl Hn;
    [done|].
  simpl in Hcopy. destruct (memo_get memo x) as [y1|] eqn:Hm.
  { injection Hcopy as <- <- <-. congruence. }
  destruct (h !! x) as [[f|s]|] eqn:Hx; [| |done]; unfold alloc in Hcopy.
  - pose proof (memo_fresh_cons 0 memo h x
                  (OField (Field None (f_mro f) (f_body f))) Hf ltac:(lia) Hm)
      as Hf1.
    destruct (f_parent f) as [[p|]|] eqn:Hp.
    + destruct (deepcopy body fuel p _) as [[p' [memo2 h2]]|] eqn:Hcp;
        simpl in Hcopy; [|done].
      injection Hcopy as <- <- <-.
      destruct (deepcopy_memo 0 _ _ _ _ _ _ _ Hcp ltac:(lia) Hf1)
        as (Hf2 & Hle2 & Hp' & Hlen2).
      rewrite length_app in Hlen2. simpl in Hlen2.
      destruct (Nat.eqb_spec x l) as [<-|Hne].
      * assert (y0 = length h) as ->.
        { assert (memo_get memo2 x = Some (length h)) as H2.
          { apply Hle2. simpl. by rewrite Nat.eqb_refl. }
          congruence. }
        split; [done|]. intros f0 Hf0. rewrite Hx in Hf0. injection Hf0 as <-.
        eexists. split; [apply list_lookup_insert_eq; lia|].
        split_and!; [done..|]. rewrite Hp. by exists p'.
      * assert (memo_get ((x, length h) :: memo) l = None) as Hn1.
        { simpl. by destruct (Nat.eqb_spec x l). }
        destruct (IH _ _ _ _ _ _ Hcp Hf1 l y0 Hl Hn1) as [Hlo Hcopy].
        rewrite length_app in Hlo. simpl in Hlo. split; [lia|].
        intros f0 Hf0. destruct (Hcopy f0) as (fc & Hfc & Hrel).
        { by apply lookup_app_l_Some. }
        exists fc. split; [|done]. rewrite list_lookup_insert_ne by lia. done.
    + injection Hcopy as <- <- <-. simpl in Hl.
      destruct (Nat.eqb_spec x l) as [<-|Hne]; [|congruence].
      injection Hl as <-. split; [done|].
      intros f0 Hf0. rewrite Hx in Hf0. injection Hf0 as <-.
      eexists. split.
      { apply list_lookup_insert_eq. rewrite length_app. simpl. lia. }
      split_and!; [done..|]. by rewrite Hp.
    + injection Hcopy as <- <- <-. simpl in Hl.
      destruct (Nat.eqb_spec x l) as [<-|Hne]; [|congruence].
      injection Hl as <-. split; [done|].
      intros f0 Hf0. rewrite Hx in Hf0. injection Hf0 as <-.
      eexists. split.
      { rewrite lookup_app_r by lia. by rewrite Nat.sub_diag. }
      split_and!; [done..|]. by rewrite Hp.
  - pose proof (memo_fresh_cons 0 memo h x
                  (OSerializer (SerializerObj (s_class s) (s_data s) None))
                  Hf ltac:(lia) Hm) as Hf1.
    destruct (s_fields s) as [fields|] eqn:Hfs.
    + destruct (deepcopy_dict body _ fields _) as [[d' [memo2 h2]]|] eqn:Hd;
        simpl in Hcopy; [|done].
      injection Hcopy as <- <- <-.
      destruct (deepcopy_dict_memo 0 _ _ _ _ _ _ _
                  (fun x m0 h0 y m1 h1 => deepcopy_memo 0 fuel x m0 h0 y m1 h1) Hd
                  ltac:(lia) Hf1) as (Hf2 & Hle2 & Hlen2 & _).
      rewrite length_app in Hlen2. simpl in Hlen2.
      destruct (Nat.eqb_spec x l) as [<-|Hne].
      * assert (y0 = length h) as ->.
        { assert (memo_get memo2 x = Some (length h)) as H2.
          { apply Hle2. simpl. by rewrite Nat.eqb_refl. }
          congruence. }
        split; [done|]. intros f0 Hf0. congruence.
      * assert (memo_get ((x, length h) :: memo) l = None) as Hn1.
        { simpl. by destruct (Nat.eqb_spec x l). }
        destruct (deepcopy_dict_completes fuel _ _ _ _ _ _ IH Hd Hf1 l y0 Hl Hn1)
          as [Hlo Hcopy].
        rewrite length_app in Hlo. simpl in Hlo. split; [lia|].
        intros f0 Hf0. destruct (Hcopy f0) as (fc & Hfc & Hrel).
        { by apply lookup_app_l_Some. }
        exists fc. split; [|done]. rewrite list_lookup_insert_ne by lia. done.
    + injection Hcopy as <- <- <-. simpl in Hl.
      destruct (Nat.eqb_spec x l) as [<-|Hne]; [|congruence].
      injection Hl as <-. split; [done|]. intros f0 Hf0. congruence.
Qed.

(** A read that gives [None] after [y.parent = self] gave [None] before. *)
Lemma lookup_parent_insert_None h y f (s : loc) classes :
  h !! y = Some (OField f) ->
  lookup_parent body
    (<[y := OField (Field (Some (Some s)) (f_mro f) (f_body f))]> h) classes
  = Ok None ->
  lookup_parent body h classes = Ok None.
Proof.
  intros Hy. induction classes as [|c classes IH]; simpl; [done|].
  destruct (decide (c = y)) as [->|Hne].
  - by rewrite list_lookup_insert_eq by by apply lookup_lt_Some in Hy.
  - rewrite list_lookup_insert_ne by done.
    destruct (h !! c) as [[fc|sc]|]; [|done..].
    by destruct (f_parent fc).
Qed.

Lemma getattr_parent_insert_None h y f (s : loc) l :
  h !! y = Some (OField f) ->
  getattr_parent body
    (<[y := OField (Field (Some (Some s)) (f_mro f) (f_body f))]> h) l
  = Ok None ->
  getattr_parent body h l = Ok None.
Proof.
  intros Hy. unfold getattr_parent. destruct (decide (l = y)) as [->|Hne].
  - by rewrite list_lookup_insert_eq by by apply lookup_lt_Some in Hy.
  - rewrite list_lookup_insert_ne by done.
    destruct (h !! l) as [[fl|sl]|]; [|done..].
    destruct (f_parent fl); [done|]. by apply lookup_parent_insert_None.
Qed.

(** *** The loop of [get_fields] *)

(** One turn of the loop. *)
Lemma set_parents_cons self k v d h h' :
  set_parents body self ((k, v) :: d) h = Ok h' ->
  exists l f,
    (v = FieldInstance l \/ v = FieldClass l) /\
    h !! l = Some (OField f) /\
    ((exists p, getattr_parent body h l = Ok (Some p) /\
                set_parents body self d h = Ok h') \/
     (getattr_parent body h l = Ok None /\
      set_parents body self d
        (<[l := OField (Field (Some (Some self)) (f_mro f) (f_body f))]> h)
      = Ok h')).
Proof.
  simpl.
  assert (forall l,
            match getattr_parent body h l with
            | Ok None =>
                match setattr_parent body h l (Some self) with
                | Ok h1 => set_parents body self d h1
                | Raise e => Raise e
                end
            | Ok (Some _) => set_parents body self d h
            | Raise e => Raise e
            end = Ok h' ->
            exists f,
              h !! l = Some (OField f) /\
              ((exists p, getattr_parent body h l = Ok (Some p) /\
                          set_parents body self d h = Ok h') \/
               (getattr_parent body h l = Ok None /\
                set_parents body self d
                  (<[l := OField (Field (Some (Some self)) (f_mro f) (f_body f))]> h)
                = Ok h'))) as Hcase.
  { intros l. destruct (getattr_parent body h l) as [[p|]|] eqn:Hg; [| |done].
    - destruct (getattr_parent_is_field _ _ _ Hg) as [f Hf].
      intros H. exists f. split; [done|]. left. by exists p.
    - destruct (getattr_parent_is_field _ _ _ Hg) as [f Hf].
      unfold setattr_parent. rewrite Hf. intros H. exists f. split; [done|].
      by right. }
  destruct v as [l|l|n|x]; [| |done..]; intros H;
    destruct (Hcase l H) as (f & Hf & Hor); exists l, f; auto.
Qed.

(** [set_parents] keeps the length of the store and every serializer. *)
Lemma set_parents_frame self d h h' :
  set_parents body self d h = Ok h' ->
  length h' = length h /\
  forall l s, h !! l = Some (OSerializer s) -> h' !! l = Some (OSerializer s).
Proof.
  revert h. induction d as [|[k v] d IH]; intros h.
  - by intros [= <-].
  - intros (y & f & _ & Hy & [(p & _ & H)|[_ H]])%set_parents_cons; [by apply IH|].
    apply IH in H as [Hlen Hser]. rewrite length_insert in Hlen.
    split; [done|]. intros l s Hl. apply Hser.
    rewrite list_lookup_insert_ne; [done|]. intros ->. congruence.
Qed.

(** [set_parents] leaves alone every object on which [.parent] gives a
    schema instance. *)
Lemma set_parents_keeps_read self d h h' l :
  set_parents body self d h = Ok h' ->
  (exists p, getattr_parent body h l = Ok (Some p)) ->
  h' !! l = h !! l.
Proof.
  revert h. induction d as [|[k v] d IH]; intros h.
  - by intros [= <-].
  - intros (y & f & _ & Hy & [(p & _ & H)|[Hnone H]])%set_parents_cons Hread;
      [by apply IH|].
    destruct Hread as [p Hp].
    assert (l <> y) as Hne by (intros ->; congruence).
    rewrite (IH _ H); [by rewrite list_lookup_insert_ne|].
    destruct (getattr_parent_insert h y f (Some self) l _ Hy Hp)
      as (v' & Hv' & [-> | ->]); by eexists.
Qed.

Lemma set_parents_keeps_parented self d h h' l f p :
  set_parents body self d h = Ok h' ->
  h !! l = Some (OField f) -> f_parent f = Some (Some p) ->
  h' !! l = Some (OField f).
Proof.
  intros Hset Hl Hp. rewrite <- Hl. eapply set_parents_keeps_read; [done|].
  exists p. by eapply getattr_parent_own.
Qed.

(** What [set_parents] changes: a field among the values of the mapping
    on which [.parent] gave [None] gets the own parent [self]; every other
    object stays. *)
Lemma set_parents_changes self d h h' l o :
  set_parents body self d h = Ok h' ->
  h !! l = Some o ->
  h' !! l = Some o \/
  exists f, o = OField f /\ getattr_parent body h l = Ok None /\
            l ∈ field_locs d /\
            h' !! l = Some (OField (Field (Some (Some self)) (f_mro f) (f_body f))).
Proof.
  revert h o. induction d as [|[k v] d IH]; intros h o.
  - intros [= <-] Hl. by left.
  - intros (y & f & Hv & Hy & Hor)%set_parents_cons Hl.
    assert (forall l0, l0 ∈ field_locs d -> l0 ∈ field_locs ((k, v) :: d)) as Hsub.
    { intros l0 Hl0. unfold field_locs. simpl. apply elem_of_app. by right. }
    assert (y ∈ field_locs ((k, v) :: d)) as Hyin.
    { unfold field_locs. simpl. apply elem_of_app. left.
      destruct Hv as [-> | ->]; apply list_elem_of_here. }
    destruct Hor as [(p & _ & H)|[Hnone H]].
    + destruct (IH h o H Hl) as [?|(f0 & ? & ? & ? & ?)]; [by left|].
      right. exists f0. split_and!; [done..|by apply Hsub|done].
    + destruct (decide (l = y)) as [->|Hne].
      * right. exists f. rewrite Hy in Hl. injection Hl as <-.
        split_and!; [done..|].
        eapply set_parents_keeps_parented; [exact H| |done].
        apply list_lookup_insert_eq. by apply lookup_lt_Some in Hy.
      * destruct (IH _ o H) as [?|(f0 & ? & Hg & ? & ?)];
          [by rewrite list_lookup_insert_ne|by left|].
        right. exists f0. split_and!; [done| |by apply Hsub|done].
        by eapply getattr_parent_insert_None.
Qed.

Lemma fields_in_insert h d y f (w : option loc) :
  h !! y = Some (OField f) ->
  fields_in body h d ->
  fields_in body (<[y := OField (Field (Some w) (f_mro f) (f_body f))]> h) d.
Proof.
  intros Hy Hin. eapply Forall_impl; [exact Hin|].
  intros kv (l & Hkv & v & Hl). exists l. split; [done|].
  destruct (getattr_parent_insert h y f w l v Hy Hl) as (v' & Hv' & _).
  by exists v'.
Qed.

Lemma set_parents_total self d h :
  fields_in body h d -> exists h', set_parents body self d h = Ok h'.
Proof.
  revert h. induction d as [|[k v] d IH]; intros h Hin; simpl; [by eexists|].
  apply Forall_cons in Hin as [(l & Hv & v0 & Hl) Hin]. simpl in Hv.
  destruct (getattr_parent_is_field _ _ _ Hl) as [f Hf].
  assert (exists h',
            match getattr_parent body h l with
            | Ok None =>
                match setattr_parent body h l (Some self) with
                | Ok h1 => set_parents body self d h1
                | Raise e => Raise e
                end
            | Ok (Some _) => set_parents body self d h
            | Raise e => Raise e
            end = Ok h') as Hcase.
  { rewrite Hl. destruct v0 as [p|]; [by apply IH|].
    unfold setattr_parent. rewrite Hf. apply IH. by apply fields_in_insert. }
  by destruct Hv as [-> | ->].
Qed.

(** Through the loop, [.parent] on any object gives what it gave, or
    [self]. *)
Lemma set_parents_read self d h h' l v :
  set_parents body self d h = Ok h' ->
  getattr_parent body h l = Ok v ->
  exists v', getattr_parent body h' l = Ok v' /\ (v' = v \/ v' = Some self).
Proof.
  revert h v. induction d as [|[k v0] d IH]; intros h v.
  - intros [= <-] Hl. exists v. by split; [|left].
  - intros (y & f & _ & Hy & [(p & _ & H)|[Hnone H]])%set_parents_cons Hl;
      [by eapply IH|].
    destruct (getattr_parent_insert h y f (Some self) l v Hy Hl)
      as (v1 & Hv1 & Hor).
    destruct (IH _ _ H Hv1) as (v' & Hv' & Hor'). exists v'. split; [done|].
    destruct Hor as [-> | ->], Hor' as [-> | ->]; auto.
Qed.

(** After the loop, every value of the mapping is a field object on
    which [.parent] gives a schema instance. *)
Lemma set_parents_parents self d h h' :
  set_parents body self d h = Ok h' ->
  Forall (fun kv => exists l p, (snd kv = FieldInstance l \/ snd kv = FieldClass l) /\
                                getattr_parent body h' l = Ok (Some p)) d.
Proof.
  revert h. induction d as [|[k v] d IH]; intros h; [constructor|].
  intros (y & f & Hv & Hy & Hor)%set_parents_cons.
  constructor.
  - exists y. cbn [snd].
    destruct Hor as [(p & Hp & H)|[Hnone H]].
    + destruct (set_parents_read _ _ _ _ _ _ H Hp) as (v' & Hv' & [-> | ->]);
        by eexists.
    + destruct (set_parents_read _ _ _ _ y (Some self) H) as (v' & Hv' & Hor).
      { eapply getattr_parent_own;
          [apply list_lookup_insert_eq; by apply lookup_lt_Some in Hy|done]. }
      destruct Hor as [-> | ->]; by eexists.
  - destruct Hor as [(p & Hp & H)|[Hnone H]]; by eapply IH.
Qed.

Lemma get_fields_inv self h fs h' :
  get_fields body self h = Ok (fs, h') ->
  exists s template memo h1,
    h !! self = Some (OSerializer s) /\
    _base_fields (s_class s) = Some template /\
    deepcopy_dict body (deepcopy body (S (length h))) template ([], h)
    = Ok (fs, (memo, h1)) /\
    set_parents body self fs h1 = Ok h'.
Proof.
  unfold get_fields. destruct (h !! self) as [[f|s]|] eqn:Hs; [done| |done].
  destruct (_base_fields (s_class s)) as [template|] eqn:Ht; [|done].
  destruct (deepcopy_dict body _ template _) as [[fs0 [memo h1]]|] eqn:Hd;
    cbn [bind fst snd]; [|done].
  destruct (set_parents body self fs0 h1) as [h2|] eqn:Hp; cbn [bind]; [|done].
  intros [= <- <-]. by exists s, template, memo, h1.
Qed.

(** The steps of [cls(data)], one after the other. *)
Lemma new_steps (cls : pyclass loc) (data : value) h self h' :
  new body cls data h = Ok (self, h') ->
  exists template fs memo h2 h3,
    _base_fields cls = Some template /\
    self = length h /\
    deepcopy_dict body (deepcopy body (S (S (length h)))) template
      ([], h ++ [OSerializer (SerializerObj cls (Some data) None)])
    = Ok (fs, (memo, h2)) /\
    set_parents body (length h) fs h2 = Ok h3 /\
    h' = <[length h := OSerializer (SerializerObj cls (Some data) (Some fs))]> h3 /\
    length h3 = length h2 /\ S (length h) <= length h2 /\
    (forall l, l < S (length h) ->
               h2 !! l = (h ++ [OSerializer (SerializerObj cls (Some data) None)]) !! l).
Proof.
  unfold new, alloc, __init__, set_data.
  rewrite lookup_app_r by lia. rewrite Nat.sub_diag.
  cbn [lookup list_lookup bind s_class s_fields]. rewrite insert_last.
  set (h1 := h ++ [OSerializer (SerializerObj cls (Some data) None)]).
  assert (length h1 = S (length h)) as Hlen1.
  { unfold h1. rewrite length_app. simpl. lia. }
  assert (h1 !! length h = Some (OSerializer (SerializerObj cls (Some data) None)))
    as Hself.
  { unfold h1. rewrite lookup_app_r by lia. by rewrite Nat.sub_diag. }
  destruct (get_fields body (length h) h1) as [[fs h3]|] eqn:Hg; cbn [bind fst snd]; [|done].
  apply get_fields_inv in Hg as (s & template & memo & h2 & Hs & Htemplate & Hd & Hp).
  pose proof (eq_trans (eq_sym Hs) Hself) as [= ->]. simpl in Htemplate.
  pose proof Hd as Hext.
  apply deepcopy_dict_extends in Hext; [|intros ????; apply deepcopy_extends].
  destruct Hext as [Hlen Hold]. cbn [snd] in Hlen, Hold.
  pose proof (set_parents_frame _ _ _ _ Hp) as [Hlen3 Hser].
  unfold set_fields. erewrite (Hser (length h)); [|rewrite Hold; [exact Hself|lia]].
  cbn [bind s_class s_data]. intros [= <- <-].
  exists template, fs, memo, h2, h3. rewrite Hlen1 in *.
  split_and!; [done..|lia|]. intros l Hl. by apply Hold.
Qed.

(** What [cls(data)] leaves in the store, whatever the template holds. *)
Lemma new_inv (cls : pyclass loc) data h self h' :
  new body cls data h = Ok (self, h') ->
  exists template fs,
    _base_fields cls = Some template /\
    self = length h /\
    h' !! self = Some (OSerializer (SerializerObj cls (Some data) (Some fs))) /\
    keys fs = keys template.
Proof.
  intros (template & fs & memo & h2 & h3 & Ht & -> & Hd & Hset & -> & Hlen3 & Hlen2 & _)%new_steps.
  exists template, fs. split_and!; [done..| |by eapply deepcopy_dict_keys].
  apply list_lookup_insert_eq. lia.
Qed.

(** *** Templates of fresh field instances *)

Lemma getattr_parent_None_own h l f :
  h !! l = Some (OField f) -> getattr_parent body h l = Ok None ->
  (f_parent f = None /\ lookup_parent body h (f_mro f) = Ok None) \/
  f_parent f = Some None.
Proof.
  unfold getattr_parent. intros ->. destruct (f_parent f) as [[p|]|]; [done|by right|].
  intros H. by left.
Qed.

Lemma deepcopy_fresh_field fuel l memo h f :
  memo_get memo l = None ->
  h !! l = Some (OField f) ->
  getattr_parent body h l = Ok None ->
  deepcopy body (S fuel) l (memo, h)
  = Ok (length h, ((l, length h) :: memo, h ++ [OField f])).
Proof.
  intros Hm Hl Hg. simpl. rewrite Hm, Hl. unfold alloc.
  destruct (getattr_parent_None_own _ _ _ Hl Hg) as [[Hp _]|Hp]; rewrite Hp.
  - destruct f as [p mro b]. simpl in *. by subst p.
  - cbn [fst]. rewrite insert_last. destruct f as [p mro b]. simpl in *. by subst p.
Qed.

Lemma deepcopy_memoized fuel l memo h y :
  memo_get memo l = Some y ->
  deepcopy body (S fuel) l (memo, h) = Ok (y, (memo, h)).
Proof. intros Hm. simpl. by rewrite Hm. Qed.

Lemma copy_of_extends h_t h_c h_c' lo p t c :
  extends body h_c h_c' -> copy_of body h_t h_c lo p t c ->
  copy_of body h_t h_c' lo p t c.
Proof.
  intros [_ Hold] (Hk & l & y & f & Ht & Hc & Hl & Hg & Hy & Hlo).
  split; [done|]. exists l, y, f. split_and!; [done..| |done].
  rewrite Hold; [done|]. by apply lookup_lt_Some in Hy.
Qed.

(** The deep copy of a template of fresh field instances: every item gets
    a field instance in the state of the original, new in the store. *)
Lemma deepcopy_dict_fresh fuel h0 template st :
  fresh_instances body h0 template ->
  memo_ok body h0 st ->
  exists fs st',
    deepcopy_dict body (deepcopy body (S fuel)) template st = Ok (fs, st') /\
    memo_ok body h0 st' /\
    extends body (snd st) (snd st') /\
    Forall2 (copy_of body h0 (snd st') (length h0) None) template fs.
Proof.
  unfold deepcopy_dict. revert st.
  induction template as [|[k v] template IH]; intros [memo h] Hfresh Hinv.
  - exists [], (memo, h). split_and!; [done|done|apply extends_refl|constructor].
  - apply Forall_cons in Hfresh as [(l & Hv & Hg) Hfresh].
    simpl in Hv. subst v. destruct Hinv as [Hext Hmemo]. simpl in Hext, Hmemo.
    destruct (getattr_parent_is_field _ _ _ Hg) as [f Hl].
    assert (h !! l = Some (OField f)) as Hhl.
    { destruct Hext as [_ Hold]. rewrite Hold; [done|]. by apply lookup_lt_Some in Hl. }
    assert (getattr_parent body h l = Ok None) as Hhg.
    { eapply getattr_parent_extends; [|exact Hg]. apply Hext. }
    cbn [for_each_st fst snd deepcopy_value].
    destruct (memo_get memo l) as [y|] eqn:Hm.
    + rewrite (deepcopy_memoized _ _ _ _ y) by done. cbn [bind fst snd].
      destruct (IH (memo, h) Hfresh) as (fs & st' & -> & Hinv' & Hext' & Hall).
      { by split. }
      cbn [bind fst snd]. exists ((k, FieldInstance y) :: fs), st'.
      split_and!; [done|done|done|]. constructor; [|done].
      destruct (Hmemo l y Hm) as (f' & Hf' & _ & Hy & Hlo).
      assert (f' = f) as -> by congruence.
      apply (copy_of_extends _ h); [done|].
      split; [done|]. by exists l, y, f.
    + rewrite (deepcopy_fresh_field _ _ _ _ f) by done. cbn [bind fst snd].
      set (h1 := h ++ [OField f]).
      assert (extends body h h1) as Hext1 by apply extends_app.
      assert (h1 !! length h = Some (OField f)) as Hnew.
      { unfold h1. rewrite lookup_app_r by lia. by rewrite Nat.sub_diag. }
      destruct (IH ((l, length h) :: memo, h1) Hfresh)
        as (fs & st' & -> & Hinv' & Hext' & Hall).
      { split; [by apply (extends_trans _ h)|]. simpl.
        intros l' y'. destruct (Nat.eqb_spec l l') as [<-|Hne].
        - intros [= <-]. exists f. split_and!; [done..|apply Hext].
        - intros Hm'. destruct (Hmemo l' y' Hm') as (f' & Hf' & Hg' & Hy & Hlo).
          exists f'. split_and!; [done..| |done].
          unfold h1. by apply lookup_app_l_Some. }
      cbn [bind fst snd]. exists ((k, FieldInstance (length h)) :: fs), st'.
      split_and!; [done|done| |].
      * by apply (extends_trans _ h1).
      * constructor; [|done]. apply (copy_of_extends _ h1); [done|].
        split; [done|]. exists l, (length h), f. split_and!; [done..|apply Hext].
Qed.

Lemma elem_of_field_locs d l :
  l ∈ field_locs d <->
  exists kv, kv ∈ d /\ (snd kv = FieldInstance l \/ snd kv = FieldClass l).
Proof.
  unfold field_locs. rewrite list_elem_of_In, in_flat_map. split.
  - intros ([k v] & Hin & Hl). exists (k, v). split; [by apply list_elem_of_In|].
    destruct v as [l'|l'|n|x]; simpl in *; [| |done..];
      (destruct Hl as [<-|[]]; auto).
  - intros ([k v] & Hin & Hl). exists (k, v). split; [by apply list_elem_of_In|].
    simpl in *. destruct Hl as [->| ->]; by left.
Qed.

(** On the copy of a template of fresh field instances, in a store that
    still has the objects of [h_t] as they were, [set_parents] gives every
    field the own parent [self] and touches nothing below [lo]. *)
Lemma set_parents_fresh self h_t lo template fs h :
  (forall l, l < length h_t -> h !! l = h_t !! l) ->
  length h_t <= lo ->
  Forall2 (fun t c => copy_of body h_t h lo None t c \/
                      copy_of body h_t h lo (Some self) t c) template fs ->
  exists h',
    set_parents body self fs h = Ok h' /\
    length h' = length h /\
    (forall l, l < lo -> h' !! l = h !! l) /\
    Forall2 (copy_of body h_t h' lo (Some self)) template fs.
Proof.
  intros Hagree Hlo Hall. revert h Hagree Hall.
  induction fs as [|[k v] fs IH] in template |- *; intros h Hagree Hall.
  - inversion Hall; subst. exists h. split_and!; [done..|constructor].
  - inversion Hall as [|t ? template' ? Hhead Htail]; subst.
    assert (exists l y f, fst t = k /\ snd t = FieldInstance l /\ v = FieldInstance y /\
              h_t !! l = Some (OField f) /\
              getattr_parent body h_t l = Ok None /\ lo <= y /\
              (h !! y = Some (OField f) \/
               h !! y = Some (OField (Field (Some (Some self)) (f_mro f) (f_body f)))))
      as (l & y & f & Hk & Ht & -> & Hl & Hg & Hy & Hstate).
    { destruct Hhead as [(Hk & l & y & f & Ht & Hc & Hl & Hg & Hy & Hylo)
                        |(Hk & l & y & f & Ht & Hc & Hl & Hg & Hy & Hylo)];
        exists l, y, f; split_and!; auto. }
    destruct Hstate as [Hhy|Hhy].
    + assert (getattr_parent body h y = Ok None) as Hgy.
      { unfold getattr_parent. rewrite Hhy.
        destruct (getattr_parent_None_own _ _ _ Hl Hg) as [[-> Hlook]| ->]; [|done].
        eapply lookup_parent_extends; [exact Hagree|exact Hlook]. }
      set (h1 := <[y := OField (Field (Some (Some self)) (f_mro f) (f_body f))]> h).
      assert (h1 !! y = Some (OField (Field (Some (Some self)) (f_mro f) (f_body f))))
        as Hy1.
      { unfold h1. apply list_lookup_insert_eq. by apply lookup_lt_Some in Hhy. }
      destruct (IH template' h1) as (h' & Hset & Hlen & Hold & Hall').
      { intros c Hc. unfold h1. rewrite list_lookup_insert_ne by lia.
        by apply Hagree. }
      { eapply Forall2_impl; [exact Htail|]. intros t' c' Hc'.
        assert (forall p', copy_of body h_t h lo p' t' c' ->
                  copy_of body h_t h1 lo p' t' c' \/
                  copy_of body h_t h1 lo (Some self) t' c') as Hlift.
        { intros p' (Hk' & l' & y' & f' & Ht' & Hcc & Hl' & Hg' & Hy' & Hlo').
          destruct (decide (y' = y)) as [->|Hne].
          - right. split; [done|]. exists l', y, f'. split_and!; [done..| |done].
            rewrite Hy1. rewrite Hhy in Hy'. injection Hy' as Hy'.
            destruct p'; by rewrite Hy'.
          - left. split; [done|]. exists l', y', f'. split_and!; [done..| |done].
            unfold h1. by rewrite list_lookup_insert_ne. }
        destruct Hc' as [Hc'|Hc']; [by apply Hlift|].
        destruct (Hlift _ Hc'); by right. }
      exists h'. split_and!.
      * simpl. rewrite Hgy. unfold setattr_parent. by rewrite Hhy.
      * unfold h1 in Hlen. by rewrite length_insert in Hlen.
      * intros l' Hl'. rewrite Hold by done. unfold h1.
        rewrite list_lookup_insert_ne; [done|lia].
      * constructor; [|done]. split; [done|]. exists l, y, f.
        split_and!; [done..| |done].
        by eapply set_parents_keeps_parented.
    + destruct (IH template' h Hagree Htail) as (h' & Hset & Hlen & Hold & Hall').
      exists h'. split_and!; [|done..|].
      * simpl. by rewrite (getattr_parent_own _ _ _ _ Hhy eq_refl).
      * constructor; [|done]. split; [done|]. exists l, y, f.
        split_and!; [done..| |done].
        by eapply set_parents_keeps_parented.
Qed.

(** [cls(data)] when the template of [cls] holds fresh field instances:
    the instance is the new object [length h]; what the store held is
    unchanged; the fields of the instance are new objects, copies of the
    template's with the instance as their own parent. *)
Lemma new_fresh (cls : pyclass loc) template (data : value) h :
  _base_fields cls = Some template ->
  fresh_instances body h template ->
  exists h' fs,
    new body cls data h = Ok (length h, h') /\
    extends body h h' /\
    h' !! length h
    = Some (OSerializer (SerializerObj cls (Some data) (Some fs))) /\
    Forall2 (copy_of body h h' (S (length h)) (Some (length h))) template fs.
Proof.
  intros Hcls Hfresh. unfold new, alloc, __init__, set_data.
  rewrite lookup_app_r by lia. rewrite Nat.sub_diag.
  cbn [lookup list_lookup bind s_class s_fields]. rewrite insert_last.
  set (h1 := h ++ [OSerializer (SerializerObj cls (Some data) None)]).
  assert (length h1 = S (length h)) as Hlen1.
  { unfold h1. rewrite length_app. simpl. lia. }
  assert (h1 !! length h = Some (OSerializer (SerializerObj cls (Some data) None)))
    as Hself.
  { unfold h1. rewrite lookup_app_r by lia. by rewrite Nat.sub_diag. }
  assert (extends body h h1) as Hext1 by apply extends_app.
  assert (fresh_instances body h1 template) as Hfresh1.
  { eapply Forall_impl; [exact Hfresh|]. intros kv (l & Hkv & Hl).
    exists l. split; [done|]. eapply getattr_parent_extends; [|exact Hl].
    apply Hext1. }
  destruct (deepcopy_dict_fresh (length h1) h1 template ([], h1) Hfresh1)
    as (fs & [memo h2] & Hd & _ & Hext2 & Hall).
  { split; [apply extends_refl|done]. }
  cbn [snd] in Hext2, Hall.
  destruct (set_parents_fresh (length h) h1 (length h1) template fs h2)
    as (h3 & Hset & Hlen3 & Hold3 & Hall3).
  { apply Hext2. }
  { done. }
  { eapply Forall2_impl; [exact Hall|]. intros; by left. }
  unfold get_fields. rewrite Hself. cbn [s_class]. rewrite Hcls, Hd.
  cbn [bind fst snd]. rewrite Hset. cbn [bind fst snd].
  destruct Hext2 as [Hlen2 Hold2].
  unfold set_fields. rewrite Hold3, Hold2, Hself by lia. cbn [bind s_class s_data].
  eexists. exists fs. split; [reflexivity|]. split_and!.
  - split; [rewrite length_insert; lia|]. intros l Hl.
    rewrite list_lookup_insert_ne by lia. rewrite Hold3, Hold2 by lia.
    by apply Hext1.
  - rewrite list_lookup_insert_eq; [done|lia].
  - eapply Forall2_impl; [exact (Forall2_and_Forall_l _ _ _ _ Hall3 Hfresh)|].
    intros t c [(Hk & l & y & f & Ht & Hc & Hl & Hg & Hy & Hlo) (l' & Hl' & Hg')].
    assert (l' = l) as -> by congruence. split; [done|].
    destruct (getattr_parent_is_field _ _ _ Hg') as [f' Hf'].
    pose proof (lookup_lt_Some _ _ _ Hf') as Hlt.
    exists l, y, f. split_and!; [done..| |done| |lia].
    + destruct Hext1 as [_ Hold1]. rewrite <- Hl. symmetry. by apply Hold1.
    + rewrite list_lookup_insert_ne by lia. done.
Qed.

(** *** [deepcopy] returns on a closed store *)

Lemma filter_length_mono {A} (f g : A -> bool) (l : list A) :
  (forall x, f x = true -> g x = true) ->
  length (List.filter f l) <= length (List.filter g l).
Proof.
  intros Hfg. induction l as [|x l IH]; simpl; [done|].
  destruct (f x) eqn:Hf.
  - rewrite (Hfg x Hf). simpl. lia.
  - destruct (g x); simpl; lia.
Qed.

Lemma filter_length_strict {A} (f g : A -> bool) (l : list A) x :
  (forall x, f x = true -> g x = true) ->
  x ∈ l -> f x = false -> g x = true ->
  length (List.filter f l) < length (List.filter g l).
Proof.
  intros Hfg Hx Hf Hg. induction Hx as [x l|x x' l Hx IH]; simpl.
  - rewrite Hf, Hg. simpl. pose proof (filter_length_mono f g l Hfg). lia.
  - specialize (IH Hf Hg). destruct (f x') eqn:Hf'.
    + rewrite (Hfg x' Hf'). simpl. lia.
    + destruct (g x'); simpl; lia.
Qed.

Lemma unvisited_mono n memo memo' :
  memo_le memo memo' -> unvisited n memo' <= unvisited n memo.
Proof.
  intros Hle. apply filter_length_mono. intros l.
  destruct (memo_get memo l) as [y|] eqn:Hl; [|done].
  by rewrite (Hle l y Hl).
Qed.

Lemma unvisited_cons_lt n memo x y :
  memo_get memo x = None -> x < n ->
  unvisited n ((x, y) :: memo) < unvisited n memo.
Proof.
  intros Hx Hlt. apply (filter_length_strict _ _ _ x).
  - intros l. simpl. destruct (Nat.eqb x l); [done|].
    by destruct (memo_get memo l).
  - rewrite list_elem_of_In, in_seq. lia.
  - simpl. by rewrite Nat.eqb_refl.
  - by rewrite Hx.
Qed.

Lemma memo_inv_insert h0 memo h y o o' :
  memo_inv body h0 (memo, h) ->
  h !! y = Some o ->
  (forall f, o = OField f -> exists f', o' = OField f') ->
  memo_inv body h0 (memo, <[y := o']> h).
Proof.
  intros Hinv Hy Hkind l y' Hl. destruct (Hinv l y' Hl) as [Hlt Hf]. simpl in *.
  rewrite length_insert. split; [done|]. intros Hl0.
  destruct (Hf Hl0) as [f Hf']. destruct (decide (y' = y)) as [->|Hne].
  - rewrite Hy in Hf'. injection Hf' as ->. destruct (Hkind f eq_refl) as [f' ->].
    exists f'. by apply list_lookup_insert_eq.
  - exists f. by rewrite list_lookup_insert_ne.
Qed.

Lemma memo_inv_extends h0 memo h h' :
  memo_inv body h0 (memo, h) -> extends body h h' -> memo_inv body h0 (memo, h').
Proof.
  intros Hinv [Hlen Hold] l y Hl. destruct (Hinv l y Hl) as [Hlt Hf]. simpl in *.
  split; [lia|]. intros Hl0. destruct (Hf Hl0) as [f Hf']. exists f.
  by rewrite Hold.
Qed.

Section DeepcopyTotal.
Variable h0 : list (obj body).
Hypothesis Hclosed : closed body h0.

Lemma deepcopy_dict_total k deep d memo h :
  returns body h0 k deep ->
  (forall l, l ∈ field_locs d -> l < length h0) ->
  extends body h0 h -> memo_inv body h0 (memo, h) ->
  unvisited (length h0) memo < k ->
  exists d' memo' h',
    deepcopy_dict body deep d (memo, h) = Ok (d', (memo', h')) /\
    extends body h h' /\ memo_inv body h0 (memo', h') /\ memo_le memo memo' /\
    Forall2 (copies_by memo') d d'.
Proof.
  intros Hdeep. unfold deepcopy_dict. revert memo h.
  induction d as [|[key v] d IH]; intros memo h Hlocs Hext Hinv Hk.
  - exists [], memo, h.
    split_and!; [done|apply extends_refl|done|by intros ??|constructor].
  - assert (forall l, l ∈ field_locs d -> l < length h0) as Hlocs'.
    { intros l Hl. apply Hlocs. unfold field_locs. simpl.
      apply elem_of_app. by right. }
    assert (exists v' memo1 h1,
              deepcopy_value body deep v (memo, h) = Ok (v', (memo1, h1)) /\
              extends body h h1 /\ memo_inv body h0 (memo1, h1) /\
              memo_le memo memo1 /\
              match v with
              | FieldInstance l =>
                  exists y, v' = FieldInstance y /\ memo_get memo1 l = Some y
              | _ => v' = v
              end) as (v' & memo1 & h1 & Hv & Hext1 & Hinv1 & Hle1 & Hv').
    { destruct v as [l|l|n|x]; simpl;
        try (eexists _, memo, h;
             split_and!; [done|apply extends_refl|done|by intros ??|done]).
      destruct (Hdeep l memo h) as (y & memo1 & h1 & -> & ? & ? & ? & ?);
        [done|done| |done|].
      - apply Hlocs. unfold field_locs. simpl. apply list_elem_of_here.
      - simpl. exists (FieldInstance y), memo1, h1. split_and!; [done..|].
        by exists y. }
    cbn [for_each_st fst snd]. rewrite Hv. cbn [bind fst snd].
    destruct (IH memo1 h1) as (d' & memo' & h' & -> & Hext' & Hinv' & Hle' & Hall);
      [done|by apply (extends_trans _ h)|done| |].
    { pose proof (unvisited_mono (length h0) _ _ Hle1). lia. }
    cbn [bind fst snd]. exists ((key, v') :: d'), memo', h'.
    split_and!; [done|by apply (extends_trans _ h1)|done| |].
    + intros l y Hl. by apply Hle', Hle1.
    + constructor; [|done]. split; [done|]. simpl.
      destruct v as [l|l|n|x]; try done.
      destruct Hv' as (y & -> & Hy). exists y. split; [done|by apply Hle'].
Qed.

Lemma deepcopy_total fuel : returns body h0 fuel (deepcopy body fuel).
Proof.
  induction fuel as [|fuel IH]; intros x memo h Hext Hinv Hx Hfuel; [lia|].
  simpl. destruct (memo_get memo x) as [y|] eqn:Hm.
  { exists y, memo, h. split_and!; [done|apply extends_refl|done|by intros ??|done]. }
  assert (exists o, h0 !! x = Some o) as [o Ho] by by apply lookup_lt_is_Some.
  assert (h !! x = Some o) as Hhx by (destruct Hext as [_ Hold]; by rewrite Hold).
  rewrite Hhx. pose proof (Hclosed x o Ho) as Hrefs.
  assert (unvisited (length h0) ((x, length h) :: memo) < fuel) as Hfuel1.
  { pose proof (unvisited_cons_lt (length h0) memo x (length h) Hm Hx). lia. }
  assert (forall o0, (forall f, o = OField f -> exists f0, o0 = OField f0) ->
            extends body h0 (h ++ [o0]) /\
            memo_inv body h0 ((x, length h) :: memo, h ++ [o0]) /\
            (h ++ [o0]) !! length h = Some o0) as Hstart.
  { intros o0 Hkind. split; [apply (extends_trans _ h); [done|apply extends_app]|].
    split; [|rewrite lookup_app_r by lia; by rewrite Nat.sub_diag].
    intros l y. simpl. rewrite length_app. simpl.
    destruct (Nat.eqb_spec x l) as [<-|Hne].
    - intros [= <-]. split; [lia|]. intros [f Hf]. rewrite Ho in Hf.
      injection Hf as ->. destruct (Hkind f eq_refl) as [f0 ->]. exists f0.
      rewrite lookup_app_r by lia. by rewrite Nat.sub_diag.
    - intros Hl. destruct (Hinv l y Hl) as [Hlt Hf]. simpl in *. split; [lia|].
      intros Hl0. destruct (Hf Hl0) as [f Hf']. exists f. by apply lookup_app_l_Some. }
  destruct o as [f|s]; unfold alloc.
  - destruct (Hstart (OField (Field None (f_mro f) (f_body f))))
      as (Hext1 & Hinv1 & Hnew); [by eexists|].
    destruct (f_parent f) as [[p|]|] eqn:Hp.
    + destruct Hrefs as [Hrefs _].
      destruct (IH p _ _ Hext1 Hinv1) as (p' & memo2 & h2 & -> & Hext2 & Hinv2 & Hle2 & Hp');
        [by apply Hrefs|done|].
      cbn [bind fst snd]. eexists _, _, _. split; [reflexivity|].
      assert (h2 !! length h = Some (OField (Field None (f_mro f) (f_body f)))) as Hy.
      { destruct Hext2 as [_ Hold2]. rewrite Hold2 by (rewrite length_app; simpl; lia).
        done. }
      split_and!.
      * apply extends_insert_new; [|done].
        eapply extends_trans; [apply extends_app|done].
      * eapply memo_inv_insert; [done..|]. intros; by eexists.
      * intros l y Hl. apply Hle2. by apply memo_le_cons.
      * apply Hle2. simpl. by rewrite Nat.eqb_refl.
    + eexists _, _, _. split; [reflexivity|]. cbn [fst]. split_and!.
      * apply extends_insert_new; [apply extends_app|done].
      * eapply memo_inv_insert; [done..|]. intros; by eexists.
      * by apply memo_le_cons.
      * simpl. by rewrite Nat.eqb_refl.
    + eexists _, _, _. split; [reflexivity|]. split_and!.
      * apply extends_app.
      * done.
      * by apply memo_le_cons.
      * simpl. by rewrite Nat.eqb_refl.
  - destruct (Hstart (OSerializer (SerializerObj (s_class s) (s_data s) None)))
      as (Hext1 & Hinv1 & Hnew); [done|].
    destruct (s_fields s) as [fields|] eqn:Hfs.
    + destruct (deepcopy_dict_total fuel (deepcopy body fuel) fields
                  ((x, length h) :: memo)
                  (h ++ [OSerializer (SerializerObj (s_class s) (s_data s) None)])
                  IH)
        as (d' & memo2 & h2 & -> & Hext2 & Hinv2 & Hle2 & _);
        [by apply Hrefs|done..|].
      cbn [bind fst snd]. eexists _, _, _. split; [reflexivity|].
      assert (h2 !! length h
              = Some (OSerializer (SerializerObj (s_class s) (s_data s) None))) as Hy.
      { destruct Hext2 as [_ Hold2]. rewrite Hold2 by (rewrite length_app; simpl; lia).
        done. }
      split_and!.
      * apply extends_insert_new; [|done].
        eapply extends_trans; [apply extends_app|done].
      * eapply memo_inv_insert; [done..|]. by intros.
      * intros l y Hl. apply Hle2. by apply memo_le_cons.
      * apply Hle2. simpl. by rewrite Nat.eqb_refl.
    + eexists _, _, _. split; [reflexivity|]. split_and!.
      * apply extends_app.
      * done.
      * by apply memo_le_cons.
      * simpl. by rewrite Nat.eqb_refl.
Qed.

End DeepcopyTotal.

Lemma unvisited_le n memo : unvisited n memo <= n.
Proof.
  unfold unvisited. etransitivity; [apply List.filter_length_le|].
  by rewrite length_seq.
Qed.

(** [.parent] can be read on the copy of a field instance where it can be
    read on the original. *)
Lemma field_copy_readable h h' memo l y f fc v :
  extends body h h' ->
  h !! l = Some (OField f) ->
  getattr_parent body h l = Ok v ->
  h' !! y = Some (OField fc) ->
  field_copy body memo f fc ->
  exists v', getattr_parent body h' y = Ok v'.
Proof.
  intros [_ Hold] Hl Hg Hy (Hmro & _ & Hp). unfold getattr_parent in *.
  rewrite Hl in Hg. rewrite Hy.
  destruct (f_parent f) as [[p|]|].
  - destruct Hp as (p' & -> & _). by eexists.
  - rewrite Hp. by eexists.
  - rewrite Hp, Hmro. exists v. by eapply lookup_parent_extends.
Qed.

(** The deep copy of a template of field objects is a mapping of field
    objects. *)
Lemma deepcopy_dict_fields_in fuel template h fs memo h' :
  deepcopy_dict body (deepcopy body fuel) template ([], h) = Ok (fs, (memo, h')) ->
  fields_in body h template ->
  fields_in body h' fs /\ Forall2 (copies_by memo) template fs /\
  memo_fresh body (length h) (memo, h').
Proof.
  intros Hd Hin.
  pose proof (deepcopy_dict_extends _ _ _ _ _
                (fun x st0 y st1 => deepcopy_extends fuel x st0 y st1) Hd) as Hext.
  cbn [snd] in Hext.
  destruct (deepcopy_dict_memo (length h) _ _ _ _ _ _ _
              (fun x m0 h0 y m1 h1 => deepcopy_memo (length h) fuel x m0 h0 y m1 h1)
              Hd)
    as (Hf & _ & _ & Hall); [done|split; by intros|].
  split; [|done].
  eapply Forall2_Forall_r_impl; [exact (Forall2_and_Forall_l _ _ _ _ Hall Hin)|].
  intros [k t] [k' c] [[_ Hc] (l & Hl & v & Hg)]. cbn [fst snd] in *.
  destruct Hl as [-> | ->].
  - destruct Hc as (y & -> & Hy). exists y. split; [by left|].
    destruct (getattr_parent_is_field _ _ _ Hg) as [f Hlf].
    destruct (deepcopy_dict_completes fuel _ _ _ _ _ _ (deepcopy_completes fuel) Hd)
      with (l := l) (y0 := y) as [_ Hcopy]; [split; by intros|done|done|].
    destruct (Hcopy f Hlf) as (fc & Hfc & Hrel).
    by eapply field_copy_readable.
  - subst c. exists l. split; [by right|]. exists v.
    eapply getattr_parent_extends; [apply Hext|done].
Qed.

(** On a closed store, with a template of field objects of the store,
    [cls(data)] returns: the recursion of [deepcopy] is never cut short and
    no attribute is missing. *)
Lemma new_total (cls : pyclass loc) template (data : value) h :
  _base_fields cls = Some template ->
  closed body h ->
  fields_in body h template ->
  exists self h', new body cls data h = Ok (self, h').
Proof.
  intros Hcls Hclosed Hin. unfold new, alloc, __init__, set_data.
  rewrite lookup_app_r by lia. rewrite Nat.sub_diag.
  cbn [lookup list_lookup bind s_class s_fields]. rewrite insert_last.
  set (h1 := h ++ [OSerializer (SerializerObj cls (Some data) None)]).
  assert (length h1 = S (length h)) as Hlen1.
  { unfold h1. rewrite length_app. simpl. lia. }
  assert (h1 !! length h = Some (OSerializer (SerializerObj cls (Some data) None)))
    as Hself.
  { unfold h1. rewrite lookup_app_r by lia. by rewrite Nat.sub_diag. }
  assert (extends body h h1) as Hext1 by apply extends_app.
  assert (closed body h1) as Hclosed1.
  { intros l o Hl. destruct (decide (l = length h)) as [->|Hne].
    - rewrite Hself in Hl. injection Hl as <-. by intros d [=].
    - pose proof (lookup_lt_Some _ _ _ Hl) as Hlt. destruct Hext1 as [_ Hold].
      rewrite Hold in Hl by lia. specialize (Hclosed l o Hl).
      destruct o as [f|s]; simpl in *.
      + destruct Hclosed as [Hp Hmro]. split.
        * intros p Hp'. specialize (Hp p Hp'). lia.
        * intros c Hc. specialize (Hmro c Hc). lia.
      + intros d Hd l' Hl'. specialize (Hclosed d Hd l' Hl'). lia. }
  assert (fields_in body h1 template) as Hin1.
  { eapply Forall_impl; [exact Hin|]. intros kv (l & Hkv & v & Hl).
    exists l. split; [done|]. exists v.
    eapply getattr_parent_extends; [apply Hext1|done]. }
  destruct (deepcopy_dict_total h1 (S (length h1))
              (deepcopy body (S (length h1)))
              template [] h1 (deepcopy_total h1 Hclosed1 _))
    as (fs & memo & h2 & Hd & Hext2 & _ & _ & _).
  { intros l (kv & Hkv & Hl)%elem_of_field_locs.
    destruct (proj1 (Forall_forall _ _) Hin1 kv Hkv) as (l' & Hl' & v & Hg).
    apply getattr_parent_is_field in Hg as [f Hf]. apply lookup_lt_Some in Hf.
    destruct Hl as [Hl|Hl]; rewrite Hl in Hl'; destruct Hl' as [[= ->]|[= ->]]; done. }
  { apply extends_refl. }
  { by intros l y. }
  { pose proof (unvisited_le (length h1) []). lia. }
  destruct (deepcopy_dict_fields_in _ _ _ _ _ _ Hd Hin1) as (Hin2 & _).
  destruct (set_parents_total (length h) fs h2 Hin2) as [h3 Hset].
  apply set_parents_frame in Hset as Hframe. destruct Hframe as [Hlen3 Hser].
  unfold get_fields. rewrite Hself. cbn [s_class]. rewrite Hcls, Hd.
  cbn [bind fst snd]. rewrite Hset. cbn [bind fst snd].
  unfold set_fields. destruct Hext2 as [Hlen2 Hold2].
  erewrite (Hser (length h)); [|rewrite Hold2; [exact Hself|lia]].
  cbn [bind]. by eexists _, _.
Qed.

(** C8, as the code has it: when the compiled template of the schema
    holds field instances only (no field class), on each of which
    [.parent] gives [None] (no parent is set on the instance or on a class
    it looks attributes up in), two instances made one after the other
    have field mappings with the names, the order and the field contents
    of the template, share no field object with each other or with the
    template, read their own instance as the parent of each field, and
    leave the template's field objects, and what [.parent] gives on them,
    as they were. *)
Theorem fresh_template_gives_independent_instances (cls : pyclass loc)
    template (data1 data2 : value) h :
  _base_fields cls = Some template ->
  fresh_instances body h template ->
  independent_instances body h cls data1 data2.
Proof.
  intros Hcls Hfresh.
  destruct (new_fresh cls template data1 h Hcls Hfresh)
    as (h1 & fs1 & Hnew1 & Hext1 & Hs1 & Hall1).
  assert (fresh_instances body h1 template) as Hfresh1.
  { eapply Forall_impl; [exact Hfresh|]. intros kv (l & Hkv & Hl).
    exists l. split; [done|]. eapply getattr_parent_extends; [apply Hext1|done]. }
  destruct (new_fresh cls template data2 h1 Hcls Hfresh1)
    as (h2 & fs2 & Hnew2 & Hext2 & Hs2 & Hall2).
  pose proof (lookup_lt_Some _ _ _ Hs1) as Hlt1.
  pose proof (lookup_lt_Some _ _ _ Hs2) as Hlt2.
  destruct Hext1 as [Hlen1 Hold1]. destruct Hext2 as [Hlen2 Hold2].
  assert (forall t c, copy_of body h h1 (S (length h)) (Some (length h)) t c ->
            fst t = fst c /\
            exists l y f, snd t = FieldInstance l /\ snd c = FieldInstance y /\
              h !! l = Some (OField f) /\
              h2 !! y = Some (OField (Field (Some (Some (length h))) (f_mro f)
                                        (f_body f))) /\
              length h < y < length h1) as Hfact1.
  { intros t c (Hk & l & y & f & Ht & Hc & Hl & Hg & Hy & Hlo). split; [done|].
    pose proof (lookup_lt_Some _ _ _ Hy).
    exists l, y, f. split_and!; [done..| |lia|lia]. by rewrite Hold2. }
  assert (forall t c, copy_of body h1 h2 (S (length h1)) (Some (length h1)) t c ->
            fst t = fst c /\
            exists l y f, snd t = FieldInstance l /\ snd c = FieldInstance y /\
              h1 !! l = Some (OField f) /\
              h2 !! y = Some (OField (Field (Some (Some (length h1))) (f_mro f)
                                        (f_body f))) /\
              length h1 < y) as Hfact2.
  { intros t c (Hk & l & y & f & Ht & Hc & Hl & Hg & Hy & Hlo). split; [done|].
    exists l, y, f. split_and!; [done..|lia]. }
  assert (forall l, l ∈ field_locs template -> l < length h) as Htemplate.
  { intros l (kv & Hkv & Hl)%elem_of_field_locs.
    destruct (proj1 (Forall_forall _ _) Hfresh kv Hkv) as (l' & Hl' & Hg).
    apply getattr_parent_is_field in Hg as [f Hf].
    apply lookup_lt_Some in Hf. rewrite Hl' in Hl. by destruct Hl as [[= ->]|[=]]. }
  assert (forall l, l ∈ field_locs fs1 -> length h < l < length h1) as Hlocs1.
  { intros l (c & Hc & Hl)%elem_of_field_locs.
    destruct (Forall2_elem_of_r _ _ _ _ Hall1 Hc) as (t & _ & Htc).
    apply Hfact1 in Htc as (_ & l' & y & f & _ & Hy & _ & _ & Hrange).
    rewrite Hy in Hl. by destruct Hl as [[= ->]|[=]]. }
  assert (forall l, l ∈ field_locs fs2 -> length h1 < l) as Hlocs2.
  { intros l (c & Hc & Hl)%elem_of_field_locs.
    destruct (Forall2_elem_of_r _ _ _ _ Hall2 Hc) as (t & _ & Htc).
    apply Hfact2 in Htc as (_ & l' & y & f & _ & Hy & _ & _ & Hrange).
    rewrite Hy in Hl. by destruct Hl as [[= ->]|[=]]. }
  exists template, (length h), h1, (length h1), h2, fs1, fs2.
  split_and!; [done|done|done|lia| | | | | | | | |].
  - unfold fields_of. rewrite Hold2, Hs1 by done. done.
  - unfold fields_of. by rewrite Hs2.
  - eapply Forall2_impl; [exact Hall1|]. intros t c Htc.
    apply Hfact1 in Htc as (Hk & l & y & f & Ht & Hc & Hl & Hy & _).
    split; [done|]. rewrite Ht, Hc. simpl. rewrite Hl, Hy. by eexists _, _.
  - eapply Forall2_impl; [exact (Forall2_and_Forall_l _ _ _ _ Hall2 Hfresh)|].
    intros t c [Htc (l0 & Ht0 & Hg0)].
    apply Hfact2 in Htc as (Hk & l & y & f & Ht & Hc & Hl & Hy & _).
    split; [done|]. rewrite Ht, Hc. simpl.
    assert (l0 = l) as -> by congruence.
    apply getattr_parent_is_field in Hg0 as [f0 Hl0]. rewrite Hl0, Hy.
    pose proof (lookup_lt_Some _ _ _ Hl0).
    rewrite Hold1 in Hl by done. eexists _, _. split_and!; [done..|]. simpl.
    congruence.
  - intros l Hl1 Hl2. apply Hlocs1 in Hl1. apply Hlocs2 in Hl2. lia.
  - intros l Hl Ht. apply Htemplate in Ht.
    apply elem_of_app in Hl as [Hl|Hl]; [apply Hlocs1 in Hl|apply Hlocs2 in Hl]; lia.
  - eapply Forall2_Forall_r_impl; [exact Hall1|]. intros t c Htc.
    apply Hfact1 in Htc as (_ & l & y & f & _ & Hc & _ & Hy & _).
    rewrite Hc. simpl. by eapply getattr_parent_own.
  - eapply Forall2_Forall_r_impl; [exact Hall2|]. intros t c Htc.
    apply Hfact2 in Htc as (_ & l & y & f & _ & Hc & _ & Hy & _).
    rewrite Hc. simpl. by eapply getattr_parent_own.
  - eapply Forall_impl; [exact Hfresh|]. intros kv (l & Hkv & Hg).
    assert (forall l0, l0 < length h -> h2 !! l0 = h !! l0) as Hold.
    { intros l0 Hl0. rewrite Hold2, Hold1 by lia. done. }
    destruct (getattr_parent_is_field _ _ _ Hg) as [f Hl].
    pose proof (lookup_lt_Some _ _ _ Hl). rewrite Hkv. simpl.
    rewrite Hold by done. split; [done|].
    rewrite Hg. by eapply getattr_parent_extends.
Qed.

Variable output : list (obj body) -> pyobj loc -> string -> value -> result value.

Lemma leaf_scalar (data src : value) :
  leaf data src -> _is_iterable_but_not_string src = false.
Proof. by induction 1. Qed.

Lemma mem_first_occurrences k ks : mem k (first_occurrences ks) = mem k ks.
Proof.
  destruct (mem k ks) eqn:H.
  - apply mem_spec. apply elem_of_first_occurrences. by apply mem_spec.
  - apply mem_false. rewrite elem_of_first_occurrences. by apply mem_false.
Qed.

(** C1: for a schema whose body declares the fields [[f1..fn]], the
    compiled field mapping has the inherited names, then the declared
    names that are not inherited, in the order of their declaration: the
    declared names [[f1..fn]], in order, when no base contributes a field.
    On a closed store that holds the field objects, an instance is built
    on any input value. For an instance built, [.data] on an input that is
    not gone through as a sequence is the mapping that binds each name of
    the compiled mapping, in its order, to the output of the field; on any
    input, what [.data] returns has the shape of the input, every mapping
    in it with exactly these keys in this order (for a sequence: one
    mapping for each element); and [.data] does return when the input can
    be iterated where it is taken for a sequence and the fields of the
    instance return an output on the source objects reached. *)
Theorem data_keys_in_declared_order (name : string) bases attrs cls
    (data : value) h :
  NoDup (keys attrs) ->
  SerializerMeta_new loc name bases attrs = Ok cls ->
  exists fields,
    _base_fields cls = Some fields /\
    keys fields
    = first_occurrences (keys (inherited_of loc bases ++ declared_of loc attrs)) /\
    keys fields
    = first_occurrences (keys (inherited_of loc bases))
      ++ List.filter (fun k => negb (mem k (keys (inherited_of loc bases))))
           (keys (declared_of loc attrs)) /\
    (inherited_of loc bases = [] -> keys fields = keys (declared_of loc attrs)) /\
    (closed body h -> fields_in body h fields ->
     exists self h', new body cls data h = Ok (self, h')) /\
    (forall self h', new body cls data h = Ok (self, h') ->
       exists fs,
         fields_of body h' self = Some fs /\
         keys fs = keys fields /\
         (forall r, Instances.data body output self h' = Ok r ->
                    shaped (keys fields) data r) /\
         (_is_iterable_but_not_string data = false ->
          Instances.data body output self h'
          = rmap MDict
              (for_each (fun kv => rmap (fun x => (fst kv, MVal x))
                                     (output h' (snd kv) (fst kv) data)) fs)) /\
         (iterates data ->
          (forall src k v, leaf data src -> (k, v) ∈ fs ->
                           exists x, output h' v k src = Ok x) ->
          exists r, Instances.data body output self h' = Ok r /\
                    shaped (keys fields) data r)).
Proof.
  intros Hnd Hcls. unfold SerializerMeta_new in Hcls.
  rewrite _get_declared_fields_merged in Hcls by done. injection Hcls as <-.
  assert (NoDup (keys (declared_of loc attrs))) as Hnd_decl.
  { by apply NoDup_keys_filter. }
  eexists. split; [reflexivity|]. split; [apply keys_OrderedDict|]. split.
  { rewrite keys_OrderedDict, keys_app, first_occurrences_app.
    rewrite (first_occurrences_NoDup (keys (declared_of loc attrs))) by done.
    f_equal. apply filter_ext. intros k. by rewrite mem_first_occurrences. }
  split.
  { intros ->. by rewrite OrderedDict_NoDup. }
  split.
  { intros Hclosed Hin. by eapply new_total. }
  intros self h' Hnew.
  apply new_inv in Hnew as (template & fs & Ht & -> & Hself & Hkeys).
  injection Ht as <-. exists fs.
  assert (NoDup (keys fs)) as Hnd_fs.
  { rewrite Hkeys. apply NoDup_keys_OrderedDict. }
  assert (keys (map (fun kv : string * pyobj loc => (fst kv, FField (snd kv))) fs)
          = keys fs) as Hk.
  { unfold keys. rewrite map_map. by apply map_ext. }
  assert (forall r,
            marshal (pyobj loc) (output h') data
              (map (fun kv => (fst kv, FField (snd kv))) fs) = Ok r ->
            shaped (keys (OrderedDict (inherited_of loc bases ++ declared_of loc attrs)))
              data r) as Hshape.
  { intros r Hr. apply marshal_shaped in Hr. rewrite Hk in Hr.
    by rewrite first_occurrences_NoDup, Hkeys in Hr. }
  unfold Instances.data, to_data, fields_of. rewrite Hself. cbn [s_data s_fields].
  split_and!; [done|done|exact Hshape| |].
  - intros Hsc. by apply marshal_flat.
  - intros Hit Hout.
    destruct (marshal_returns (output h') data
                (map (fun kv => (fst kv, FField (snd kv))) fs) Hit) as [r Hr].
    + intros src Hsrc. rewrite marshal_flat by by eauto using leaf_scalar.
      destruct (for_each_total
                  (fun kv => rmap (fun x => (fst kv, MVal x))
                               (output h' (snd kv) (fst kv) src)) fs)
        as [rs Hrs]; [|rewrite Hrs; by eexists].
      intros [k v] Hkv. destruct (Hout src k v Hsrc Hkv) as [x Hx].
      cbn [fst snd]. rewrite Hx. by eexists.
    + exists r. split; [done|by apply Hshape].
Qed.

End StoreFacts.


(** ** The properties on concrete schemas *)

Section Concrete.
Import Examples.

Ltac decide_it := apply (bool_decide_unpack _); vm_compute; exact I.

(** The scenario of the inheritance order: [A] declares [a1, a2], [B]
    declares [b1]. *)
Lemma inherited_then_declared_witness :
  NoDup (keys attrsA) /\ NoDup (keys attrsB) /\
  NoDup (keys (declared_of string attrsA) ++ keys (declared_of string attrsB)) /\
  exists A B,
    SerializerMeta_new string "A" [Serializer] attrsA = Ok A /\
    SerializerMeta_new string "B" [A] attrsB = Ok B /\
    _base_fields A = Some [("a1", FieldInstance "A.a1"); ("a2", FieldInstance "A.a2")] /\
    _base_fields B
    = Some [("a1", FieldInstance "A.a1"); ("a2", FieldInstance "A.a2");
            ("b1", FieldInstance "B.b1")].
Proof.
  assert (NoDup (keys attrsA)) as H1 by decide_it.
  assert (NoDup (keys attrsB)) as H2 by decide_it.
  assert (NoDup (keys (declared_of string attrsA)
                 ++ keys (declared_of string attrsB))) as H3 by decide_it.
  split_and!; [done..|].
  exact (inherited_then_declared "A" "B" attrsA attrsB H1 H2 H3).
Defined.

(** [B] declares [a1] again: the name stays first, before [a2], so it does
    not come after every other name. *)
Lemma override_goes_last_counterexample :
  exists B,
    SerializerMeta_new string "B" [A_class] attrsB_again = Ok B /\
    _base_fields B
    = Some [("a1", FieldInstance "B.a1"); ("a2", FieldInstance "A.a2")] /\
    ~ override_goes_last string A_class attrsB_again B.
Proof.
  eexists. split; [reflexivity|]. split; [reflexivity|]. intros Hlast.
  destruct (Hlast attrsA _ "a1" eq_refl eq_refl) with (k' := "a2")
    as (i & j & Hi & Hj & Hlt); [decide_it..|done|].
  destruct i as [|[|[|i]]]; destruct j as [|[|[|j]]]; simpl in *;
    try discriminate; lia.
Qed.

Lemma override_keeps_inherited_position_witness :
  _base_fields A_class = Some attrsA /\
  NoDup (keys attrsA) /\ NoDup (keys attrsB_again) /\
  exists B fieldsB,
    SerializerMeta_new string "B" [A_class] attrsB_again = Ok B /\
    _base_fields B = Some fieldsB /\
    keys fieldsB = ["a1"; "a2"] /\
    forall k v, (k, v) ∈ declared_of string attrsB_again ->
      dict_get fieldsB k = Some v /\
      forall i, keys attrsA !! i = Some k -> keys fieldsB !! i = Some k.
Proof.
  assert (NoDup (keys attrsA)) as H1 by decide_it.
  assert (NoDup (keys attrsB_again)) as H2 by decide_it.
  split_and!; [done..|].
  exact (override_keeps_inherited_position A_class attrsA "B" attrsB_again
           eq_refl H1 H2).
Defined.

Lemma duplicate_name_later_value_first_position_witness :
  NoDup (keys attrsB_again) /\
  exists fields attrs',
    _get_declared_fields string [A_class] attrsB_again = Ok (fields, attrs') /\
    fields = [("a1", FieldInstance "B.a1"); ("a2", FieldInstance "A.a2")] /\
    keys fields = ["a1"; "a2"] /\
    (forall k, dict_get fields k
               = last_binding (attrsA ++ [("a1", FieldInstance "B.a1")]) k) /\
    (forall k v1 v2 l1 l2 l3,
       attrsA ++ [("a1", FieldInstance "B.a1")]
       = l1 ++ (k, v1) :: l2 ++ (k, v2) :: l3 ->
       k ∉ keys l1 -> k ∉ keys l3 ->
       dict_get fields k = Some v2 /\
       keys fields !! length (first_occurrences (keys l1)) = Some k).
Proof.
  assert (NoDup (keys attrsB_again)) as H by decide_it.
  split; [done|].
  exact (duplicate_name_later_value_first_position [A_class] attrsB_again H).
Defined.

(** The city is looked up on the resident, not on an attribute
    ["address"] of the resident: the call returns, with the city of the
    resident under ["address"]. *)
Lemma marshal_nested_same_data_witness :
  _is_iterable_but_not_string resident = false /\
  NoDup (keys resident_fields) /\
  ("address", FDict address_fields) ∈ resident_fields /\
  marshal string raw_output resident address_fields
  = Ok (MDict [("city", MVal (VStr "London"))]) /\
  exists d,
    marshal string raw_output resident resident_fields = Ok (MDict d) /\
    dict_get d "address" = Some (MDict [("city", MVal (VStr "London"))]) /\
    keys d = keys resident_fields.
Proof.
  assert (NoDup (keys resident_fields)) as H by decide_it.
  assert (("address", FDict address_fields) ∈ resident_fields) as Hin.
  { apply list_elem_of_further, list_elem_of_here. }
  split_and!; [done..|reflexivity|].
  pose proof (marshal_nested_same_data raw_output resident resident_fields
                "address" address_fields eq_refl H Hin) as (_ & Hret & _).
  apply (Hret _ eq_refl). intros k v Hkv Hne.
  apply elem_of_cons in Hkv as [[= -> ->]|Hkv]; [by eexists|].
  apply list_elem_of_singleton in Hkv as [= -> ->]. done.
Defined.

Example marshal_resident :
  marshal string raw_output resident resident_fields
  = Ok (MDict [("name", MVal (VStr "Ada"));
               ("address", MDict [("city", MVal (VStr "London"))])]).
Proof. reflexivity. Qed.

Example store0_well_formed :
  closed string store0 /\
  fields_in string store0 [("name", FieldInstance 0); ("age", FieldInstance 1)] /\
  iterates (VList [ada; bob]).
Proof.
  split_and!.
  - intros [|[|[|[|[|l]]]]] o [= <-]; (split; [by intros p [=]|]);
      intros c Hc; repeat (apply elem_of_cons in Hc as [->|Hc]; [simpl; lia|]);
      by apply elem_of_nil in Hc.
  - repeat constructor; eexists; (split; [by left|by eexists]).
  - eapply iterates_seq; [done..|]. repeat constructor.
Qed.

(** The scenario of the spec: [Person] with [name] and [age], on Ada. *)
Example person_data :
  exists self h',
    new string Person ada store0 = Ok (self, h') /\
    data string store_output self h'
    = Ok (MDict [("name", MVal (VStr "Ada")); ("age", MVal (VInt 36))]).
Proof. eexists _, _. split; reflexivity. Qed.

Example person_data_list :
  exists self h',
    new string Person (VList [ada; bob]) store0 = Ok (self, h') /\
    data string store_output self h'
    = Ok (MList [MDict [("name", MVal (VStr "Ada")); ("age", MVal (VInt 36))];
                 MDict [("name", MVal (VStr "Bob")); ("age", MVal (VInt 41))]]).
Proof. eexists _, _. split; reflexivity. Qed.

(** [Person] on Ada, and on the list of Ada and Bob: the instance is
    built and [.data] returns; for Ada it is the mapping of [name] and
    [age], in that order, for the list a list of two such mappings. *)
Lemma data_keys_in_declared_order_witness :
  NoDup (keys person_attrs) /\
  SerializerMeta_new loc "Person" [Serializer] person_attrs = Ok Person /\
  (exists self h',
     new string Person ada store0 = Ok (self, h') /\
     data string store_output self h'
     = Ok (MDict [("name", MVal (VStr "Ada")); ("age", MVal (VInt 36))])) /\
  (exists self h' r,
     new string Person (VList [ada; bob]) store0 = Ok (self, h') /\
     data string store_output self h' = Ok r /\
     shaped ["name"; "age"] (VList [ada; bob]) r).
Proof.
  assert (NoDup (keys person_attrs)) as H by decide_it.
  destruct store0_well_formed as (Hclosed & Hin & Hit).
  split; [done|]. split; [reflexivity|]. split.
  - destruct (data_keys_in_declared_order store_output "Person" [Serializer]
                person_attrs Person ada store0 H eq_refl)
      as (fields & Hfields & _ & _ & _ & Hnew & Hdata).
    injection Hfields as <-.
    destruct (Hnew Hclosed Hin) as (self & h' & Hbuilt).
    destruct (Hdata self h' Hbuilt) as (fs & Hfs & _ & _ & Hrecord & _).
    exists self, h'. split; [done|]. rewrite (Hrecord eq_refl).
    vm_compute in Hbuilt. injection Hbuilt as <- <-.
    vm_compute in Hfs. by injection Hfs as <-.
  - destruct (data_keys_in_declared_order store_output "Person" [Serializer]
                person_attrs Person (VList [ada; bob]) store0 H eq_refl)
      as (fields & Hfields & _ & _ & _ & Hnew & Hdata).
    injection Hfields as <-.
    destruct (Hnew Hclosed Hin) as (self & h' & Hbuilt).
    destruct (Hdata self h' Hbuilt) as (fs & Hfs & Hkeys & _ & _ & Hreturns).
    destruct (Hreturns Hit) as (r & Hr & Hshape).
    { intros src k v Hsrc Hkv.
      assert (k ∈ ["name"; "age"]) as Hk.
      { change (k ∈ keys [("name", FieldInstance 0); ("age", FieldInstance 1)]).
        rewrite <- Hkeys. apply list_elem_of_fmap. by exists (k, v). }
      assert (src = ada \/ src = bob) as Hcases.
      { inversion Hsrc as [? Hsc|? items x ? _ Hel Hx Hleaf]; subst; [done|].
        injection Hel as <-.
        assert (_is_iterable_but_not_string x = false) as Hxs.
        { apply elem_of_cons in Hx as [->|Hx]; [done|].
          by apply list_elem_of_singleton in Hx as ->. }
        inversion Hleaf as [? _|? ? ? ? Hseq]; subst; [|congruence].
        apply elem_of_cons in Hx as [->|Hx]; [by left|].
        apply list_elem_of_singleton in Hx as ->. by right. }
      apply elem_of_cons in Hk as [->|Hk];
        [|apply list_elem_of_singleton in Hk as ->];
        destruct Hcases as [-> | ->]; by eexists. }
    by exists self, h', r.
Defined.

(** The field of [Label] is the class [fields.String], which
    [copy.deepcopy] returns as it is: both instances hold the class object
    itself, the first instance (address 5) is its parent for good, and the
    template's object has been written to. The field of [Badge] has a
    parent already: its copy keeps a copy of that parent (address 6) and
    does not get the new instance (address 4). And once [Label("x")] has
    written the class [fields.String], [.parent] on every [String()]
    instance that has no parent of its own gives that [Label] instance:
    the [name] field of a [Person] built afterwards (address 6, its
    fields at 7 and 8), from a template of field instances only, reads
    the [Label] instance as its parent, not the [Person]. *)
Lemma shared_field_class_counterexample :
  SerializerMeta_new loc "Label" [Serializer] label_attrs = Ok Label /\
  (exists h1 h2,
     new string Label (VStr "x") store0 = Ok (5, h1) /\
     new string Label (VStr "y") h1 = Ok (6, h2) /\
     fields_of string h2 5 = Some [("name", FieldClass 2)] /\
     fields_of string h2 6 = Some [("name", FieldClass 2)] /\
     parent_of string h2 (FieldClass 2) = Ok (Some 5) /\
     parent_of string store0 (FieldClass 2) = Ok None) /\
  ~ independent_instances string store0 Label (VStr "x") (VStr "y") /\
  (exists h1,
     new string Badge ada store_owned = Ok (4, h1) /\
     fields_of string h1 4 = Some [("name", FieldInstance 5)] /\
     parent_of string h1 (FieldInstance 5) = Ok (Some 6)) /\
  ~ independent_instances string store_owned Badge ada bob /\
  new string Label (VStr "x") store0 = Ok (5, store_labelled) /\
  store_labelled !! 0 = store0 !! 0 /\
  parent_of string store0 (FieldInstance 0) = Ok None /\
  parent_of string store_labelled (FieldInstance 0) = Ok (Some 5) /\
  (exists h2,
     new string Person ada store_labelled = Ok (6, h2) /\
     fields_of string h2 6
     = Some [("name", FieldInstance 7); ("age", FieldInstance 8)] /\
     parent_of string h2 (FieldInstance 7) = Ok (Some 5) /\
     parent_of string h2 (FieldInstance 8) = Ok (Some 6)) /\
  ~ independent_instances string store_labelled Person ada bob.
Proof.
  split; [reflexivity|]. split.
  { eexists _, _. split_and!; vm_compute; reflexivity. }
  split.
  { intros (template & s1 & h1 & s2 & h2 & fs1 & fs2 & Ht & Hn1 & Hn2 & _
            & Hf1 & Hf2 & _ & _ & Hshare & _).
    vm_compute in Hn1. injection Hn1 as <- <-.
    vm_compute in Hn2. injection Hn2 as <- <-.
    vm_compute in Hf1, Hf2. injection Hf1 as <-. injection Hf2 as <-.
    apply (Hshare 2); apply list_elem_of_here. }
  split.
  { eexists. split_and!; vm_compute; reflexivity. }
  split.
  { intros (template & s1 & h1 & s2 & h2 & fs1 & fs2 & Ht & Hn1 & Hn2 & _
            & Hf1 & Hf2 & _ & _ & _ & _ & Hparent & _).
    vm_compute in Hn1. injection Hn1 as <- <-.
    vm_compute in Hn2. injection Hn2 as <- <-.
    vm_compute in Hf1. injection Hf1 as <-.
    apply Forall_cons in Hparent as [Hparent _]. vm_compute in Hparent. done. }
  split_and!; try (vm_compute; reflexivity).
  { eexists. split_and!; vm_compute; reflexivity. }
  intros (template & s1 & h1 & s2 & h2 & fs1 & fs2 & Ht & Hn1 & Hn2 & _
          & Hf1 & Hf2 & _ & _ & _ & _ & Hparent & _).
  vm_compute in Hn1. injection Hn1 as <- <-.
  vm_compute in Hn2. injection Hn2 as <- <-.
  vm_compute in Hf1. injection Hf1 as <-.
  apply Forall_cons in Hparent as [Hparent _]. vm_compute in Hparent. done.
Qed.

Lemma fresh_template_gives_independent_instances_witness :
  _base_fields Person = Some [("name", FieldInstance 0); ("age", FieldInstance 1)] /\
  fresh_instances string store0 [("name", FieldInstance 0); ("age", FieldInstance 1)] /\
  independent_instances string store0 Person ada bob.
Proof.
  assert (fresh_instances string store0
            [("name", FieldInstance 0); ("age", FieldInstance 1)]) as H.
  { repeat constructor; eexists; split; reflexivity. }
  split; [done|]. split; [done|].
  exact (fresh_template_gives_independent_instances Person _ ada bob store0 eq_refl H).
Defined.

End Concrete.

(** ** validate.email *)

Lemma split_on_not_nil sep s : split_on sep s <> [].
Proof.
  destruct s as [|c s]; simpl; [done|].
  destruct (Ascii.eqb c sep); [done|]. by destruct (split_on sep s).
Qed.

Lemma split_on_one sep s part :
  split_on sep s = [part] <-> part = s /\ contains sep s = false.
Proof.
  revert part. induction s as [|c s IH]; intros part; simpl.
  - split; [by intros [= <-]|by intros [-> _]].
  - destruct (Ascii.eqb c sep) eqn:Hc; simpl.
    + split; [|by intros [_ ?]]. intros [= _ H]. by apply split_on_not_nil in H.
    + destruct (split_on sep s) as [|p ps] eqn:Hs; [by apply split_on_not_nil in Hs|].
      split.
      * intros [= <- ->]. destruct (IH p) as [[-> ?] _]; done.
      * intros [-> Hn]. destruct (IH s) as [_ H].
        by injection (H (conj eq_refl Hn)) as -> ->.
Qed.

(** [split_on] yields two parts exactly for one separator. *)
Lemma split_on_two sep s a b :
  split_on sep s = [a; b] <->
  s = (a ++ String sep b)%string /\ contains sep a = false /\ contains sep b = false.
Proof.
  revert a. induction s as [|c s IH]; intros a; simpl.
  - split; [done|]. intros [H _]. by destruct a.
  - destruct (Ascii.eqb_spec c sep) as [->|Hne]; simpl.
    + split.
      * intros [= <- H]. by apply split_on_one in H as [-> ?].
      * intros (H & Ha & Hb). destruct a as [|c' a]; simpl in *.
        -- injection H as ->. f_equal. by apply split_on_one.
        -- injection H as <- _. by rewrite Ascii.eqb_refl in Ha.
    + destruct (split_on sep s) as [|p ps] eqn:Hs; [by apply split_on_not_nil in Hs|].
      split.
      * intros [= <- ->]. destruct (IH p) as [(-> & Ha & Hb) _]; [done|].
        simpl. apply Ascii.eqb_neq in Hne as ->. done.
      * intros (H & Ha & Hb). destruct a as [|c' a]; simpl in *.
        -- by injection H.
        -- injection H as <- ->. destruct (Ascii.eqb c sep); [done|]. simpl in Ha.
           destruct (IH a) as [_ H]. by injection (H (conj eq_refl (conj Ha Hb))) as -> ->.
Qed.

(** The accepted shape, said without [split_on]. *)
Lemma email_shape_spec (value : string) :
  email_shape value = true <->
  exists local_part domain,
    value = (local_part ++ "@" ++ domain)%string /\
    local_part <> "" /\
    contains "@"%char local_part = false /\
    contains "@"%char domain = false /\
    contains "."%char domain = true.
Proof.
  unfold email_shape. split.
  - destruct (split_on "@"%char value) as [|a [|b [|? ?]]] eqn:Hs; try done.
    apply split_on_two in Hs as (-> & Ha & Hb).
    rewrite !andb_true_iff, !negb_true_iff, !String.eqb_neq.
    intros [[Hla _] Hdot]. by exists a, b.
  - intros (a & b & -> & Hla & Ha & Hb & Hdot).
    assert (split_on "@"%char (a ++ "@" ++ b) = [a; b]) as ->.
    { by apply split_on_two. }
    rewrite !andb_true_iff, !negb_true_iff, !String.eqb_neq.
    split_and!; [done| |done]. intros ->. done.
Qed.

(** C10: [validate_email("user@example")] raises [ValidationError],
    [validate_email("user@example.com")] returns its input unchanged, and
    in general the call fails with [ValidationError] exactly when its
    argument does not have the accepted shape, and returns the argument
    otherwise. The other two inputs of [test_invalid_email] are rejected
    too. *)
Theorem validate_email_contract :
  (exists msg, email "user@example" = Raise (ValidationError msg)) /\
  email "user@example.com" = Ok "user@example.com" /\
  (forall value, (exists msg, email value = Raise (ValidationError msg)) <->
                 email_shape value = false) /\
  (forall value, email_shape value = true <-> email value = Ok value) /\
  (forall value r, email value = Ok r -> r = value) /\
  (forall value,
     email value = Ok value <->
     exists local_part domain,
       value = (local_part ++ "@" ++ domain)%string /\
       local_part <> "" /\
       contains "@"%char local_part = false /\
       contains "@"%char domain = false /\
       contains "."%char domain = true) /\
  (exists msg, email "example.com" = Raise (ValidationError msg)) /\
  (exists msg, email "user" = Raise (ValidationError msg)).
Proof.
  assert (forall value, email_shape value = true <-> email value = Ok value) as Hok.
  { intros value. unfold email. by destruct (email_shape value). }
  split_and!.
  - by eexists.
  - done.
  - intros value. unfold email. destruct (email_shape value); split;
      try done; [by intros [msg [=]]|by eexists].
  - exact Hok.
  - intros value r. unfold email. destruct (email_shape value); congruence.
  - intros value. by rewrite <- Hok, email_shape_spec.
  - by eexists.
  - by eexists.
Qed.

(** * Further properties of the module *)

(** ** Field collection, beyond single inheritance *)

Section MoreDeclared.
Context {F : Type}.
Implicit Types (attrs : dict (pyobj F)) (bases : list (pyclass F)).

(** X1: [is_instance_or_subclass] swallows the [TypeError] of [issubclass]: it
    never raises, and answers [True] exactly on the instances and the
    subclasses of [base.Field]. *)
Theorem is_instance_or_subclass_never_raises (val : pyobj F) :
  exists b, is_instance_or_subclass F val = Ok b /\
    (b = true <-> exists f, val = FieldInstance f \/ val = FieldClass f).
Proof.
  destruct val as [f|f|n|v]; simpl; eexists; (split; [reflexivity|]).
  - split; [by exists f; left|done].
  - split; [by exists f; right|done].
  - split; [done|]. by intros [f [?|?]].
  - split; [done|]. by intros [f [?|?]].
Qed.

(** X2: [_get_declared_fields] takes the fields out of the body of the class:
    what it leaves in [attrs] are the other attributes, all of them, in
    their order, whatever the bases are; no declared name remains. *)
Theorem declared_fields_are_popped bases attrs :
  NoDup (keys attrs) ->
  exists fields attrs',
    _get_declared_fields F bases attrs = Ok (fields, attrs') /\
    attrs' = List.filter (fun kv => negb (is_field F (snd kv))) attrs /\
    (forall k v, (k, v) ∈ attrs' <-> (k, v) ∈ attrs /\ is_field F v = false) /\
    (forall k, k ∈ keys (declared_of F attrs) -> k ∉ keys attrs').
Proof.
  intros Hnd. rewrite _get_declared_fields_merged by done.
  eexists _, _. split; [reflexivity|]. split; [done|]. split.
  - intros k v. rewrite elem_of_List_filter. simpl.
    rewrite negb_true_iff. tauto.
  - intros k (kv & -> & Hkv)%list_elem_of_fmap (kv' & Hk & Hkv')%list_elem_of_fmap.
    apply elem_of_List_filter in Hkv as [Hf Hkv].
    apply elem_of_List_filter in Hkv' as [Hf' Hkv'].
    destruct kv as [k v], kv' as [k' v']. simpl in *. subst k'.
    assert (Some v = Some v') as [= ->]; [|by rewrite Hf in Hf'].
    rewrite <- (dict_get_NoDup attrs k v), <- (dict_get_NoDup attrs k v'); done.
Qed.

(** X3: The compiled mapping has each name once, and its names are those of
    the bases' mappings together with the declared ones: collection loses
    no name and invents none. *)
Theorem compiled_names_are_inherited_or_declared bases attrs :
  NoDup (keys attrs) ->
  exists fields attrs',
    _get_declared_fields F bases attrs = Ok (fields, attrs') /\
    NoDup (keys fields) /\
    forall k, k ∈ keys fields <->
              k ∈ keys (inherited_of F bases) \/ k ∈ keys (declared_of F attrs).
Proof.
  intros Hnd. rewrite _get_declared_fields_merged by done.
  eexists _, _. split; [reflexivity|]. split; [apply NoDup_keys_OrderedDict|].
  intros k. rewrite keys_OrderedDict, elem_of_first_occurrences, keys_app.
  apply elem_of_app.
Qed.

(** X4: With several bases whose names are all distinct, the mapping lists the
    fields of the first base, then those of the next ones in the order of
    [bases], then the declared fields: the loop over [bases[::-1]] that
    prepends keeps the order of the bases. *)
Theorem bases_contribute_in_listed_order bases attrs :
  NoDup (keys attrs) ->
  NoDup (keys (inherited_of F bases ++ declared_of F attrs)) ->
  exists attrs',
    _get_declared_fields F bases attrs
    = Ok (inherited_of F bases ++ declared_of F attrs, attrs') /\
    forall A B rest fieldsA fieldsB,
      bases = A :: B :: rest ->
      _base_fields A = Some fieldsA -> _base_fields B = Some fieldsB ->
      inherited_of F bases = fieldsA ++ fieldsB ++ inherited_of F rest.
Proof.
  intros Hnd Hall. rewrite _get_declared_fields_merged by done.
  rewrite OrderedDict_NoDup by done. eexists. split; [reflexivity|].
  intros A B rest fieldsA fieldsB -> HA HB. simpl. by rewrite HA, HB.
Qed.

(** X5: A base without [_base_fields] (the [hasattr] test of line 26) counts
    for nothing: leaving such bases out of [bases] changes neither the
    mapping nor what is left of [attrs]. *)
Theorem bases_without_fields_are_skipped bases attrs :
  _get_declared_fields F bases attrs
  = _get_declared_fields F
      (List.filter (fun base_class =>
                      match _base_fields base_class with
                      | Some _ => true
                      | None => false
                      end) bases) attrs.
Proof.
  unfold _get_declared_fields.
  assert (forall declared : list (string * pyobj F),
            inherit_fields F bases declared
            = inherit_fields F
                (List.filter (fun base_class =>
                                match _base_fields base_class with
                                | Some _ => true
                                | None => false
                                end) bases) declared) as Heq.
  { intros declared. rewrite !inherit_fields_merged. f_equal.
    induction bases as [|b bs IH]; simpl; [done|].
    destruct (_base_fields b) eqn:Hb; simpl; [|exact IH].
    rewrite Hb. simpl. by rewrite IH. }
  destruct (collect_declared F attrs attrs) as [r|e]; simpl; [|done].
  by rewrite Heq.
Qed.

(** X6: When a name has several sources, the declaration of the class itself
    wins over every base, and among the bases the one listed last wins:
    the later pair overwrites the value (the reverse of attribute lookup
    along the bases, where the first base wins). *)
Theorem later_source_gives_the_value bases attrs :
  NoDup (keys attrs) ->
  exists fields attrs',
    _get_declared_fields F bases attrs = Ok (fields, attrs') /\
    (forall k v, (k, v) ∈ declared_of F attrs -> dict_get fields k = Some v) /\
    (forall before B after fieldsB k v,
       bases = before ++ B :: after ->
       _base_fields B = Some fieldsB -> NoDup (keys fieldsB) ->
       (k, v) ∈ fieldsB ->
       k ∉ keys (inherited_of F after) ->
       k ∉ keys (declared_of F attrs) ->
       dict_get fields k = Some v).
Proof.
  intros Hnd. rewrite _get_declared_fields_merged by done.
  eexists _, _. split; [reflexivity|]. split.
  - intros k v Hkv. rewrite dict_get_OrderedDict.
    apply last_binding_app_r; [by apply NoDup_keys_filter|done].
  - intros before B after fieldsB k v -> HB HndB Hkv Hafter Hdecl.
    rewrite dict_get_OrderedDict. unfold inherited_of.
    rewrite flat_map_app. simpl. rewrite HB. simpl.
    fold (inherited_of F before). fold (inherited_of F after).
    unfold last_binding. rewrite !rev_app_distr, !dict_get_app.
    assert (forall d : dict (pyobj F), k ∉ keys d -> dict_get (rev d) k = None) as Hnone.
    { intros d Hd. apply dict_get_None. unfold keys. rewrite map_rev.
      intros Hin. apply Hd. apply list_elem_of_In. rewrite in_rev.
      by apply list_elem_of_In. }
    rewrite (Hnone _ Hdecl), (Hnone _ Hafter).
    rewrite (dict_get_NoDup (rev fieldsB) k v); [done| |].
    + unfold keys. rewrite map_rev. apply NoDup_ListNoDup, List.NoDup_rev.
      by apply NoDup_ListNoDup.
    + apply list_elem_of_In. rewrite <- in_rev. by apply list_elem_of_In.
Qed.

(** X7: A class that declares no field of its own on a single base gets the
    mapping of the base: the same names, in the same order, bound to the
    very same field objects. *)
Theorem subclass_without_fields_keeps_mapping (A : pyclass F) fieldsA
    (name : string) attrs :
  _base_fields A = Some fieldsA ->
  NoDup (keys fieldsA) ->
  NoDup (keys attrs) ->
  declared_of F attrs = [] ->
  exists B,
    SerializerMeta_new F name [A] attrs = Ok B /\
    _base_fields B = Some fieldsA.
Proof.
  intros HA HndA Hnd Hnone.
  destruct (SerializerMeta_new_appends A fieldsA name attrs HA Hnd) as (B & HB & Hf).
  { rewrite Hnone. simpl. by rewrite app_nil_r. }
  exists B. split; [done|]. by rewrite Hf, Hnone, app_nil_r.
Qed.

End MoreDeclared.

(** ** marshal: shapes, errors, lookups *)

Section MoreMarshal.
Context {F : Type}.
Variable output : F -> string -> value -> result value.
Implicit Types (data : value) (fields : list (string * fentry F)).

(** X8: What [marshal] returns is a list with one result per element when
    [data] passes the test of line 119, and one mapping with the keys of
    [fields] otherwise; it is never a bare field output. *)
Theorem marshal_result_shape data fields r :
  marshal F output data fields = Ok r ->
  (_is_iterable_but_not_string data = true /\
   exists items rs, elements data = Ok items /\ r = MList rs /\
                    length rs = length items)
  \/ (_is_iterable_but_not_string data = false /\
      exists d, r = MDict d /\ keys d = first_occurrences (keys fields)).
Proof.
  intros Hr. destruct (_is_iterable_but_not_string data) eqn:Hseq.
  - left. split; [done|]. rewrite marshal_seq in Hr by done.
    destruct (elements data) as [items|]; [|done]. simpl in Hr.
    unfold rmap, bind in Hr.
    destruct (for_each _ items) as [rs|] eqn:Hrs; [|done]. injection Hr as <-.
    exists items, rs. split_and!; [done..|].
    apply for_each_Ok in Hrs. symmetry. by eapply Forall2_length.
  - right. split; [done|]. apply marshal_has_keys in Hr as Hk.
    rewrite marshal_scalar in Hr by done. unfold rmap, bind in Hr.
    destruct (marshal_items _ _ _ _); [|done]. injection Hr as <-.
    eexists. split; [done|]. by inversion Hk.
Qed.

(** X9: On a [data] that is not gone through as a sequence, [marshal] raises
    exactly the exception of the first item of [fields], in mapping order,
    whose field output (or nested mapping) raises; the items before it
    have been computed, those after it are not. *)
Theorem marshal_scalar_raises_first_error data fields e :
  _is_iterable_but_not_string data = false ->
  (marshal F output data fields = Raise e <->
   exists i k v,
     fields !! i = Some (k, v) /\
     match v with
     | FDict m => marshal F output data m = Raise e
     | FField f => output f k data = Raise e
     end /\
     forall j k' v', j < i -> fields !! j = Some (k', v') ->
       match v' with
       | FDict m => exists r, marshal F output data m = Ok r
       | FField f => exists x, output f k' data = Ok x
       end).
Proof.
  intros Hsc. rewrite marshal_scalar by done. unfold marshal_items.
  assert (forall k v r0,
            rmap (pair k) (marshal_value F output data k v) = r0 ->
            (forall e0, r0 = Raise e0 <->
               match v with
               | FDict m => marshal F output data m = Raise e0
               | FField f => output f k data = Raise e0
               end) /\
            ((exists y, r0 = Ok y) <->
               match v with
               | FDict m => exists r, marshal F output data m = Ok r
               | FField f => exists x, output f k data = Ok x
               end)) as Hentry.
  { intros k v r0 <-. rewrite marshal_value_scalar by done.
    destruct v as [f|m]; unfold rmap, bind.
    - destruct (output f k data) as [x|e0]; split.
      + by split.
      + split; by eexists.
      + intros e1. split; congruence.
      + split; by intros [? ?].
    - destruct (marshal F output data m) as [x|e0]; split.
      + by split.
      + split; by eexists.
      + intros e1. split; congruence.
      + split; by intros [? ?]. }
  unfold rmap at 1. unfold bind at 1.
  match goal with |- context [for_each ?f fields] => set (g := f) end.
  assert ((match for_each g fields with
           | Ok a => Ok (MDict (OrderedDict a))
           | Raise e0 => Raise e0
           end = Raise e) <-> for_each g fields = Raise e) as ->.
  { destruct (for_each g fields); split; congruence. }
  rewrite for_each_Raise. split.
  - intros (i & [k v] & Hi & He & Hbefore). exists i, k, v. split; [done|].
    split; [by apply (Hentry k v _ eq_refl)|].
    intros j k' v' Hj Hj'. apply (Hentry k' v' _ eq_refl).
    by apply (Hbefore j (k', v')).
  - intros (i & k & v & Hi & He & Hbefore). exists i, (k, v). split; [done|].
    split; [by apply (Hentry k v _ eq_refl)|].
    intros j [k' v'] Hj Hj'. apply (Hentry k' v' _ eq_refl).
    by apply (Hbefore j).
Qed.

(** X10: In the mapping that [marshal] returns for such a [data], a name bound
    to a field in [fields] is bound to what that field's [output] returns
    when called with this very name and the whole [data]. *)
Theorem marshal_field_lookup data fields k f r :
  _is_iterable_but_not_string data = false ->
  NoDup (keys fields) ->
  (k, FField f) ∈ fields ->
  marshal F output data fields = Ok r ->
  exists d x, r = MDict d /\ output f k data = Ok x /\
              dict_get d k = Some (MVal x).
Proof.
  intros Hsc Hnd Hin. rewrite marshal_scalar by done.
  apply list_elem_of_lookup in Hin as [i Hi].
  unfold rmap, bind. destruct (marshal_items _ _ _ _) as [rs|] eqn:Hrs; [|done].
  intros [= <-]. apply keys_marshal_items in Hrs as Hkeys.
  unfold marshal_items in Hrs. apply for_each_Ok in Hrs.
  destruct (Forall2_lookup_l _ _ _ _ _ Hrs Hi) as ([k' r'] & Hr' & Hval).
  simpl in Hval. unfold rmap, bind in Hval.
  destruct (output f k data) as [x|] eqn:Hx; [|done]. injection Hval as <- <-.
  exists (OrderedDict rs), x. split_and!; [done..|].
  rewrite OrderedDict_NoDup by by rewrite Hkeys.
  apply dict_get_NoDup; [by rewrite Hkeys|].
  apply list_elem_of_lookup. by exists i.
Qed.



(** X12: [marshal] goes along with the concatenation of lists: the results for
    [xs ++ ys] are the results for [xs] followed by those for [ys]. *)
Theorem marshal_list_app (xs ys : list value) fields rs1 rs2 :
  marshal F output (VList xs) fields = Ok (MList rs1) ->
  marshal F output (VList ys) fields = Ok (MList rs2) ->
  marshal F output (VList (xs ++ ys)) fields = Ok (MList (rs1 ++ rs2)).
Proof.
  rewrite !marshal_seq by done. simpl. unfold rmap, bind.
  destruct (for_each _ xs) as [r1|] eqn:H1; [|done].
  destruct (for_each _ ys) as [r2|] eqn:H2; [|done].
  intros [= <-] [= <-]. apply for_each_Ok in H1, H2.
  assert (for_each (fun d => marshal F output d fields) (xs ++ ys)
          = Ok (r1 ++ r2)) as ->; [|done].
  apply for_each_Ok. by apply Forall2_app.
Qed.

(** X13: The test of line 107 looks at two attributes only. An object that
    has an attribute [strip], or none named [__iter__], is marshalled as
    one record even when it can be iterated over: the result is the
    mapping of the field outputs on the object itself, never a list. *)
Theorem marshal_object_with_strip_is_one_record
    (attrs : list (string * value)) (it : option (list value)) fields :
  "strip" ∈ keys attrs \/ "__iter__" ∉ keys attrs ->
  marshal F output (VObj attrs it) fields
  = rmap (fun d => MDict (OrderedDict d))
      (marshal_items F output (VObj attrs it) fields) /\
  forall rs, marshal F output (VObj attrs it) fields <> Ok (MList rs).
Proof.
  intros Hattrs.
  assert (forall name, hasattr (VObj attrs it) name = mem name (keys attrs))
    as Hhas.
  { intros name. unfold mem, keys. simpl. clear Hattrs.
    induction attrs as [|[k v] attrs' IH]; simpl; [done|].
    by rewrite IH, (String.eqb_sym k name). }
  assert (_is_iterable_but_not_string (VObj attrs it) = false) as Hsc.
  { unfold _is_iterable_but_not_string. rewrite !Hhas.
    destruct Hattrs as [Hs|Hi].
    - apply mem_spec in Hs. rewrite Hs. by destruct (mem "__iter__" (keys attrs)).
    - apply mem_false in Hi. by rewrite Hi. }
  rewrite marshal_scalar by done. split; [done|].
  intros rs. unfold rmap, bind. by destruct (marshal_items _ _ _ _).
Qed.

End MoreMarshal.

(** ** Construction of instances: what it writes and what it leaves *)

Section MoreStore.
Context {body : Type}.
Implicit Types (h : list (obj body)) (d : dict (pyobj loc)).

(** Replacing a schema instance by a schema instance changes no read of
    [parent]. *)
Lemma lookup_parent_insert_serializer h y (s s' : serializer) classes :
  h !! y = Some (OSerializer s) ->
  lookup_parent body (<[y := OSerializer s']> h) classes
  = lookup_parent body h classes.
Proof.
  intros Hy. induction classes as [|c classes IH]; simpl; [done|].
  destruct (decide (c = y)) as [->|Hne].
  - by rewrite Hy, list_lookup_insert_eq by by apply lookup_lt_Some in Hy.
  - rewrite list_lookup_insert_ne by done.
    destruct (h !! c) as [[f|sc]|]; [|done..]. by destruct (f_parent f).
Qed.

Lemma getattr_parent_insert_serializer h y (s s' : serializer) l :
  h !! y = Some (OSerializer s) ->
  getattr_parent body (<[y := OSerializer s']> h) l = getattr_parent body h l.
Proof.
  intros Hy. unfold getattr_parent. destruct (decide (l = y)) as [->|Hne].
  - by rewrite Hy, list_lookup_insert_eq by by apply lookup_lt_Some in Hy.
  - rewrite list_lookup_insert_ne by done.
    destruct (h !! l) as [[f|sl]|]; [|done..].
    destruct (f_parent f); [done|]. by eapply lookup_parent_insert_serializer.
Qed.

(** The instance under construction, as [get_fields] leaves it. *)
Lemma new_steps_self (cls : pyclass loc) (data : value) h fs h2 h3 :
  set_parents body (length h) fs h2 = Ok h3 ->
  (forall l, l < S (length h) ->
             h2 !! l = (h ++ [OSerializer (SerializerObj cls (Some data) None)]) !! l) ->
  h3 !! length h = Some (OSerializer (SerializerObj cls (Some data) None)).
Proof.
  intros Hset Hold.
  eapply set_parents_frame; [done|].
  rewrite Hold by lia. rewrite lookup_app_r by lia. by rewrite Nat.sub_diag.
Qed.

(** The mapping that [cls(data)] stores in the instance, item by item,
    against the template. *)
Lemma new_fields (cls : pyclass loc) (data : value) h self h' template :
  new body cls data h = Ok (self, h') ->
  _base_fields cls = Some template ->
  exists fs memo,
    fields_of body h' self = Some fs /\
    Forall2 (copies_by memo) template fs /\
    (forall l y, memo_get memo l = Some y -> length h < y) /\
    (forall l1 l2 y, memo_get memo l1 = Some y -> memo_get memo l2 = Some y ->
                     l1 = l2).
Proof.
  intros Hnew Hcls.
  apply new_steps in Hnew
    as (template' & fs & memo & h2 & h3 & Ht & -> & Hd & Hset & -> & Hlen3 & Hlen2 & _).
  rewrite Hcls in Ht. injection Ht as <-.
  destruct (deepcopy_dict_memo (S (length h)) _ _ _ _ _ _ _
              (fun x m0 h0 y m1 h1 => deepcopy_memo (S (length h)) _ x m0 h0 y m1 h1) Hd)
    as ([Hb Hinj] & _ & _ & Hall).
  { rewrite length_app. simpl. lia. }
  { split; by intros. }
  exists fs, memo. split_and!; [|done| |done].
  - unfold fields_of. rewrite list_lookup_insert_eq; [done|lia].
  - intros l y Hl. specialize (Hb l y Hl). lia.
Qed.

(** What [cls(data)] does to an object that the store already holds. *)
Lemma new_frame (cls : pyclass loc) (data : value) h self h' l o :
  new body cls data h = Ok (self, h') ->
  h !! l = Some o ->
  h' !! l = Some o \/
  exists f template k,
    o = OField f /\ (forall p, f_parent f <> Some (Some p)) /\
    _base_fields cls = Some template /\ (k, FieldClass l) ∈ template /\
    h' !! l = Some (OField (Field (Some (Some self)) (f_mro f) (f_body f))).
Proof.
  intros Hnew Hl. pose proof (lookup_lt_Some _ _ _ Hl) as Hlt.
  apply new_steps in Hnew
    as (template & fs & memo & h2 & h3 & Ht & -> & Hd & Hset & -> & Hlen3 & Hlen2 & Hold).
  destruct (deepcopy_dict_memo (S (length h)) _ _ _ _ _ _ _
              (fun x m0 h0 y m1 h1 => deepcopy_memo (S (length h)) _ x m0 h0 y m1 h1) Hd)
    as ([Hb _] & _ & _ & Hall).
  { rewrite length_app. simpl. lia. }
  { split; by intros. }
  assert (h2 !! l = Some o) as Hl2.
  { rewrite Hold by lia. by apply lookup_app_l_Some. }
  rewrite list_lookup_insert_ne by lia.
  destruct (set_parents_changes _ _ _ _ _ _ Hset Hl2)
    as [?|(f & -> & Hg & Hin & Hl3)]; [by left|].
  right. apply elem_of_field_locs in Hin as ([k v] & Hc & Hv). simpl in Hv.
  destruct (Forall2_elem_of_r _ _ _ _ Hall Hc) as ([k' v'] & Ht' & Hk & Hcopy).
  simpl in Hk, Hcopy. subst k'. exists f, template, k.
  split_and!; [done| |done| |done].
  { intros p Hp.
    destruct (getattr_parent_None_own _ _ _ Hl2 Hg) as [[? _]|?]; congruence. }
  destruct v' as [l0|l0|n|x]; simpl in Hcopy.
  - destruct Hcopy as (y & -> & Hy). specialize (Hb l0 y Hy). simpl in Hb.
    destruct Hv as [[= ->]|[=]]. lia.
  - subst v. by destruct Hv as [[=]|[= ->]].
  - subst v. by destruct Hv as [[=]|[=]].
  - subst v. by destruct Hv as [[=]|[=]].
Qed.

(** Through [cls(data)], [.parent] on an object that the store already
    holds gives what it gave, or the new instance. *)
Lemma new_read (cls : pyclass loc) (data : value) h self h' l v :
  new body cls data h = Ok (self, h') ->
  getattr_parent body h l = Ok v ->
  exists v', getattr_parent body h' l = Ok v' /\ (v' = v \/ v' = Some self).
Proof.
  intros Hnew Hg.
  apply new_steps in Hnew
    as (template & fs & memo & h2 & h3 & Ht & -> & Hd & Hset & -> & Hlen3 & Hlen2 & Hold).
  assert (getattr_parent body h2 l = Ok v) as Hg2.
  { eapply getattr_parent_extends; [|exact Hg].
    intros c Hc. rewrite Hold by lia. by apply lookup_app_l. }
  destruct (set_parents_read _ _ _ _ _ _ Hset Hg2) as (v' & Hv' & Hor).
  exists v'. split; [|done].
  erewrite getattr_parent_insert_serializer; [done|].
  by eapply new_steps_self.
Qed.

End MoreStore.

(** ** Well-formed stores stay well-formed *)

Section ClosedStores.
Context {body : Type}.
Implicit Types (h : list (obj body)) (d : dict (pyobj loc)).

Lemma refs_below_mono n m (o : obj body) :
  n <= m -> refs_below body n o -> refs_below body m o.
Proof.
  intros Hnm. destruct o as [f|s]; simpl.
  - intros [Hp Hmro]. split.
    + intros p Hp'. specialize (Hp p Hp'). lia.
    + intros c Hc. specialize (Hmro c Hc). lia.
  - intros H d Hd l Hl. specialize (H d Hd l Hl). lia.
Qed.

Lemma closed_app h o :
  closed body h -> refs_below body (S (length h)) o -> closed body (h ++ [o]).
Proof.
  intros Hc Ho l o' Hl. rewrite length_app. simpl.
  destruct (decide (l < length h)) as [Hlt|Hge].
  - rewrite lookup_app_l in Hl by done.
    eapply refs_below_mono; [|by eapply Hc]. lia.
  - pose proof (lookup_lt_Some _ _ _ Hl) as Hlt. rewrite length_app in Hlt.
    simpl in Hlt. rewrite lookup_app_r in Hl by lia.
    replace (l - length h) with 0 in Hl by lia. injection Hl as <-.
    eapply refs_below_mono; [|exact Ho]. lia.
Qed.

Lemma closed_insert h y o :
  closed body h -> refs_below body (length h) o -> closed body (<[y := o]> h).
Proof.
  intros Hc Ho l o' Hl. rewrite length_insert.
  destruct (decide (l = y)) as [->|Hne].
  - pose proof (lookup_lt_Some _ _ _ Hl) as Hlt. rewrite length_insert in Hlt.
    rewrite list_lookup_insert_eq in Hl by done. by injection Hl as <-.
  - rewrite list_lookup_insert_ne in Hl by done. by eapply Hc.
Qed.

Lemma deepcopy_dict_closed deep d memo h d' memo' h' :
  (forall x memo0 h0 y memo1 h1,
     deep x (memo0, h0) = Ok (y, (memo1, h1)) ->
     closed body h0 -> memo_fresh body 0 (memo0, h0) ->
     closed body h1 /\ memo_fresh body 0 (memo1, h1)) ->
  deepcopy_dict body deep d (memo, h) = Ok (d', (memo', h')) ->
  closed body h -> memo_fresh body 0 (memo, h) ->
  closed body h'.
Proof.
  intros Hdeep. unfold deepcopy_dict. revert memo h d' memo' h'.
  induction d as [|[k v] d IH]; intros memo h d' memo' h'; simpl.
  - by intros [= <- <- <-].
  - destruct (deepcopy_value body deep v (memo, h)) as [[v' st1]|] eqn:Hv;
      simpl; [|done].
    destruct (for_each_st _ d st1) as [[d1 [memo2 h2]]|] eqn:Hd;
      simpl; [|done].
    destruct st1 as [memo1 h1]. intros [= <- <- <-] Hc Hf.
    assert (closed body h1 /\ memo_fresh body 0 (memo1, h1)) as [Hc1 Hf1].
    { destruct v as [l|l|n|x]; simpl in Hv;
        try (by injection Hv as <- <- <-).
      destruct (deep l (memo, h)) as [[y [m1 hh1]]|] eqn:Hl; simpl in Hv; [|done].
      injection Hv as <- <- <-. by eapply Hdeep. }
    by eapply IH.
Qed.

(** [deepcopy] keeps a closed store closed. *)
Lemma deepcopy_closed fuel x memo h y memo' h' :
  deepcopy body fuel x (memo, h) = Ok (y, (memo', h')) ->
  closed body h -> memo_fresh body 0 (memo, h) ->
  closed body h' /\ memo_fresh body 0 (memo', h').
Proof.
  revert x memo h y memo' h'.
  induction fuel as [|fuel IH]; intros x memo h y memo' h' Hcopy Hc Hf; [done|].
  split; [|by eapply (deepcopy_memo 0); [exact Hcopy|lia|]].
  simpl in Hcopy. destruct (memo_get memo x) as [y0|] eqn:Hm.
  { by injection Hcopy as <- <- <-. }
  destruct (h !! x) as [[f|s]|] eqn:Hx; [| |done]; unfold alloc in Hcopy.
  - assert (forall c, c ∈ f_mro f -> c < length h) as Hmro.
    { intros c Hcin. by apply (Hc x _ Hx). }
    assert (closed body (h ++ [OField (Field None (f_mro f) (f_body f))])) as Hc1.
    { apply closed_app; [done|]. split; [by intros p [=]|].
      intros c Hcin. specialize (Hmro c Hcin). simpl. lia. }
    pose proof (memo_fresh_cons 0 memo h x
                  (OField (Field None (f_mro f) (f_body f))) Hf ltac:(lia) Hm)
      as Hf1.
    destruct (f_parent f) as [[p|]|].
    + destruct (deepcopy body fuel p _) as [[p' [memo2 h2]]|] eqn:Hp;
        simpl in Hcopy; [|done].
      injection Hcopy as <- <- <-.
      destruct (IH _ _ _ _ _ _ Hp Hc1 Hf1) as [Hc2 Hf2].
      destruct (deepcopy_memo 0 _ _ _ _ _ _ _ Hp ltac:(lia) Hf1)
        as (_ & _ & Hp' & Hlen2).
      rewrite length_app in Hlen2. simpl in Hlen2.
      apply closed_insert; [done|]. split.
      * intros q [= ->]. destruct Hf2 as [Hb _].
        specialize (Hb p q Hp'). simpl in Hb. lia.
      * intros c Hcin. specialize (Hmro c Hcin). simpl. lia.
    + injection Hcopy as <- <- <-. apply closed_insert; [done|]. split.
      * by intros q [=].
      * intros c Hcin. specialize (Hmro c Hcin). rewrite length_app. simpl. lia.
    + by injection Hcopy as <- <- <-.
  - assert (closed body
              (h ++ [OSerializer (SerializerObj (s_class s) (s_data s) None)]))
      as Hc1.
    { apply closed_app; [done|]. by intros d [=]. }
    pose proof (memo_fresh_cons 0 memo h x
                  (OSerializer (SerializerObj (s_class s) (s_data s) None))
                  Hf ltac:(lia) Hm) as Hf1.
    destruct (s_fields s) as [fields|] eqn:Hfs.
    + destruct (deepcopy_dict body _ fields _) as [[d' [memo2 h2]]|] eqn:Hd;
        simpl in Hcopy; [|done].
      injection Hcopy as <- <- <-.
      pose proof (deepcopy_dict_closed _ _ _ _ _ _ _ IH Hd Hc1 Hf1) as Hc2.
      destruct (deepcopy_dict_memo 0 _ _ _ _ _ _ _
                  (fun x m0 h0 y m1 h1 => deepcopy_memo 0 fuel x m0 h0 y m1 h1) Hd)
        as ([Hb _] & _ & Hlen & Hall); [lia|done|].
      apply closed_insert; [done|]. intros d0 [= <-] l Hl.
      apply elem_of_field_locs in Hl as ([k v] & Hkv & Hv). simpl in Hv.
      destruct (Forall2_elem_of_r _ _ _ _ Hall Hkv) as ([k' v'] & Ht & _ & Hcp).
      simpl in Hcp. rewrite length_app in Hlen. simpl in Hlen.
      assert (forall l0, l0 ∈ field_locs fields -> l0 < length h2) as Hsrc.
      { intros l0 Hl0. specialize (Hc x _ Hx). simpl in Hc.
        specialize (Hc fields Hfs l0 Hl0). lia. }
      destruct v' as [l0|l0|n|z].
      * destruct Hcp as (y0 & -> & Hy0). specialize (Hb l0 y0 Hy0). simpl in Hb.
        destruct Hv as [[= ->]|[=]]. lia.
      * subst v. destruct Hv as [[=]|[= ->]]. apply Hsrc.
        apply elem_of_field_locs. exists (k', FieldClass l). split; [done|by right].
      * subst v. by destruct Hv as [[=]|[=]].
      * subst v. by destruct Hv as [[=]|[=]].
    + by injection Hcopy as <- <- <-.
Qed.

Lemma set_parents_closed self d h h' :
  set_parents body self d h = Ok h' ->
  closed body h -> self < length h ->
  closed body h'.
Proof.
  revert h. induction d as [|[k v] d IH]; intros h.
  - by intros [= <-].
  - intros (y & f & _ & Hy & [(p & _ & H)|[_ H]])%set_parents_cons Hc Hself;
      [by eapply IH|].
    eapply IH; [exact H| |by rewrite length_insert].
    apply closed_insert; [done|]. split.
    + by intros q [= <-].
    + intros c Hcin. by apply (Hc y _ Hy).
Qed.

(** [cls(data)] keeps a closed store closed, and the values of the new
    instance's mapping are field objects of the store on which [.parent]
    gives a schema instance. *)
Lemma new_closed (cls : pyclass loc) (data : value) h self h' :
  new body cls data h = Ok (self, h') ->
  closed body h ->
  closed body h' /\
  exists fs, fields_of body h' self = Some fs /\
    Forall (fun kv => exists l p,
              (snd kv = FieldInstance l \/ snd kv = FieldClass l) /\
              getattr_parent body h' l = Ok (Some p)) fs.
Proof.
  intros Hnew Hc.
  pose proof (new_steps cls data h self h' Hnew)
    as (template & fs & memo & h2 & h3 & Ht & -> & Hd & Hset & -> & Hlen3 & Hlen2 & Hold).
  assert (closed body (h ++ [OSerializer (SerializerObj cls (Some data) None)]))
    as Hc1.
  { apply closed_app; [done|]. by intros d [=]. }
  assert (closed body h2) as Hc2.
  { eapply deepcopy_dict_closed; [|exact Hd|done|split; by intros].
    intros x m0 h0 y m1 h1. apply deepcopy_closed. }
  pose proof (set_parents_closed _ _ _ _ Hset Hc2 ltac:(lia)) as Hc3.
  pose proof (set_parents_parents _ _ _ _ Hset) as Hfs.
  pose proof (new_steps_self cls data h fs h2 h3 Hset Hold) as Hself.
  split.
  - apply closed_insert; [done|]. intros d [= <-] l Hl.
    apply elem_of_field_locs in Hl as (kv & Hkv & Hl).
    pose proof (proj1 (Forall_forall _ _) Hfs kv Hkv) as (l' & p & Hv & Hg).
    apply getattr_parent_is_field in Hg as [f Hf]. apply lookup_lt_Some in Hf.
    destruct Hl as [Hl|Hl], Hv as [Hv|Hv]; congruence.
  - exists fs. split.
    + unfold fields_of. rewrite list_lookup_insert_eq; [done|lia].
    + eapply Forall_impl; [exact Hfs|]. intros kv (l & p & Hv & Hg).
      exists l, p. split; [done|].
      by erewrite getattr_parent_insert_serializer.
Qed.

End ClosedStores.

Section StoreProperties.
Context {body : Type}.
Variable output : list (obj body) -> pyobj loc -> string -> value -> result value.
Implicit Types (h : list (obj body)) (d : dict (pyobj loc)).

(** X14: [cls(data)] makes the instance a new object and leaves every schema
    instance the store already holds as it is, its data and its fields,
    whatever the template of [cls] contains. *)
Theorem new_leaves_instances_alone (cls : pyclass loc) (data : value) h self h' :
  new body cls data h = Ok (self, h') ->
  self = length h /\ length h < length h' /\
  forall l s, h !! l = Some (OSerializer s) -> h' !! l = Some (OSerializer s).
Proof.
  intros Hnew. split_and!.
  - by apply new_inv in Hnew as (? & ? & _ & -> & _).
  - apply new_inv in Hnew as (? & ? & _ & -> & Hself & _).
    by apply lookup_lt_Some in Hself.
  - intros l s Hl.
    by destruct (new_frame cls data h self h' l _ Hnew Hl)
      as [?|(f & ? & ? & [=] & _)].
Qed.

(** X15: The guard of line 56: a field object on which [.parent] gives a
    schema instance, its own entry or one read from a class, keeps its
    whole state through the construction of any instance, and [.parent] on
    it goes on giving a schema instance: the one it gave, or the new
    instance where a class in between has been given it. (A schema
    instance counts as true, as in [set_parents]: the schema classes
    define neither [__bool__] nor [__len__].) *)
Theorem new_never_replaces_a_parent (cls : pyclass loc) (data : value)
    h self h' l f p :
  new body cls data h = Ok (self, h') ->
  h !! l = Some (OField f) ->
  getattr_parent body h l = Ok (Some p) ->
  h' !! l = Some (OField f) /\
  (getattr_parent body h' l = Ok (Some p) \/
   getattr_parent body h' l = Ok (Some self)).
Proof.
  intros Hnew Hl Hp. split.
  - destruct (new_frame cls data h self h' l _ Hnew Hl)
      as [?|(f' & template & k & [= <-] & Hown & Ht & Hin & Hl')]; [done|].
    exfalso.
    apply new_steps in Hnew
      as (template' & fs & memo & h2 & h3 & _ & -> & Hd & Hset & -> & Hlen3 & Hlen2 & Hold).
    pose proof (lookup_lt_Some _ _ _ Hl) as Hlt.
    assert (forall c, c < length h -> h2 !! c = h !! c) as Hagree.
    { intros c Hc. rewrite Hold by lia. by apply lookup_app_l. }
    assert (h3 !! l = h2 !! l) as Hkeep.
    { eapply set_parents_keeps_read; [done|]. exists p.
      by eapply getattr_parent_extends. }
    rewrite list_lookup_insert_ne in Hl' by lia.
    rewrite Hkeep, Hagree, Hl in Hl' by done. injection Hl' as Hl'.
    apply (Hown (length h)). by rewrite Hl'.
  - destruct (new_read cls data h self h' l _ Hnew Hp) as (v' & Hv' & [-> | ->]);
      auto.
Qed.

(** X16: What [cls(data)] writes to in the store it was given. The only
    objects whose own state changes are field classes that the template
    of [cls] names and that have no parent of their own: such a class gets
    the new instance as its own [parent]; every other object keeps its own
    state. What [.parent] gives on an object can change with it, since the
    attribute is looked up in the classes: it stays as it was on every
    object that is not written and none of whose classes is. *)
Theorem new_writes_only_parentless_classes (cls : pyclass loc) (data : value)
    h self h' :
  new body cls data h = Ok (self, h') ->
  (forall l o, h !! l = Some o ->
     h' !! l = Some o \/
     exists f template k,
       o = OField f /\ (forall p, f_parent f <> Some (Some p)) /\
       _base_fields cls = Some template /\ (k, FieldClass l) ∈ template /\
       h' !! l = Some (OField (Field (Some (Some self)) (f_mro f) (f_body f)))) /\
  (forall l f, h !! l = Some (OField f) ->
     (forall c, c ∈ l :: f_mro f -> h' !! c = h !! c) ->
     getattr_parent body h' l = getattr_parent body h l).
Proof.
  intros Hnew. split.
  - intros l o. exact (new_frame cls data h self h' l o Hnew).
  - intros l f Hl Hsame. by eapply getattr_parent_agree.
Qed.

(** X17: A class without [_base_fields], as [BaseSerializer] itself, cannot be
    instantiated: [get_fields] raises [AttributeError], on any input and in
    any store. *)
Theorem new_without_base_fields_raises (cls : pyclass loc) (data : value) h :
  _base_fields cls = None ->
  new body cls data h = Raise AttributeError.
Proof.
  intros Hcls. unfold new, alloc, __init__, set_data.
  rewrite lookup_app_r by lia. rewrite Nat.sub_diag.
  cbn [lookup list_lookup bind s_class s_fields]. rewrite insert_last.
  unfold get_fields. rewrite lookup_app_r by lia. rewrite Nat.sub_diag.
  cbn [lookup list_lookup s_class]. by rewrite Hcls.
Qed.

(** X18: For a schema without fields, as [Serializer] itself, [cls(data)] adds
    the instance to the store and nothing else, and [.data] of a [data]
    that is not a sequence is the empty mapping. *)
Theorem new_without_fields (cls : pyclass loc) (data : value) h :
  _base_fields cls = Some [] ->
  new body cls data h
  = Ok (length h, h ++ [OSerializer (SerializerObj cls (Some data) (Some []))]) /\
  (_is_iterable_but_not_string data = false ->
   Instances.data body output (length h)
     (h ++ [OSerializer (SerializerObj cls (Some data) (Some []))])
   = Ok (MDict [])).
Proof.
  intros Hcls. split.
  - unfold new, alloc, __init__, set_data.
    rewrite lookup_app_r by lia. rewrite Nat.sub_diag.
    cbn [lookup list_lookup bind s_class s_fields]. rewrite insert_last.
    unfold get_fields. rewrite lookup_app_r by lia. rewrite Nat.sub_diag.
    cbn [lookup list_lookup s_class]. rewrite Hcls.
    cbn [deepcopy_dict for_each_st bind fst snd set_parents].
    unfold set_fields. rewrite lookup_app_r by lia. rewrite Nat.sub_diag.
    cbn [lookup list_lookup bind s_class s_data]. by rewrite insert_last.
  - intros Hsc. unfold Instances.data, to_data.
    rewrite lookup_app_r by lia. rewrite Nat.sub_diag.
    cbn [lookup list_lookup s_data s_fields map]. by rewrite marshal_scalar.
Qed.

(** X19: The copies follow the template object for object: two names of the
    template bound to field instances are bound, in the instance, to two
    new objects, which are one and the same exactly when the two names
    share one field instance in the template. *)
Theorem instance_copies_mirror_sharing (cls : pyclass loc) (data : value)
    h self h' template i j ki kj li lj :
  new body cls data h = Ok (self, h') ->
  _base_fields cls = Some template ->
  template !! i = Some (ki, FieldInstance li) ->
  template !! j = Some (kj, FieldInstance lj) ->
  exists fs yi yj,
    fields_of body h' self = Some fs /\
    fs !! i = Some (ki, FieldInstance yi) /\
    fs !! j = Some (kj, FieldInstance yj) /\
    length h < yi /\ length h < yj /\
    (yi = yj <-> li = lj).
Proof.
  intros Hnew Hcls Hi Hj.
  destruct (new_fields cls data h self h' template Hnew Hcls)
    as (fs & memo & Hfs & Hall & Hnew_locs & Hinj).
  destruct (Forall2_lookup_l _ _ _ _ _ Hall Hi) as ([ki' vi] & Hfi & Hki & Hci).
  destruct (Forall2_lookup_l _ _ _ _ _ Hall Hj) as ([kj' vj] & Hfj & Hkj & Hcj).
  simpl in *. subst ki' kj'.
  destruct Hci as (yi & -> & Hyi). destruct Hcj as (yj & -> & Hyj).
  exists fs, yi, yj. split_and!; [done..|by eapply Hnew_locs|by eapply Hnew_locs|].
  split.
  - intros <-. by eapply Hinj.
  - intros <-. congruence.
Qed.

(** X20: A field given as a class is never copied: the mapping of every
    instance binds the name to the class object itself. *)
Theorem field_classes_are_never_copied (cls : pyclass loc) (data : value)
    h self h' template i k l :
  new body cls data h = Ok (self, h') ->
  _base_fields cls = Some template ->
  template !! i = Some (k, FieldClass l) ->
  exists fs,
    fields_of body h' self = Some fs /\
    fs !! i = Some (k, FieldClass l).
Proof.
  intros Hnew Hcls Hi.
  destruct (new_fields cls data h self h' template Hnew Hcls)
    as (fs & memo & Hfs & Hall & _).
  destruct (Forall2_lookup_l _ _ _ _ _ Hall Hi) as ([k' v] & Hfi & Hk & Hc).
  simpl in *. subst k' v. by exists fs.
Qed.

(** X21: Construction keeps the store well formed. In a store where no object
    refers outside of it, and for a template whose values are field
    objects of the store, [cls(data)] returns; in the store it leaves,
    again no object refers outside, the values of the template still are
    field objects, and so are the values of the new instance's mapping. The
    class can thus be instantiated again, any number of times. *)
Theorem construction_keeps_the_store_well_formed (cls : pyclass loc)
    template (data : value) h :
  _base_fields cls = Some template ->
  closed body h ->
  fields_in body h template ->
  exists self h',
    new body cls data h = Ok (self, h') /\
    closed body h' /\
    fields_in body h' template /\
    exists fs, fields_of body h' self = Some fs /\ fields_in body h' fs.
Proof.
  intros Hcls Hc Hin.
  destruct (new_total cls template data h Hcls Hc Hin) as (self & h' & Hnew).
  exists self, h'. split; [done|].
  destruct (new_closed cls data h self h' Hnew Hc) as [Hc' (fs & Hfs & Hall)].
  split_and!; [done| |].
  - eapply Forall_impl; [exact Hin|]. intros [k v] (l & Hv & v0 & Hg).
    exists l. split; [done|].
    destruct (new_read cls data h self h' l _ Hnew Hg) as (v' & Hv' & _).
    by exists v'.
  - exists fs. split; [done|]. eapply Forall_impl; [exact Hall|].
    intros kv (l & p & Hv & Hg). exists l. split; [done|]. by eexists.
Qed.

End StoreProperties.

(** ** The further properties on concrete schemas *)

Section MoreConcrete.
Import Examples.

Ltac decide_now := apply (bool_decide_unpack _); vm_compute; exact I.

Lemma declared_fields_are_popped_witness :
  NoDup (keys attrsD) /\
  exists fields attrs',
    _get_declared_fields string [A_class; Mixin] attrsD = Ok (fields, attrs') /\
    attrs' = [("helper", Plain VNone)] /\
    (forall k v, (k, v) ∈ attrs' <-> (k, v) ∈ attrsD /\ is_field string v = false) /\
    (forall k, k ∈ keys (declared_of string attrsD) -> k ∉ keys attrs').
Proof.
  assert (NoDup (keys attrsD)) as H by decide_now. split; [done|].
  exact (declared_fields_are_popped [A_class; Mixin] attrsD H).
Defined.

Lemma compiled_names_are_inherited_or_declared_witness :
  NoDup (keys attrsB_again) /\
  exists fields attrs',
    _get_declared_fields string [A_class; B_class] attrsB_again
    = Ok (fields, attrs') /\
    NoDup (keys fields) /\
    forall k, k ∈ keys fields <->
              k ∈ keys (inherited_of string [A_class; B_class]) \/
              k ∈ keys (declared_of string attrsB_again).
Proof.
  assert (NoDup (keys attrsB_again)) as H by decide_now. split; [done|].
  exact (compiled_names_are_inherited_or_declared [A_class; B_class] attrsB_again H).
Defined.

Lemma bases_contribute_in_listed_order_witness :
  NoDup (keys attrsD) /\
  NoDup (keys (inherited_of string [A_class; C_class] ++ declared_of string attrsD)) /\
  exists attrs',
    _get_declared_fields string [A_class; C_class] attrsD
    = Ok ([("a1", FieldInstance "A.a1"); ("a2", FieldInstance "A.a2");
           ("c1", FieldInstance "C.c1"); ("d1", FieldInstance "D.d1")], attrs') /\
    forall A B rest fieldsA fieldsB,
      [A_class; C_class] = A :: B :: rest ->
      _base_fields A = Some fieldsA -> _base_fields B = Some fieldsB ->
      inherited_of string [A_class; C_class]
      = fieldsA ++ fieldsB ++ inherited_of string rest.
Proof.
  assert (NoDup (keys attrsD)) as H by decide_now.
  assert (NoDup (keys (inherited_of string [A_class; C_class]
                       ++ declared_of string attrsD))) as H' by decide_now.
  split; [done|]. split; [done|].
  exact (bases_contribute_in_listed_order [A_class; C_class] attrsD H H').
Defined.

Lemma later_source_gives_the_value_witness :
  NoDup (keys attrsB_again) /\
  exists fields attrs',
    _get_declared_fields string [A_class; B_class] attrsB_again
    = Ok (fields, attrs') /\
    (forall k v, (k, v) ∈ declared_of string attrsB_again ->
                 dict_get fields k = Some v) /\
    (forall before B after fieldsB k v,
       [A_class; B_class] = before ++ B :: after ->
       _base_fields B = Some fieldsB -> NoDup (keys fieldsB) ->
       (k, v) ∈ fieldsB ->
       k ∉ keys (inherited_of string after) ->
       k ∉ keys (declared_of string attrsB_again) ->
       dict_get fields k = Some v).
Proof.
  assert (NoDup (keys attrsB_again)) as H by decide_now. split; [done|].
  exact (later_source_gives_the_value [A_class; B_class] attrsB_again H).
Defined.

(** [A] has [a1, a2], [B] has [a2, b1], the class declares [a1]: the
    names stand where they first occur, [a1] has the declared field and
    [a2] the field of [B], the base listed last. *)
Example two_bases_and_a_declaration :
  _get_declared_fields string [A_class; B_class] attrsB_again
  = Ok ([("a1", FieldInstance "B.a1"); ("a2", FieldInstance "B.a2");
         ("b1", FieldInstance "B.b1")],
        [("helper", Plain VNone)]).
Proof. reflexivity. Qed.

Lemma subclass_without_fields_keeps_mapping_witness :
  _base_fields A_class = Some attrsA /\
  NoDup (keys attrsA) /\ NoDup (keys attrs_plain) /\
  declared_of string attrs_plain = [] /\
  exists B,
    SerializerMeta_new string "Sub" [A_class] attrs_plain = Ok B /\
    _base_fields B = Some attrsA.
Proof.
  assert (NoDup (keys attrsA)) as H1 by decide_now.
  assert (NoDup (keys attrs_plain)) as H2 by decide_now.
  split_and!; [done..|].
  exact (subclass_without_fields_keeps_mapping A_class attrsA "Sub" attrs_plain
           eq_refl H1 H2 eq_refl).
Defined.

Lemma marshal_result_shape_witness :
  marshal string raw_output (VList [resident; resident]) address_fields
  = Ok (MList [MDict [("city", MVal (VStr "London"))];
               MDict [("city", MVal (VStr "London"))]]) /\
  ((_is_iterable_but_not_string (VList [resident; resident]) = true /\
    exists items rs,
      elements (VList [resident; resident]) = Ok items /\
      MList [MDict [("city", MVal (VStr "London"))];
             MDict [("city", MVal (VStr "London"))]] = MList rs /\
      length rs = length items)
   \/ (_is_iterable_but_not_string (VList [resident; resident]) = false /\
       exists d,
         MList [MDict [("city", MVal (VStr "London"))];
                MDict [("city", MVal (VStr "London"))]] = MDict d /\
         keys d = first_occurrences (keys address_fields))).
Proof.
  split; [reflexivity|].
  exact (marshal_result_shape raw_output (VList [resident; resident])
           address_fields _ eq_refl).
Defined.

Lemma marshal_scalar_raises_first_error_witness :
  _is_iterable_but_not_string resident = false /\
  (marshal string raw_output resident failing_fields = Raise AttributeError <->
   exists i k v,
     failing_fields !! i = Some (k, v) /\
     match v with
     | FDict m => marshal string raw_output resident m = Raise AttributeError
     | FField f => raw_output f k resident = Raise AttributeError
     end /\
     forall j k' v', j < i -> failing_fields !! j = Some (k', v') ->
       match v' with
       | FDict m => exists r, marshal string raw_output resident m = Ok r
       | FField f => exists x, raw_output f k' resident = Ok x
       end).
Proof.
  split; [reflexivity|].
  exact (marshal_scalar_raises_first_error raw_output resident failing_fields
           AttributeError eq_refl).
Defined.

Example marshal_failing_fields :
  marshal string raw_output resident failing_fields = Raise AttributeError.
Proof. reflexivity. Qed.

Lemma marshal_field_lookup_witness :
  _is_iterable_but_not_string resident = false /\
  NoDup (keys resident_fields) /\
  ("name", FField "String") ∈ resident_fields /\
  exists d x,
    MDict [("name", MVal (VStr "Ada"));
           ("address", MDict [("city", MVal (VStr "London"))])] = MDict d /\
    raw_output "String" "name" resident = Ok x /\
    dict_get d "name" = Some (MVal x).
Proof.
  assert (NoDup (keys resident_fields)) as H by decide_now.
  assert (("name", FField "String") ∈ resident_fields) as Hin
    by apply list_elem_of_here.
  split_and!; [done..|].
  exact (marshal_field_lookup raw_output resident resident_fields "name" "String"
           _ eq_refl H Hin eq_refl).
Defined.


Lemma marshal_list_app_witness :
  marshal string raw_output (VList [resident]) address_fields
  = Ok (MList [MDict [("city", MVal (VStr "London"))]]) /\
  marshal string raw_output (VList []) address_fields = Ok (MList []) /\
  marshal string raw_output (VList ([resident] ++ [])) address_fields
  = Ok (MList ([MDict [("city", MVal (VStr "London"))]] ++ [])).
Proof.
  split; [reflexivity|]. split; [reflexivity|].
  exact (marshal_list_app raw_output [resident] [] address_fields _ _ eq_refl eq_refl).
Defined.

Lemma new_leaves_instances_alone_witness :
  exists self h',
    new string Badge ada store_owned = Ok (self, h') /\
    self = length store_owned /\ length store_owned < length h' /\
    forall l s, store_owned !! l = Some (OSerializer s) ->
                h' !! l = Some (OSerializer s).
Proof.
  eexists _, _. split; [vm_compute; reflexivity|].
  exact (new_leaves_instances_alone Badge ada store_owned _ _ eq_refl).
Defined.

(** The [String()] instance has no parent of its own and reads the one
    of its class; a [Person] built then leaves it as it is. *)
Lemma new_never_replaces_a_parent_witness :
  exists self h',
    new string Person ada store_labelled = Ok (self, h') /\
    store_labelled !! 0 = Some (OField (Field None [2; 3] "String()")) /\
    getattr_parent string store_labelled 0 = Ok (Some 5) /\
    h' !! 0 = Some (OField (Field None [2; 3] "String()")) /\
    (getattr_parent string h' 0 = Ok (Some 5) \/
     getattr_parent string h' 0 = Ok (Some self)).
Proof.
  eexists _, _. split; [vm_compute; reflexivity|].
  split; [reflexivity|]. split; [reflexivity|].
  exact (new_never_replaces_a_parent Person ada store_labelled _ _ 0 _ 5
           eq_refl eq_refl eq_refl).
Defined.

Lemma new_writes_only_parentless_classes_witness :
  exists self h',
    new string Label (VStr "x") store0 = Ok (self, h') /\
    (forall l o, store0 !! l = Some o ->
       h' !! l = Some o \/
       exists f template k,
         o = OField f /\ (forall p, f_parent f <> Some (Some p)) /\
         _base_fields Label = Some template /\ (k, FieldClass l) ∈ template /\
         h' !! l = Some (OField (Field (Some (Some self)) (f_mro f) (f_body f)))) /\
    (forall l f, store0 !! l = Some (OField f) ->
       (forall c, c ∈ l :: f_mro f -> h' !! c = store0 !! c) ->
       getattr_parent string h' l = getattr_parent string store0 l).
Proof.
  eexists _, _. split; [vm_compute; reflexivity|].
  exact (new_writes_only_parentless_classes Label (VStr "x") store0 _ _ eq_refl).
Defined.

(** [Label("x")] writes the class [fields.String] (address 2) and nothing
    else. The [String()] instance (address 0) keeps its state, yet
    [.parent] on it now gives the [Label] instance, read from the class;
    on the [Integer()] instance (address 1) it gives [None] as before. *)
Example label_writes_the_class :
  new string Label (VStr "x") store0 = Ok (5, store_labelled) /\
  store_labelled !! 2 = Some (OField (Field (Some (Some 5)) [3] "class String")) /\
  (forall l, l < 5 -> l <> 2 -> store_labelled !! l = store0 !! l) /\
  getattr_parent string store0 0 = Ok None /\
  getattr_parent string store_labelled 0 = Ok (Some 5) /\
  getattr_parent string store_labelled 1 = Ok None.
Proof.
  split_and!; try (vm_compute; reflexivity).
  intros [|[|[|[|[|l]]]]] Hlt Hne; try done. lia.
Qed.

Lemma new_without_base_fields_raises_witness :
  _base_fields (BaseSerializer (F:=loc)) = None /\
  new string BaseSerializer ada store0 = Raise AttributeError.
Proof.
  split; [reflexivity|].
  exact (new_without_base_fields_raises BaseSerializer ada store0 eq_refl).
Defined.

Lemma new_without_fields_witness :
  _base_fields (Serializer (F:=loc)) = Some [] /\
  new string Serializer ada store0
  = Ok (length store0,
        store0 ++ [OSerializer (SerializerObj Serializer (Some ada) (Some []))]) /\
  (_is_iterable_but_not_string ada = false ->
   data string store_output (length store0)
     (store0 ++ [OSerializer (SerializerObj Serializer (Some ada) (Some []))])
   = Ok (MDict [])).
Proof.
  split; [reflexivity|].
  exact (new_without_fields store_output Serializer ada store0 eq_refl).
Defined.

(** [a] and [b] share one copy (address 6), [c] has another (address 7). *)
Lemma instance_copies_mirror_sharing_witness :
  exists self h',
    new string Twin ada store0 = Ok (self, h') /\
    _base_fields Twin
    = Some [("a", FieldInstance 0); ("b", FieldInstance 0); ("c", FieldInstance 1)] /\
    (exists fs yi yj,
       fields_of string h' self = Some fs /\
       fs !! 0 = Some ("a", FieldInstance yi) /\
       fs !! 1 = Some ("b", FieldInstance yj) /\
       length store0 < yi /\ length store0 < yj /\ (yi = yj <-> 0 = 0)) /\
    (exists fs yi yj,
       fields_of string h' self = Some fs /\
       fs !! 1 = Some ("b", FieldInstance yi) /\
       fs !! 2 = Some ("c", FieldInstance yj) /\
       length store0 < yi /\ length store0 < yj /\ (yi = yj <-> 0 = 1)).
Proof.
  eexists _, _. split; [vm_compute; reflexivity|]. split; [reflexivity|]. split.
  - exact (instance_copies_mirror_sharing Twin ada store0 _ _ _ 0 1 "a" "b" 0 0
             eq_refl eq_refl eq_refl eq_refl).
  - exact (instance_copies_mirror_sharing Twin ada store0 _ _ _ 1 2 "b" "c" 0 1
             eq_refl eq_refl eq_refl eq_refl).
Defined.

Example twin_fields :
  exists h',
    new string Twin ada store0 = Ok (5, h') /\
    fields_of string h' 5
    = Some [("a", FieldInstance 6); ("b", FieldInstance 6); ("c", FieldInstance 7)].
Proof. eexists. split; vm_compute; reflexivity. Qed.

Lemma field_classes_are_never_copied_witness :
  exists self h',
    new string Label (VStr "x") store0 = Ok (self, h') /\
    _base_fields Label = Some [("name", FieldClass 2)] /\
    exists fs,
      fields_of string h' self = Some fs /\
      fs !! 0 = Some ("name", FieldClass 2).
Proof.
  eexists _, _. split; [vm_compute; reflexivity|]. split; [reflexivity|].
  exact (field_classes_are_never_copied Label (VStr "x") store0 _ _ _ 0 "name" 2
           eq_refl eq_refl eq_refl).
Defined.

(** A list-like object that also has [strip] is one record. *)
Lemma marshal_object_with_strip_is_one_record_witness :
  ("strip" ∈ keys [("__iter__", VNone); ("strip", VNone); ("city", VStr "Oslo")]
   \/ "__iter__" ∉ keys [("__iter__", VNone); ("strip", VNone);
                          ("city", VStr "Oslo")]) /\
  marshal string raw_output
    (VObj [("__iter__", VNone); ("strip", VNone); ("city", VStr "Oslo")]
          (Some [resident])) address_fields
  = rmap (fun d => MDict (OrderedDict d))
      (marshal_items string raw_output
         (VObj [("__iter__", VNone); ("strip", VNone); ("city", VStr "Oslo")]
               (Some [resident])) address_fields) /\
  forall rs,
    marshal string raw_output
      (VObj [("__iter__", VNone); ("strip", VNone); ("city", VStr "Oslo")]
            (Some [resident])) address_fields
    <> Ok (MList rs).
Proof.
  assert ("strip" ∈ keys [("__iter__", VNone); ("strip", VNone);
                          ("city", VStr "Oslo")]) as H by decide_now.
  split; [by left|].
  exact (marshal_object_with_strip_is_one_record raw_output _ (Some [resident])
           address_fields (or_introl H)).
Defined.

Example marshal_string_like_object :
  marshal string raw_output
    (VObj [("__iter__", VNone); ("strip", VNone); ("city", VStr "Oslo")]
          (Some [resident])) address_fields
  = Ok (MDict [("city", MVal (VStr "Oslo"))]).
Proof. reflexivity. Qed.

Lemma construction_keeps_the_store_well_formed_witness :
  _base_fields Label = Some [("name", FieldClass 2)] /\
  closed string store0 /\
  fields_in string store0 [("name", FieldClass 2)] /\
  exists self h',
    new string Label ada store0 = Ok (self, h') /\
    closed string h' /\
    fields_in string h' [("name", FieldClass 2)] /\
    exists fs, fields_of string h' self = Some fs /\ fields_in string h' fs.
Proof.
  assert (closed string store0) as Hc.
  { intros [|[|[|[|[|l]]]]] o [= <-]; (split; [by intros p [=]|]);
      intros c Hc; repeat (apply elem_of_cons in Hc as [->|Hc]; [simpl; lia|]);
      by apply elem_of_nil in Hc. }
  assert (fields_in string store0 [("name", FieldClass 2)]) as Hf.
  { repeat constructor. exists 2. split; [by right|by eexists]. }
  split_and!; [reflexivity|done|done|].
  exact (construction_keeps_the_store_well_formed Label _ ada store0 eq_refl Hc Hf).
Defined.

End MoreConcrete.
